(** * RecursiveDescent: a shallow embedding of the expression parser

    The development follows the three translation units of the program:
    [errors.h] (the exception classes), [lexer.cpp] (regular-expression
    tokeniser) and [rd_parser.cpp] (recursive descent and the evaluator of
    the syntax tree). *)

From Stdlib Require Import ZArith List String Ascii Bool Lia.
Import ListNotations.

Local Open Scope string_scope.
Local Open Scope list_scope.
Local Open Scope Z_scope.

(** ** Outcomes of a C++ computation *)

(** The exception classes of [errors.h], followed by the two exceptions that
    [std::stoi] of the C++ library throws. *)
Inductive exn : Type :=
| InvalidTokenException (tokens : list string)
| EmptyExpressionException
| TokenIndexOutOfRange
| ParenthesesMismatchException
| UnexpectedParenthesesException
| DivideByZeroException
| UnexpectedTokenException (token : string)
| UnknownOperatorException
| std_out_of_range
| std_invalid_argument.

(** Membership in namespace [ExpressionParserErrors]. *)
Definition ExpressionParserErrors (e : exn) : bool :=
  match e with
  | std_out_of_range | std_invalid_argument => false
  | _ => true
  end.

(** A call returns, throws, runs into undefined behaviour (overflow of a
    signed [int], an access past the end of a vector), or, in the model only,
    exhausts the recursion budget it was given. *)
Inductive result (A : Type) : Type :=
| Return (a : A)
| Throw (e : exn)
| Undefined
| OutOfFuel.

Arguments Return {A} a.
Arguments Throw {A} e.
Arguments Undefined {A}.
Arguments OutOfFuel {A}.

Definition bind {A B : Type} (m : result A) (k : A -> result B) : result B :=
  match m with
  | Return a => k a
  | Throw e => Throw e
  | Undefined => Undefined
  | OutOfFuel => OutOfFuel
  end.

Declare Scope result_scope.
Delimit Scope result_scope with result.
Notation "x <- m ;; k" := (bind m (fun x => k))
  (at level 61, m at next level, right associativity) : result_scope.
Local Open Scope result_scope.

(** ** Machine integers *)

Definition INT_MAX : Z := 2147483647.
Definition INT_MIN : Z := -2147483648.

Definition in_int_range (z : Z) : bool := (INT_MIN <=? z) && (z <=? INT_MAX).

(** The value of an [int] expression: arithmetic on [int] whose mathematical
    result is not representable is undefined behaviour. *)
Definition int_result (z : Z) : result Z :=
  if in_int_range z then Return z else Undefined.

(** Comparison [i < n] of an [int] with a [size_t]: the [int] is converted to
    unsigned, so that a negative [i] compares above every container size. *)
Definition int_lt_size (i : Z) (n : nat) : bool :=
  (0 <=? i) && (i <? Z.of_nat n).

(** ** Characters and strings *)

Definition is_digit (c : ascii) : bool :=
  ((48 <=? nat_of_ascii c) && (nat_of_ascii c <=? 57))%nat.

Definition isspace (c : ascii) : bool :=
  ((nat_of_ascii c =? 32) || ((9 <=? nat_of_ascii c) && (nat_of_ascii c <=? 13)))%nat.

Fixpoint string_drop (n : nat) (s : string) : string :=
  match n, s with
  | S k, String _ s' => string_drop k s'
  | _, _ => s
  end.

(** ** Regular expressions of the lexer

    The two patterns of [lexer.h] are alternations of a character class,
    possibly under [+].  An alternation tries its branches in order; [+] is
    greedy. *)
Inductive atom : Type :=
| OneOf (cls : ascii -> bool)
| Many1 (cls : ascii -> bool).

Definition regex : Type := list atom.

Fixpoint run_length (cls : ascii -> bool) (s : string) : nat :=
  match s with
  | String c s' => if cls c then S (run_length cls s') else O
  | EmptyString => O
  end.

(** Length of the match of one branch at the start of [s]. *)
Definition match_atom (a : atom) (s : string) : option nat :=
  match a with
  | OneOf cls =>
      match s with
      | String c _ => if cls c then Some 1%nat else None
      | EmptyString => None
      end
  | Many1 cls =>
      match run_length cls s with
      | O => None
      | n => Some n
      end
  end.

Fixpoint match_here (r : regex) (s : string) : option nat :=
  match r with
  | [] => None
  | a :: r' =>
      match match_atom a s with
      | Some n => Some n
      | None => match_here r' s
      end
  end.

(** [std::sregex_iterator]: the successive non-overlapping matches, leftmost
    first.  [skip] counts the characters still covered by the match found
    last. *)
Fixpoint regex_iterator (r : regex) (skip : nat) (s : string) : list string :=
  match s with
  | EmptyString => []
  | String _ s' =>
      match skip with
      | S k => regex_iterator r k s'
      | O =>
          match match_here r s with
          | Some n => substring 0 n s :: regex_iterator r (n - 1) s'
          | None => regex_iterator r 0 s'
          end
      end
  end.

(** ** std::stoi *)

Definition digit_value (c : ascii) : Z := Z.of_nat (nat_of_ascii c) - 48.

Fixpoint decimal (acc : Z) (s : string) : Z :=
  match s with
  | String c s' => if is_digit c then decimal (10 * acc + digit_value c) s' else acc
  | EmptyString => acc
  end.

Fixpoint skip_space (s : string) : string :=
  match s with
  | String c s' => if isspace c then skip_space s' else s
  | EmptyString => s
  end.

(** [std::stoi(str)], base 10: leading white space, an optional sign, then
    the longest run of digits.  No digit: [std::invalid_argument]; a value
    that does not fit [int]: [std::out_of_range]. *)
Definition stoi (str : string) : result Z :=
  let s := skip_space str in
  let '(negative, digits) :=
    match s with
    | String "-" t => (true, t)
    | String "+" t => (false, t)
    | _ => (false, s)
    end in
  match digits with
  | String c _ =>
      if is_digit c then
        let v := if negative then - decimal 0 digits else decimal 0 digits in
        if in_int_range v then Return v else Throw std_out_of_range
      else Throw std_invalid_argument
  | EmptyString => Throw std_invalid_argument
  end.

(** ** lexer.h, lexer.cpp *)

Module TokenOperation.
Inductive t : Type :=
| None
| Literal
| L_Brace
| R_Brace
| Subtraction
| Addition
| Multiplication
| Division.

Definition eqb (a b : t) : bool :=
  match a, b with
  | None, None | Literal, Literal | L_Brace, L_Brace | R_Brace, R_Brace
  | Subtraction, Subtraction | Addition, Addition
  | Multiplication, Multiplication | Division, Division => true
  | _, _ => false
  end.
End TokenOperation.

Module Lexer.

(** [REGEX_TOKEN_PATTERN], "((\\d+|[-+*\/()]))". *)
Definition is_symbol (c : ascii) : bool :=
  match c with
  | "-" | "+" | "*" | "/" | "(" | ")" => true
  | _ => false
  end%char.

Definition REGEX_TOKEN_PATTERN : regex := [Many1 is_digit; OneOf is_symbol].

(** [REGEX_INVALID_TOKEN_PATTERN], "([^0-9+\\- *\/()])": one character
    outside the class. *)
Definition in_class (c : ascii) : bool :=
  is_digit c ||
  match c with
  | "+" | "-" | " " | "*" | "/" | "(" | ")" => true
  | _ => false
  end%char.

Definition REGEX_INVALID_TOKEN_PATTERN : regex := [OneOf (fun c => negb (in_class c))].

Definition TOKEN_VALUE_NOT_APPLICABLE : Z := -1.
Definition UNINITIALISED_EXPRESSION : string := "Uninit".

Record Token : Type := {
  operation : TokenOperation.t;
  value : Z;
  raw : string
}.

Record t : Type := {
  token_container : list Token;
  expression : string
}.

(** [Lexer::Lexer()] *)
Definition new : t :=
  {| token_container := []; expression := UNINITIALISED_EXPRESSION |}.

Definition regexFindSubstrings (this : t) (pattern : regex) : list string :=
  regex_iterator pattern 0 (expression this).

(** The body of the [for] loop of [Tokenise] up to the [push_back]. *)
Definition make_token (raw_token : string) : result Token :=
  let token_type :=
    match raw_token with
    | String c _ => c
    | EmptyString => zero
    end in
  let token op :=
    {| operation := op; value := TOKEN_VALUE_NOT_APPLICABLE; raw := raw_token |} in
  match token_type with
  | "(" => Return (token TokenOperation.L_Brace)
  | ")" => Return (token TokenOperation.R_Brace)
  | "-" => Return (token TokenOperation.Subtraction)
  | "+" => Return (token TokenOperation.Addition)
  | "*" => Return (token TokenOperation.Multiplication)
  | "/" => Return (token TokenOperation.Division)
  | _ =>
      v <- stoi raw_token ;;
      Return {| operation := TokenOperation.Literal; value := v; raw := raw_token |}
  end%char.

Fixpoint push_tokens (container : list Token) (valid_tokens : list string)
  : result (list Token) :=
  match valid_tokens with
  | [] => Return container
  | raw_token :: rest =>
      token <- make_token raw_token ;;
      push_tokens (container ++ [token]) rest
  end.

Definition Tokenise (this : t) (expr : string) : result t :=
  let this := {| token_container := token_container this; expression := expr |} in
  let invalid_tokens := regexFindSubstrings this REGEX_INVALID_TOKEN_PATTERN in
  if negb (Nat.eqb (List.length invalid_tokens) 0) then
    Throw (InvalidTokenException invalid_tokens)
  else
    let valid_tokens := regexFindSubstrings this REGEX_TOKEN_PATTERN in
    if Nat.eqb (List.length valid_tokens) 0 then
      Throw EmptyExpressionException
    else
      container <- push_tokens (token_container this) valid_tokens ;;
      Return {| token_container := container; expression := expr |}.

Definition getTokenCount (this : t) : nat := List.length (token_container this).

Definition getToken (this : t) (token_idx : Z) : result Token :=
  if (token_idx <? 0) || (Z.of_nat (getTokenCount this) <=? token_idx) then
    Throw TokenIndexOutOfRange
  else
    match nth_error (token_container this) (Z.to_nat token_idx) with
    | Some token => Return token
    | Datatypes.None => Undefined
    end.

Definition clearTokens (this : t) : t :=
  {| token_container := []; expression := UNINITIALISED_EXPRESSION |}.

End Lexer.

(** ** rd_parser.h, rd_parser.cpp *)

Module RDParser.

(** The three classes derived from [Expression]. *)
Inductive Expression : Type :=
| Binary (operation : TokenOperation.t) (left_ right_ : Expression)
| Unary (right_ : Expression)
| Literal (value : Z).

(** The operands of [+], [-] and [*] are two calls of [Evaluate] that C++
    leaves indeterminately sequenced: the compiler picks which one runs
    first. *)
Inductive operand_order : Type := LeftFirst | RightFirst.

Definition operands (order : operand_order) (left_ right_ : result Z)
    (op : Z -> Z -> Z) : result Z :=
  match order with
  | LeftFirst => l <- left_ ;; r <- right_ ;; int_result (op l r)
  | RightFirst => r <- right_ ;; l <- left_ ;; int_result (op l r)
  end.

(** [Binary::Evaluate], [Unary::Evaluate], [Literal::Evaluate]. *)
Fixpoint Evaluate (order : operand_order) (e : Expression) : result Z :=
  match e with
  | Binary operation left_ right_ =>
      match operation with
      | TokenOperation.Addition =>
          operands order (Evaluate order left_) (Evaluate order right_) Z.add
      | TokenOperation.Subtraction =>
          operands order (Evaluate order left_) (Evaluate order right_) Z.sub
      | TokenOperation.Multiplication =>
          operands order (Evaluate order left_) (Evaluate order right_) Z.mul
      | TokenOperation.Division =>
          right_value <- Evaluate order right_ ;;
          if right_value =? 0 then Throw DivideByZeroException
          else
            left_value <- Evaluate order left_ ;;
            int_result (Z.quot left_value right_value)
      | _ => Throw UnknownOperatorException
      end
  | Unary right_ =>
      v <- Evaluate order right_ ;;
      int_result (- v)
  | Literal value => Return value
  end.

(** *** The parser monad: the member [current_token_idx] is the state *)

Definition parser (A : Type) : Type := Z -> result (A * Z).

Definition ret {A : Type} (a : A) : parser A := fun idx => Return (a, idx).

Definition throw {A : Type} (e : exn) : parser A := fun _ => Throw e.

Definition out_of_fuel {A : Type} : parser A := fun _ => OutOfFuel.

Definition pbind {A B : Type} (m : parser A) (k : A -> parser B) : parser B :=
  fun idx =>
    match m idx with
    | Return (a, idx') => k a idx'
    | Throw e => Throw e
    | Undefined => Undefined
    | OutOfFuel => OutOfFuel
    end.

Definition lift {A : Type} (r : result A) : parser A :=
  fun idx => a <- r ;; Return (a, idx).

Definition current_token_idx : parser Z := fun idx => Return (idx, idx).

Definition set_current_token_idx (idx : Z) : parser unit := fun _ => Return (tt, idx).

(** Short-circuit [||] of two calls. *)
Definition por (a b : parser bool) : parser bool :=
  pbind a (fun matched => if matched then ret true else b).

Declare Scope parser_scope.
Delimit Scope parser_scope with parser.
Notation "x <- m ;; k" := (pbind m (fun x => k))
  (at level 61, m at next level, right associativity) : parser_scope.
Infix "|||" := por (at level 50, left associativity) : parser_scope.

Section Descent.
Local Open Scope parser_scope.

Variable lexer : Lexer.t.

(** The cursor is an [int] that counts tokens of a string held in memory:
    a token count of 2^31 is out of reach of the program, and
    [current_token_idx++] is taken as the plain successor. *)
Definition tokenMatchAndAdvance (operation : TokenOperation.t) : parser bool :=
  idx <- current_token_idx ;;
  if int_lt_size idx (Lexer.getTokenCount lexer) then
    token <- lift (Lexer.getToken lexer idx) ;;
    if TokenOperation.eqb (Lexer.operation token) operation then
      _ <- set_current_token_idx (idx + 1) ;;
      ret true
    else ret false
  else ret false.

(** The condition of the [while] of [parseBinary]. *)
Definition match_operator : parser bool :=
  tokenMatchAndAdvance TokenOperation.Addition
  ||| tokenMatchAndAdvance TokenOperation.Subtraction
  ||| tokenMatchAndAdvance TokenOperation.Multiplication
  ||| tokenMatchAndAdvance TokenOperation.Division.

(** The error branch at the end of [parsePrimary]. *)
Definition unexpected_token {A : Type} : parser A :=
  idx <- current_token_idx ;;
  let bad_token_idx := idx in
  let token_max_index := Z.of_nat (Lexer.getTokenCount lexer) - 1 in
  let bad_token_idx :=
    if bad_token_idx >? token_max_index then token_max_index else bad_token_idx in
  bad_token <- lift (Lexer.getToken lexer bad_token_idx) ;;
  throw (UnexpectedTokenException (Lexer.raw bad_token)).

(** The four mutually recursive member functions; [parseBinary_while] is
    the loop of [parseBinary].  [fuel] bounds the nesting of calls and
    loop iterations. *)
Fixpoint parseExpression (fuel : nat) : parser Expression :=
  match fuel with
  | O => out_of_fuel
  | S fuel => parseBinary fuel
  end
with parseBinary (fuel : nat) : parser Expression :=
  match fuel with
  | O => out_of_fuel
  | S fuel =>
      left_ <- parseUnary fuel ;;
      parseBinary_while fuel left_
  end
with parseBinary_while (fuel : nat) (left_ : Expression) : parser Expression :=
  match fuel with
  | O => out_of_fuel
  | S fuel =>
      matched <- match_operator ;;
      if matched then
        idx <- current_token_idx ;;
        previous_token <- lift (Lexer.getToken lexer (idx - 1)) ;;
        right_ <- parseUnary fuel ;;
        parseBinary_while fuel (Binary (Lexer.operation previous_token) left_ right_)
      else ret left_
  end
with parseUnary (fuel : nat) : parser Expression :=
  match fuel with
  | O => out_of_fuel
  | S fuel =>
      matched <- tokenMatchAndAdvance TokenOperation.Subtraction ;;
      if matched then
        right_ <- parseUnary fuel ;;
        ret (Unary right_)
      else parsePrimary fuel
  end
with parsePrimary (fuel : nat) : parser Expression :=
  match fuel with
  | O => out_of_fuel
  | S fuel =>
      matched <- tokenMatchAndAdvance TokenOperation.Literal ;;
      if matched then
        idx <- current_token_idx ;;
        token <- lift (Lexer.getToken lexer (idx - 1)) ;;
        ret (Literal (Lexer.value token))
      else
        matched <- tokenMatchAndAdvance TokenOperation.L_Brace ;;
        if matched then
          expression <- parseExpression fuel ;;
          closed <- tokenMatchAndAdvance TokenOperation.R_Brace ;;
          if negb closed then throw ParenthesesMismatchException
          else ret expression
        else unexpected_token
  end.

End Descent.

Record t : Type := {
  lexer : Lexer.t;
  current_token_idx_ : Z
}.

(** [RDParser::RDParser()] *)
Definition new : t := {| lexer := Lexer.new; current_token_idx_ := 0 |}.

(** [RDParser::Parse] with an explicit recursion budget. *)
Definition ParseFuel (fuel : nat) (order : operand_order) (this : t) (expr : string)
  : result Z :=
  let idx := 0 in
  lexer <- Lexer.Tokenise (Lexer.clearTokens (lexer this)) expr ;;
  parsed <- parseExpression lexer fuel idx ;;
  let '(expression, idx) := parsed in
  if int_lt_size idx (Lexer.getTokenCount lexer) then
    Throw UnexpectedParenthesesException
  else Evaluate order expression.

(** [RDParser::Parse].  Four levels of calls per input character, and four
    more, are enough ([ParseFuel_enough] and [Parse_terminates] below). *)
Definition Parse (order : operand_order) (this : t) (expr : string) : result Z :=
  ParseFuel (4 * String.length expr + 4) order this expr.

End RDParser.

(** * Predicates of the statements *)

Fixpoint string_forallb (cls : ascii -> bool) (s : string) : bool :=
  match s with
  | String c s' => cls c && string_forallb cls s'
  | EmptyString => true
  end.

(** What [REGEX_TOKEN_PATTERN] can match: a run of digits or one symbol. *)
Definition raw_token_ok (raw_token : string) : Prop :=
  (exists c s, raw_token = String c s /\ is_digit c = true /\ string_forallb is_digit s = true)
  \/ (exists c, raw_token = String c "" /\ Lexer.is_symbol c = true).

(** A token as [Tokenise] builds it: a literal carries the value of its
    digits, and no token carries [TokenOperation::None]. *)
Definition token_ok (token : Lexer.Token) : Prop :=
  match Lexer.operation token with
  | TokenOperation.Literal => 0 <= Lexer.value token <= INT_MAX
  | TokenOperation.None => False
  | _ => True
  end.

(** The characters [REGEX_INVALID_TOKEN_PATTERN] matches, in order. *)
Definition invalid_characters (expr : string) : list ascii :=
  filter (fun c => negb (Lexer.in_class c)) (list_ascii_of_string expr).

Import RDParser.

(** The token under the cursor, when the cursor is inside the container. *)
Definition token_at (lexer : Lexer.t) (idx : Z) : option Lexer.Token :=
  if int_lt_size idx (Lexer.getTokenCount lexer)
  then nth_error (Lexer.token_container lexer) (Z.to_nat idx)
  else None.

(** The four operations the loop of [parseBinary] accepts. *)
Definition is_operator (operation : TokenOperation.t) : bool :=
  match operation with
  | TokenOperation.Addition | TokenOperation.Subtraction
  | TokenOperation.Multiplication | TokenOperation.Division => true
  | _ => false
  end.

(** Syntax trees over the four operators and non-negative [int] literals. *)
Fixpoint well_formed (e : Expression) : Prop :=
  match e with
  | Binary operation left_ right_ =>
      is_operator operation = true /\ well_formed left_ /\ well_formed right_
  | Unary right_ => well_formed right_
  | Literal value => 0 <= value <= INT_MAX
  end.

(** Number of nodes of a syntax tree. *)
Fixpoint nodes (e : Expression) : nat :=
  match e with
  | Binary _ left_ right_ => S (nodes left_ + nodes right_)
  | Unary right_ => S (nodes right_)
  | Literal _ => 1
  end.

(** What a parsing function started at [idx] may produce: a tree and a
    cursor further right ([strict]: strictly), inside the container, with at
    most [size] nodes more than tokens consumed and, for [stops], not in
    front of an operator; or one of two syntax errors.  [left_ok] is what
    the loop of [parseBinary] knows of the tree it extends. *)
Definition parsed (lexer : Lexer.t) (strict stops : bool) (size : nat) (left_ok : Prop)
    (idx : Z) (r : result (Expression * Z)) : Prop :=
  match r with
  | Return (e, idx') =>
      (if strict then idx < idx' else idx <= idx') /\
      idx' <= Z.of_nat (Lexer.getTokenCount lexer) /\
      (left_ok -> well_formed e) /\
      Z.of_nat (nodes e) <= Z.of_nat size + (idx' - idx) /\
      (stops = true -> match_operator lexer idx' = Return (false, idx'))
  | Throw ex =>
      ex = ParenthesesMismatchException \/
      exists token, In token (Lexer.token_container lexer) /\
                    ex = UnexpectedTokenException (Lexer.raw token)
  | _ => False
  end.

(** What the evaluation of a well-formed tree may produce. *)
Definition evaluated (r : result Z) : Prop :=
  match r with
  | Return v => INT_MIN <= v <= INT_MAX
  | Throw ex => ex = DivideByZeroException
  | Undefined => True
  | OutOfFuel => False
  end.

(** The outcomes of [Parse], and what the input looks like for each. *)
Definition outcome (expr : string) (r : result Z) : Prop :=
  match r with
  | Return v => INT_MIN <= v <= INT_MAX /\ invalid_characters expr = []
  | Throw ex =>
      match ex with
      | InvalidTokenException tokens =>
          invalid_characters expr <> [] /\
          tokens = map (fun c => String c "") (invalid_characters expr)
      | EmptyExpressionException =>
          regex_iterator Lexer.REGEX_TOKEN_PATTERN 0 expr = []
      | std_out_of_range =>
          Exists (fun r => INT_MAX < decimal 0 r)
            (regex_iterator Lexer.REGEX_TOKEN_PATTERN 0 expr)
      | UnexpectedTokenException token =>
          In token (regex_iterator Lexer.REGEX_TOKEN_PATTERN 0 expr)
      | ParenthesesMismatchException | UnexpectedParenthesesException
      | DivideByZeroException => invalid_characters expr = []
      | TokenIndexOutOfRange | UnknownOperatorException | std_invalid_argument => False
      end
  | Undefined => invalid_characters expr = []
  | OutOfFuel => False
  end.

(** The tokens [first op1 lit1 op2 lit2 ...] and the tree that folds them
    from the left. *)
Definition chain_tokens (first : Lexer.Token) (rest : list (Lexer.Token * Lexer.Token))
  : list Lexer.Token :=
  first :: flat_map (fun p => [fst p; snd p]) rest.

Definition chain_tree (left_ : Expression) (rest : list (Lexer.Token * Lexer.Token))
  : Expression :=
  fold_left
    (fun left_ p => Binary (Lexer.operation (fst p)) left_ (Literal (Lexer.value (snd p))))
    rest left_.

Definition chain_ok (p : Lexer.Token * Lexer.Token) : Prop :=
  is_operator (Lexer.operation (fst p)) = true /\
  Lexer.operation (snd p) = TokenOperation.Literal.

(** The input without its blanks, and the concatenation of a list of
    strings. *)
Fixpoint strip_spaces (s : string) : string :=
  match s with
  | String c s' => if Ascii.eqb c " " then strip_spaces s' else String c (strip_spaces s')
  | EmptyString => EmptyString
  end.

Definition join (l : list string) : string := fold_right String.append "" l.

(** The allowed set as the specification words it, [0-9+\-*/() \t]: the
    class of [REGEX_INVALID_TOKEN_PATTERN] and the tabulation. *)
Definition allowed_by_spec (c : ascii) : bool :=
  Lexer.in_class c || Ascii.eqb c "009".


(** An evaluation that does not return. *)
Definition fails (r : result Z) : Prop := forall v, r <> Return v.

(** [operation] nodes run their left operand first: when it does not return,
    the node ends the way the left operand does, whatever the right operand
    is.  Symmetrically for the right operand. *)
Definition left_operand_first (order : operand_order) (operation : TokenOperation.t) : Prop :=
  forall left_ right_,
    fails (Evaluate order left_) ->
    Evaluate order (Binary operation left_ right_) = Evaluate order left_.

Definition right_operand_first (order : operand_order) (operation : TokenOperation.t) : Prop :=
  forall left_ right_,
    fails (Evaluate order right_) ->
    Evaluate order (Binary operation left_ right_) = Evaluate order right_.


(** One operator applied to two [int] values, as [Binary::Evaluate] does
    once both operands have returned. *)
Definition apply_operator (operation : TokenOperation.t) (a b : Z) : result Z :=
  match operation with
  | TokenOperation.Addition => int_result (a + b)
  | TokenOperation.Subtraction => int_result (a - b)
  | TokenOperation.Multiplication => int_result (a * b)
  | TokenOperation.Division =>
      if b =? 0 then Throw DivideByZeroException else int_result (Z.quot a b)
  | _ => Throw UnknownOperatorException
  end.

(** The tree that puts operands under [Binary] nodes from the left:
    [((first op1 e1) op2 e2) ...]. *)
Definition fold_operands (left_ : Expression) (rest : list (TokenOperation.t * Expression))
  : Expression :=
  fold_left (fun left_ p => Binary (fst p) left_ (snd p)) rest left_.

(** From the cursor [idx] on, the tokens are operators each followed by an
    operand that [parseUnary] parses, up to a cursor [idx'] that is not on
    an operator. *)
Inductive operand_run (lexer : Lexer.t)
  : Z -> list (TokenOperation.t * Expression) -> Z -> Prop :=
| operand_run_end (idx : Z) :
    (forall token, token_at lexer idx = Some token ->
                   is_operator (Lexer.operation token) = false) ->
    operand_run lexer idx [] idx
| operand_run_step (idx : Z) (token : Lexer.Token) (fuel : nat) (right_ : Expression)
    (idx1 : Z) (rest : list (TokenOperation.t * Expression)) (idx' : Z) :
    token_at lexer idx = Some token ->
    is_operator (Lexer.operation token) = true ->
    parseUnary lexer fuel (idx + 1) = Return (right_, idx1) ->
    operand_run lexer idx1 rest idx' ->
    operand_run lexer idx ((Lexer.operation token, right_) :: rest) idx'.

(** The operators applied one after the other from the left to the values
    of the operands. *)
Definition fold_values (order : operand_order) (first : result Z)
    (rest : list (TokenOperation.t * Expression)) : result Z :=
  fold_left
    (fun acc p =>
       a <- acc ;; b <- Evaluate order (snd p) ;; apply_operator (fst p) a b)
    rest first.






(** * The messages and the driver *)

(** ** C strings *)

Definition is_nul (c : ascii) : bool := Ascii.eqb c "000".

(** The text a [const char*] denotes: the characters in front of the first
    NUL.  A [std::string] can hold a NUL; the text read through [c_str()],
    [what()] or a [const char*] parameter ends there. *)
Fixpoint c_str (s : string) : string :=
  match s with
  | String c s' => if is_nul c then "" else String c (c_str s')
  | EmptyString => ""
  end.

(** ** errors.h: the messages *)

(** [InvalidTokenException::build_error_details] *)
Definition build_error_details (tokens : list string) : string :=
  fold_left
    (fun error_message raw_token => (error_message ++ (raw_token ++ ","))%string)
    tokens "Invalid token(s) detected in expression : ".

(** The constructors of the two base classes. *)
Definition LexerException (message : string) : string := ("Lexer:: " ++ message)%string.

Definition RDParserException (message : string) : string := ("RDParser:: " ++ message)%string.

(** The [std::string] an exception hands to [std::runtime_error].  The
    texts of the two exceptions of [std::stoi] are those of the C++ library
    in use. *)
Definition stored_message (out_of_range_what invalid_argument_what : string) (e : exn) : string :=
  match e with
  | InvalidTokenException tokens => LexerException (build_error_details tokens)
  | EmptyExpressionException => LexerException "Empty expression is invalid"
  | TokenIndexOutOfRange => LexerException "Token index is out of range"
  | ParenthesesMismatchException => RDParserException "Mismatched parentheses in expression"
  | UnexpectedParenthesesException => RDParserException "Unexpected parentheses in expression"
  | DivideByZeroException => RDParserException "Division by zero"
  | UnexpectedTokenException token =>
      RDParserException ("Unexpected token encountered: " ++ token)
  | UnknownOperatorException => RDParserException "Unknown operator"
  | std_out_of_range => out_of_range_what
  | std_invalid_argument => invalid_argument_what
  end.

(** [std::exception::what()]: a [const char*] into the stored message. *)
Definition what (out_of_range_what invalid_argument_what : string) (e : exn) : string :=
  c_str (stored_message out_of_range_what invalid_argument_what e).

(** ** main.cpp *)

Definition endl : string := String "010" "".

(** [evaluate]: the value returned, the [int] left in [result], and what was
    written to [std::cerr].  The parameter is a [const char*], from which
    the [std::string] given to [Parse] is made, and [what()] is written as
    one.  Every exception class derives from [std::exception], so the
    handler catches all of them. *)
Definition evaluate (out_of_range_what invalid_argument_what : string)
    (order : operand_order) (expression : string) : result (bool * Z * string) :=
  match Parse order RDParser.new (c_str expression) with
  | Return result => Return (true, result, "")
  | Throw e =>
      Return (false, -1,
              ("Error: " ++ what out_of_range_what invalid_argument_what e ++ endl)%string)
  | Undefined => Undefined
  | OutOfFuel => OutOfFuel
  end.

(** * Predicates of the further properties *)

(** The text of a token that is not a literal. *)
Definition symbol_of (operation : TokenOperation.t) : option ascii :=
  match operation with
  | TokenOperation.L_Brace => Some "("
  | TokenOperation.R_Brace => Some ")"
  | TokenOperation.Subtraction => Some "-"
  | TokenOperation.Addition => Some "+"
  | TokenOperation.Multiplication => Some "*"
  | TokenOperation.Division => Some "/"
  | _ => None
  end%char.

(** The three members of a token agree: a literal has a run of digits as
    its text and their decimal value; any other token has its own one
    character as text and [TOKEN_VALUE_NOT_APPLICABLE] as value. *)
Definition token_shape (token : Lexer.Token) : Prop :=
  match Lexer.operation token with
  | TokenOperation.Literal =>
      Lexer.raw token <> "" /\
      string_forallb is_digit (Lexer.raw token) = true /\
      Lexer.value token = decimal 0 (Lexer.raw token) /\
      0 <= Lexer.value token <= INT_MAX
  | operation =>
      match symbol_of operation with
      | Some c =>
          Lexer.raw token = String c "" /\
          Lexer.value token = Lexer.TOKEN_VALUE_NOT_APPLICABLE
      | None => False
      end
  end.

(** The part of the message of InvalidToken after its fixed beginning. *)
Definition token_list_text (tokens : list string) : string :=
  join (map (fun raw_token => (raw_token ++ ",")%string) tokens).

(** The characters of a list in front of its first NUL, and a text without
    NUL. *)
Fixpoint before_nul (l : list ascii) : list ascii :=
  match l with
  | c :: l' => if is_nul c then [] else c :: before_nul l'
  | [] => []
  end.

Definition nul_free (s : string) : bool := string_forallb (fun c => negb (is_nul c)) s.

(** Two exceptions of the same class, with the same text, as far as a C
    string shows it, in the classes that carry one. *)
Definition same_exception (e1 e2 : exn) : Prop :=
  match e1, e2 with
  | InvalidTokenException l1, InvalidTokenException l2 =>
      c_str (token_list_text l1) = c_str (token_list_text l2)
  | UnexpectedTokenException t1, UnexpectedTokenException t2 => c_str t1 = c_str t2
  | EmptyExpressionException, EmptyExpressionException
  | TokenIndexOutOfRange, TokenIndexOutOfRange
  | ParenthesesMismatchException, ParenthesesMismatchException
  | UnexpectedParenthesesException, UnexpectedParenthesesException
  | DivideByZeroException, DivideByZeroException
  | UnknownOperatorException, UnknownOperatorException => True
  | _, _ => False
  end.

(** The chain [first op1 lit1 op2 lit2 ...] computed from the left, one
    operator after the other. *)
Definition chain_value (first : result Z) (rest : list (Lexer.Token * Lexer.Token))
  : result Z :=
  fold_left
    (fun acc p =>
       a <- acc ;; apply_operator (Lexer.operation (fst p)) a (Lexer.value (snd p)))
    rest first.

(** [k] minus signs, as text and as tokens, and [k] negations of a tree. *)
Fixpoint minuses (k : nat) : string :=
  match k with
  | O => ""
  | S k => String "-" (minuses k)
  end.

Definition minus_token : Lexer.Token :=
  {| Lexer.operation := TokenOperation.Subtraction;
     Lexer.value := Lexer.TOKEN_VALUE_NOT_APPLICABLE;
     Lexer.raw := "-" |}.

Definition literal_token (raw_token : string) : Lexer.Token :=
  {| Lexer.operation := TokenOperation.Literal;
     Lexer.value := decimal 0 raw_token;
     Lexer.raw := raw_token |}.

Fixpoint negations (k : nat) (e : Expression) : Expression :=
  match k with
  | O => e
  | S k => Unary (negations k e)
  end.

(** The nesting depth a token adds, and the depth after a list of tokens. *)
Definition weight (token : Lexer.Token) : Z :=
  match Lexer.operation token with
  | TokenOperation.L_Brace => 1
  | TokenOperation.R_Brace => -1
  | _ => 0
  end.

Definition nesting (tokens : list Lexer.Token) : Z :=
  fold_right (fun token depth => weight token + depth) 0 tokens.

(** The same count on the characters of the input. *)
Fixpoint paren_depth (s : string) : Z :=
  match s with
  | String c s' =>
      (if Ascii.eqb c "(" then 1 else if Ascii.eqb c ")" then -1 else 0) + paren_depth s'
  | EmptyString => 0
  end.

(** The depth in front of the cursor. *)
Definition nesting_before (lexer : Lexer.t) (idx : Z) : Z :=
  nesting (firstn (Z.to_nat idx) (Lexer.token_container lexer)).

(** A parsing function that returns has consumed a balanced stretch of
    tokens: the depth is back where it was and was never below. *)
Definition balanced_run (lexer : Lexer.t) (idx : Z) (r : result (Expression * Z)) : Prop :=
  match r with
  | Return (_, idx') =>
      idx <= idx' /\
      nesting_before lexer idx' = nesting_before lexer idx /\
      forall j, idx <= j <= idx' -> nesting_before lexer idx <= nesting_before lexer j
  | _ => True
  end.

Definition left_brace_token : Lexer.Token :=
  {| Lexer.operation := TokenOperation.L_Brace;
     Lexer.value := Lexer.TOKEN_VALUE_NOT_APPLICABLE;
     Lexer.raw := "(" |}.

Definition right_brace_token : Lexer.Token :=
  {| Lexer.operation := TokenOperation.R_Brace;
     Lexer.value := Lexer.TOKEN_VALUE_NOT_APPLICABLE;
     Lexer.raw := ")" |}.

(** A run of a parsing function on a token sequence and its run on the
    same tokens with [k] tokens put in front: the second returns the same
    tree with the cursor [k] further, and the first ends within its [n]
    tokens. *)
Definition shifted (n k idx : Z) (r r' : result (Expression * Z)) : Prop :=
  forall e idx', r = Return (e, idx') -> r' = Return (e, idx' + k) /\ idx <= idx' <= n.

(** An expression put in parentheses. *)
Definition parenthesised (expr : string) : string := String "(" (expr ++ ")").

(** * Properties *)

(** ** Runs of the program *)

Example tokenise_sum :
  Lexer.Tokenise Lexer.new "12 +3" =
  Return {| Lexer.token_container :=
              [ {| Lexer.operation := TokenOperation.Literal; Lexer.value := 12; Lexer.raw := "12" |};
                {| Lexer.operation := TokenOperation.Addition; Lexer.value := -1; Lexer.raw := "+" |};
                {| Lexer.operation := TokenOperation.Literal; Lexer.value := 3; Lexer.raw := "3" |} ];
            Lexer.expression := "12 +3" |}.
Proof. reflexivity. Qed.

Example tokenise_invalid :
  Lexer.Tokenise Lexer.new "1 + 3 + test" = Throw (InvalidTokenException ["t"; "e"; "s"; "t"]).
Proof. reflexivity. Qed.

Example parse_simple_term :
  RDParser.Parse RDParser.LeftFirst RDParser.new "1 + 3" = Return 4.
Proof. reflexivity. Qed.

Example parse_negation_applied :
  RDParser.Parse RDParser.LeftFirst RDParser.new "1 + 4 * -2" = Return (-10).
Proof. reflexivity. Qed.

Example parse_empty :
  RDParser.Parse RDParser.LeftFirst RDParser.new "   " = Throw EmptyExpressionException.
Proof. reflexivity. Qed.

Example parse_negations :
  RDParser.Parse RDParser.LeftFirst RDParser.new "----5+---6*6" = Return (-6).
Proof. reflexivity. Qed.

Example parse_nested :
  RDParser.Parse RDParser.RightFirst RDParser.new "4 + (12 / (1 * 2))" = Return 10.
Proof. reflexivity. Qed.

Example parse_mismatch :
  RDParser.Parse RDParser.LeftFirst RDParser.new "(1 + (12 * 2) " = Throw ParenthesesMismatchException.
Proof. reflexivity. Qed.

Example parse_bad_combination :
  RDParser.Parse RDParser.LeftFirst RDParser.new "5 + 6 *+ 4" = Throw (UnexpectedTokenException "+").
Proof. reflexivity. Qed.

Example parse_bad_right_brace :
  RDParser.Parse RDParser.LeftFirst RDParser.new "5 + )6 *+ 4" = Throw (UnexpectedTokenException ")").
Proof. reflexivity. Qed.

(** ** Regular-expression matching *)

Lemma substring_0_0 (s : string) : substring 0 0 s = "".
Proof. destruct s; reflexivity. Qed.

Lemma regex_iterator_skip (r : regex) (k : nat) (s : string) :
  regex_iterator r k s = regex_iterator r 0 (string_drop k s).
Proof.
  revert k; induction s as [|c s IH]; intros [|k]; simpl; auto.
Qed.

Lemma regex_iterator_Forall (P : string -> Prop) (r : regex) :
  (forall s n, match_here r s = Some n -> P (substring 0 n s)) ->
  forall s k, Forall P (regex_iterator r k s).
Proof.
  intros Hm; induction s as [|c s IH]; intros k; simpl.
  - constructor.
  - destruct k as [|k]; [|apply IH].
    destruct (match_here r (String c s)) as [n|] eqn:E; [|apply IH].
    constructor; [apply (Hm _ _ E) | apply IH].
Qed.

Lemma regex_iterator_length (r : regex) (s : string) (k : nat) :
  (List.length (regex_iterator r k s) <= String.length s)%nat.
Proof.
  revert k; induction s as [|c s IH]; intros k; simpl; [lia|].
  destruct k as [|k]; [|specialize (IH k); lia].
  destruct (match_here r (String c s)) as [n|]; simpl.
  - specialize (IH (n - 1)%nat); lia.
  - specialize (IH 0%nat); lia.
Qed.

(** A pattern that is one character class reports every character of the
    class on its own. *)
Lemma regex_iterator_OneOf (cls : ascii -> bool) (s : string) :
  regex_iterator [OneOf cls] 0 s =
  map (fun c => String c "") (filter cls (list_ascii_of_string s)).
Proof.
  induction s as [|c s IH]; simpl; [reflexivity|].
  destruct (cls c); simpl; rewrite ?substring_0_0, IH; reflexivity.
Qed.

Lemma substring_run (cls : ascii -> bool) (s : string) :
  string_forallb cls (substring 0 (run_length cls s) s) = true.
Proof.
  induction s as [|c s IH]; simpl; [reflexivity|].
  destruct (cls c) eqn:E; simpl; [rewrite E, IH|]; reflexivity.
Qed.

Lemma token_pattern_matches (s : string) (k : nat) :
  Forall raw_token_ok (regex_iterator Lexer.REGEX_TOKEN_PATTERN k s).
Proof.
  apply regex_iterator_Forall; clear; intros s n.
  unfold Lexer.REGEX_TOKEN_PATTERN; simpl.
  destruct (run_length is_digit s) as [|m] eqn:Er.
  - destruct s as [|c s]; [discriminate|].
    destruct (Lexer.is_symbol c) eqn:Es; [|discriminate].
    intros [= <-]; right; exists c; simpl; rewrite substring_0_0; auto.
  - intros [= <-]; left.
    pose proof (substring_run is_digit s) as Hr; rewrite Er in Hr.
    destruct s as [|c s]; [discriminate|].
    simpl in *. apply andb_true_iff in Hr as [Hc Hr]. eauto.
Qed.

(** ** The tokeniser *)

Lemma digit_value_range (c : ascii) :
  is_digit c = true -> 0 <= digit_value c <= 9.
Proof.
  unfold is_digit, digit_value; intros H.
  apply andb_true_iff in H as [H1 H2].
  apply Nat.leb_le in H1, H2. lia.
Qed.

Lemma decimal_ge (s : string) (acc : Z) : 0 <= acc -> acc <= decimal acc s.
Proof.
  revert acc; induction s as [|c s IH]; intros acc Ha; cbn [decimal]; [lia|].
  destruct (is_digit c) eqn:E; [|lia].
  pose proof (digit_value_range c E).
  specialize (IH (10 * acc + digit_value c)). lia.
Qed.

Lemma stoi_digits (c : ascii) (s : string) :
  is_digit c = true ->
  stoi (String c s) =
  if decimal 0 (String c s) <=? INT_MAX then Return (decimal 0 (String c s))
  else Throw std_out_of_range.
Proof.
  intros Hc.
  pose proof (decimal_ge (String c s) 0 ltac:(lia)) as Hd.
  assert (Hs : isspace c = false).
  { destruct c as [[] [] [] [] [] [] [] []]; try discriminate Hc; reflexivity. }
  assert (Hstoi : stoi (String c s) =
      if in_int_range (decimal 0 (String c s)) then Return (decimal 0 (String c s))
      else Throw std_out_of_range).
  { unfold stoi. cbn [skip_space]. rewrite Hs.
    destruct c as [[] [] [] [] [] [] [] []]; try discriminate Hc; reflexivity. }
  rewrite Hstoi. unfold in_int_range.
  replace (INT_MIN <=? decimal 0 (String c s)) with true; [reflexivity|].
  symmetry; apply Z.leb_le. unfold INT_MIN. lia.
Qed.

Lemma make_token_digits (c : ascii) (s : string) :
  is_digit c = true ->
  Lexer.make_token (String c s) =
  (v <- stoi (String c s) ;;
   Return {| Lexer.operation := TokenOperation.Literal; Lexer.value := v;
             Lexer.raw := String c s |})%result.
Proof.
  intros Hc.
  destruct c as [[] [] [] [] [] [] [] []]; try discriminate Hc; reflexivity.
Qed.

Lemma make_token_symbol (c : ascii) :
  Lexer.is_symbol c = true ->
  exists token, Lexer.make_token (String c "") = Return token /\
    token_ok token /\ Lexer.raw token = String c "" /\
    Lexer.operation token <> TokenOperation.Literal.
Proof.
  intros Hc.
  destruct c as [[] [] [] [] [] [] [] []]; try discriminate Hc;
    (eexists; split; [reflexivity|]; cbv; repeat split; congruence).
Qed.

Lemma make_token_spec (raw_token : string) :
  raw_token_ok raw_token ->
  match Lexer.make_token raw_token with
  | Return token => token_ok token /\ Lexer.raw token = raw_token
  | Throw e => e = std_out_of_range /\ INT_MAX < decimal 0 raw_token
  | _ => False
  end.
Proof.
  intros [(c & s & -> & Hc & _) | (c & -> & Hc)].
  - rewrite (make_token_digits c s Hc), (stoi_digits c s Hc).
    pose proof (decimal_ge (String c s) 0 ltac:(lia)) as Hd.
    destruct (decimal 0 (String c s) <=? INT_MAX) eqn:E; cbn [bind].
    + apply Z.leb_le in E. unfold token_ok; cbn [Lexer.operation Lexer.value Lexer.raw].
      split; [lia|reflexivity].
    + apply Z.leb_gt in E. auto.
  - destruct (make_token_symbol c Hc) as (token & -> & Hok & Hraw & _). auto.
Qed.

Lemma push_tokens_spec (valid_tokens : list string) :
  Forall raw_token_ok valid_tokens ->
  forall container, Forall token_ok container ->
  match Lexer.push_tokens container valid_tokens with
  | Return tokens =>
      Forall token_ok tokens /\
      map Lexer.raw tokens = (map Lexer.raw container ++ valid_tokens)%list
  | Throw e =>
      e = std_out_of_range /\ Exists (fun r => INT_MAX < decimal 0 r) valid_tokens
  | _ => False
  end.
Proof.
  induction 1 as [|r rs Hr Hrs IH]; intros container Hc; simpl.
  - rewrite app_nil_r; auto.
  - pose proof (make_token_spec r Hr) as Hm.
    destruct (Lexer.make_token r) as [token|e| |]; simpl; try contradiction.
    + destruct Hm as [Hok Hraw].
      specialize (IH (container ++ [token])).
      destruct (Lexer.push_tokens (container ++ [token]) rs) as [tokens|e| |].
      * destruct IH as [H1 H2]; [apply Forall_app; auto|].
        split; [assumption|].
        rewrite H2, map_app, <- app_assoc; simpl; rewrite Hraw; reflexivity.
      * destruct IH as [H1 H2]; [apply Forall_app; auto|]. auto.
      * apply IH, Forall_app; auto.
      * apply IH, Forall_app; auto.
    + destruct Hm as [-> Hbig]. auto.
Qed.

Lemma Tokenise_spec (this : Lexer.t) (expr : string) :
  match Lexer.Tokenise (Lexer.clearTokens this) expr with
  | Return lexer =>
      invalid_characters expr = [] /\
      Lexer.token_container lexer <> [] /\
      Forall token_ok (Lexer.token_container lexer) /\
      map Lexer.raw (Lexer.token_container lexer) =
        regex_iterator Lexer.REGEX_TOKEN_PATTERN 0 expr
  | Throw e =>
      (invalid_characters expr <> [] /\
       e = InvalidTokenException (map (fun c => String c "") (invalid_characters expr)))
      \/ (invalid_characters expr = [] /\
          regex_iterator Lexer.REGEX_TOKEN_PATTERN 0 expr = [] /\
          e = EmptyExpressionException)
      \/ (invalid_characters expr = [] /\
          Exists (fun r => INT_MAX < decimal 0 r)
            (regex_iterator Lexer.REGEX_TOKEN_PATTERN 0 expr) /\
          e = std_out_of_range)
  | _ => False
  end.
Proof.
  unfold Lexer.Tokenise, Lexer.regexFindSubstrings, Lexer.REGEX_INVALID_TOKEN_PATTERN.
  cbn [Lexer.expression Lexer.token_container Lexer.clearTokens].
  rewrite regex_iterator_OneOf. fold (invalid_characters expr).
  destruct (invalid_characters expr) as [|c l] eqn:Ei; cbn [map List.length Nat.eqb negb].
  2:{ left; split; [discriminate|reflexivity]. }
  pose proof (token_pattern_matches expr 0) as Hraw.
  destruct (regex_iterator Lexer.REGEX_TOKEN_PATTERN 0 expr) as [|r rs] eqn:Er;
    cbn [List.length Nat.eqb].
  { right; left; auto. }
  pose proof (push_tokens_spec (r :: rs) Hraw [] (Forall_nil _)) as Hp.
  destruct (Lexer.push_tokens [] (r :: rs)) as [tokens|e| |]; simpl; try contradiction.
  - destruct Hp as [Hok Hmap]. repeat split; auto.
    intros ->; discriminate Hmap.
  - destruct Hp as [-> Hbig]. right; right; auto.
Qed.

(** ** The parser *)

Lemma getToken_spec (lexer : Lexer.t) (idx : Z) :
  Lexer.getToken lexer idx =
  match token_at lexer idx with
  | Some token => Return token
  | None => Throw TokenIndexOutOfRange
  end.
Proof.
  unfold Lexer.getToken, token_at, int_lt_size, Lexer.getTokenCount.
  destruct (idx <? 0) eqn:E1; simpl.
  - apply Z.ltb_lt in E1. replace (0 <=? idx) with false; [reflexivity|].
    symmetry; apply Z.leb_gt; lia.
  - apply Z.ltb_ge in E1. replace (0 <=? idx) with true by (symmetry; apply Z.leb_le; lia).
    simpl. rewrite Z.leb_antisym. destruct (idx <? _) eqn:E2; simpl; [|reflexivity].
    apply Z.ltb_lt in E2.
    destruct (nth_error _ _) eqn:E3; [reflexivity|].
    apply nth_error_None in E3. lia.
Qed.

Lemma token_at_Some (lexer : Lexer.t) (idx : Z) (token : Lexer.Token) :
  token_at lexer idx = Some token ->
  0 <= idx < Z.of_nat (Lexer.getTokenCount lexer) /\
  In token (Lexer.token_container lexer).
Proof.
  unfold token_at, int_lt_size. destruct (0 <=? idx) eqn:E1; [|discriminate].
  destruct (idx <? _) eqn:E2; [|discriminate]. simpl.
  apply Z.leb_le in E1. apply Z.ltb_lt in E2.
  intros H; split; [lia|]. eapply nth_error_In; eauto.
Qed.

Lemma token_at_None (lexer : Lexer.t) (idx : Z) :
  token_at lexer idx = None ->
  idx < 0 \/ Z.of_nat (Lexer.getTokenCount lexer) <= idx.
Proof.
  unfold token_at, int_lt_size, Lexer.getTokenCount.
  destruct (0 <=? idx) eqn:E1; [|apply Z.leb_gt in E1; lia].
  destruct (idx <? _) eqn:E2; [|apply Z.ltb_ge in E2; lia]. simpl.
  apply Z.ltb_lt in E2. intros H. apply nth_error_None in H. lia.
Qed.

Lemma int_lt_size_spec (i : Z) (n : nat) :
  int_lt_size i n = true <-> 0 <= i < Z.of_nat n.
Proof.
  unfold int_lt_size. rewrite andb_true_iff, Z.leb_le, Z.ltb_lt. tauto.
Qed.

Lemma tokenMatchAndAdvance_spec (lexer : Lexer.t) (operation : TokenOperation.t) (idx : Z) :
  tokenMatchAndAdvance lexer operation idx =
  match token_at lexer idx with
  | Some token =>
      if TokenOperation.eqb (Lexer.operation token) operation
      then Return (true, idx + 1) else Return (false, idx)
  | None => Return (false, idx)
  end.
Proof.
  unfold tokenMatchAndAdvance, pbind, current_token_idx, lift.
  rewrite getToken_spec.
  destruct (token_at lexer idx) as [token|] eqn:E.
  - apply token_at_Some in E as [E _]. apply int_lt_size_spec in E. rewrite E. simpl.
    destruct (TokenOperation.eqb _ _); reflexivity.
  - apply token_at_None in E.
    destruct (int_lt_size idx _) eqn:E'; [|reflexivity].
    apply int_lt_size_spec in E'. lia.
Qed.

Lemma match_operator_spec (lexer : Lexer.t) (idx : Z) :
  match_operator lexer idx =
  match token_at lexer idx with
  | Some token =>
      if is_operator (Lexer.operation token)
      then Return (true, idx + 1) else Return (false, idx)
  | None => Return (false, idx)
  end.
Proof.
  unfold match_operator, por, pbind.
  rewrite tokenMatchAndAdvance_spec.
  destruct (token_at lexer idx) as [token|] eqn:E;
    [destruct (Lexer.operation token) eqn:Eo|];
    cbn [TokenOperation.eqb ret is_operator];
    repeat (rewrite tokenMatchAndAdvance_spec, E, ?Eo;
            cbn [TokenOperation.eqb ret is_operator]);
    reflexivity.
Qed.

Lemma unexpected_token_spec (lexer : Lexer.t) (idx : Z) :
  0 <= idx -> Lexer.token_container lexer <> [] ->
  exists token,
    token_at lexer (Z.min idx (Z.of_nat (Lexer.getTokenCount lexer) - 1)) = Some token /\
    forall A, @unexpected_token lexer A idx = Throw (UnexpectedTokenException (Lexer.raw token)).
Proof.
  intros Hidx Hne.
  assert (Hn : 0 < Z.of_nat (Lexer.getTokenCount lexer)).
  { unfold Lexer.getTokenCount. destruct (Lexer.token_container lexer); [congruence|simpl; lia]. }
  set (n := Z.of_nat (Lexer.getTokenCount lexer)) in *.
  destruct (token_at lexer (Z.min idx (n - 1))) as [token|] eqn:E.
  2:{ apply token_at_None in E. fold n in E. lia. }
  exists token; split; [reflexivity|]. intros A.
  unfold unexpected_token, pbind, current_token_idx, lift. fold n.
  rewrite getToken_spec.
  replace (if idx >? n - 1 then n - 1 else idx) with (Z.min idx (n - 1)).
  - rewrite E. reflexivity.
  - rewrite Z.gtb_ltb. destruct (n - 1 <? idx) eqn:E'.
    + apply Z.ltb_lt in E'. lia.
    + apply Z.ltb_ge in E'. lia.
Qed.

Section Soundness.
Variable lexer : Lexer.t.
Hypothesis nonempty : Lexer.token_container lexer <> [].
Hypothesis tokens_ok : Forall token_ok (Lexer.token_container lexer).

Let n : Z := Z.of_nat (Lexer.getTokenCount lexer).

Lemma previous_token (idx : Z) (token : Lexer.Token) :
  token_at lexer idx = Some token ->
  Lexer.getToken lexer (idx + 1 - 1) = Return token.
Proof.
  intros E. rewrite getToken_spec. replace (idx + 1 - 1) with idx by lia.
  rewrite E. reflexivity.
Qed.

Lemma token_at_ok (idx : Z) (token : Lexer.Token) :
  token_at lexer idx = Some token -> token_ok token.
Proof.
  intros E. apply token_at_Some in E as [_ E].
  rewrite Forall_forall in tokens_ok. auto.
Qed.

Lemma descent_sound (fuel : nat) :
  forall idx, 0 <= idx <= n ->
  (4 * (n - idx) + 4 <= Z.of_nat fuel ->
     parsed lexer true true 0 True idx (parseExpression lexer fuel idx)) /\
  (4 * (n - idx) + 3 <= Z.of_nat fuel ->
     parsed lexer true true 0 True idx (parseBinary lexer fuel idx)) /\
  (forall left_, 4 * (n - idx) + 2 <= Z.of_nat fuel ->
     parsed lexer false true (nodes left_) (well_formed left_) idx
       (parseBinary_while lexer fuel left_ idx)) /\
  (4 * (n - idx) + 2 <= Z.of_nat fuel ->
     parsed lexer true false 0 True idx (parseUnary lexer fuel idx)) /\
  (4 * (n - idx) + 1 <= Z.of_nat fuel ->
     parsed lexer true false 0 True idx (parsePrimary lexer fuel idx)).
Proof.
  induction fuel as [|fuel IH]; intros idx Hidx.
  { repeat split; intros; lia. }
  repeat split.
  - (* parseExpression *)
    intros Hf. cbn [parseExpression]. apply IH; [assumption|lia].
  - (* parseBinary *)
    intros Hf. cbn [parseBinary]. unfold pbind.
    destruct (IH idx Hidx) as (_ & _ & _ & HU & _). specialize (HU ltac:(lia)).
    destruct (parseUnary lexer fuel idx) as [[e idx']|ex| |]; cbn [parsed] in *; try assumption.
    destruct HU as (H1 & H2 & H3 & H4 & _).
    destruct (IH idx' ltac:(lia)) as (_ & _ & HW & _ & _).
    specialize (HW e ltac:(lia)).
    destruct (parseBinary_while lexer fuel e idx') as [[e' idx'']|ex| |]; cbn [parsed] in *;
      try assumption.
    destruct HW as (? & ? & ? & ? & ?). repeat split; auto; lia.
  - (* parseBinary_while *)
    intros left_ Hf. cbn [parseBinary_while]. unfold pbind at 1.
    rewrite match_operator_spec.
    destruct (token_at lexer idx) as [token|] eqn:E.
    2:{ cbn [ret parsed]. repeat split; auto; try lia.
        intros _. rewrite match_operator_spec, E. reflexivity. }
    destruct (is_operator (Lexer.operation token)) eqn:Eop.
    2:{ cbn [ret parsed]. repeat split; auto; try lia.
        intros _. rewrite match_operator_spec, E, Eop. reflexivity. }
    pose proof (token_at_Some _ _ _ E) as [Hb _]. fold n in Hb.
    unfold pbind, current_token_idx, lift. rewrite (previous_token _ _ E). cbn [bind].
    destruct (IH (idx + 1) ltac:(lia)) as (_ & _ & _ & HU & _). specialize (HU ltac:(lia)).
    destruct (parseUnary lexer fuel (idx + 1)) as [[e idx']|ex| |]; cbn [parsed] in *;
      try assumption.
    destruct HU as (H1 & H2 & H3 & H4 & _).
    destruct (IH idx' ltac:(lia)) as (_ & _ & HW & _ & _).
    specialize (HW (Binary (Lexer.operation token) left_ e)).
    cbn [well_formed nodes] in HW. specialize (HW ltac:(lia)).
    destruct (parseBinary_while lexer fuel _ idx') as [[e' idx'']|ex| |]; cbn [parsed] in *;
      try assumption.
    destruct HW as (? & ? & ? & ? & ?). repeat split; auto; lia.
  - (* parseUnary *)
    intros Hf. cbn [parseUnary]. unfold pbind at 1.
    rewrite tokenMatchAndAdvance_spec.
    destruct (IH idx Hidx) as (_ & _ & _ & _ & HP).
    destruct (token_at lexer idx) as [token|] eqn:E.
    2:{ apply HP; lia. }
    destruct (TokenOperation.eqb _ _).
    2:{ apply HP; lia. }
    pose proof (token_at_Some _ _ _ E) as [Hb _]. fold n in Hb.
    destruct (IH (idx + 1) ltac:(lia)) as (_ & _ & _ & HU & _). specialize (HU ltac:(lia)).
    unfold pbind.
    destruct (parseUnary lexer fuel (idx + 1)) as [[e idx']|ex| |]; cbn [parsed ret nodes] in *;
      try assumption.
    destruct HU as (? & ? & ? & ? & _). repeat split; auto; try lia; try discriminate.
  - (* parsePrimary *)
    intros Hf. cbn [parsePrimary]. unfold pbind at 1.
    rewrite tokenMatchAndAdvance_spec.
    destruct (token_at lexer idx) as [token|] eqn:E.
    2:{ unfold pbind at 1. rewrite tokenMatchAndAdvance_spec, E.
        destruct (unexpected_token_spec lexer idx ltac:(lia) nonempty) as (bad & Hbad & ->).
        cbn [parsed]. right. exists bad. split; [|reflexivity].
        eapply token_at_Some; eauto. }
    pose proof (token_at_Some _ _ _ E) as [Hb _]. fold n in Hb.
    destruct (TokenOperation.eqb _ TokenOperation.Literal) eqn:Elit.
    { unfold pbind, current_token_idx, lift. rewrite (previous_token _ _ E).
      cbn [bind ret parsed well_formed nodes].
      pose proof (token_at_ok _ _ E) as Hok. unfold token_ok in Hok.
      destruct (Lexer.operation token); try discriminate Elit.
      repeat split; try lia; try discriminate. }
    unfold pbind at 1. rewrite tokenMatchAndAdvance_spec, E.
    destruct (TokenOperation.eqb _ TokenOperation.L_Brace).
    2:{ destruct (unexpected_token_spec lexer idx ltac:(lia) nonempty) as (bad & Hbad & ->).
        cbn [parsed]. right. exists bad. split; [|reflexivity].
        eapply token_at_Some; eauto. }
    destruct (IH (idx + 1) ltac:(lia)) as (HE & _). specialize (HE ltac:(lia)).
    unfold pbind at 1.
    destruct (parseExpression lexer fuel (idx + 1)) as [[e idx']|ex| |]; cbn [parsed] in *;
      try assumption.
    destruct HE as (? & ? & ? & ? & _).
    unfold pbind. rewrite tokenMatchAndAdvance_spec.
    destruct (token_at lexer idx') as [token'|] eqn:E'; cbn [negb throw parsed].
    2:{ now left. }
    destruct (TokenOperation.eqb (Lexer.operation token') _); cbn [negb throw ret parsed].
    2:{ now left. }
    pose proof (token_at_Some _ _ _ E') as [Hb' _]. fold n in Hb'.
    repeat split; auto; try lia; try discriminate.
Qed.
End Soundness.

Lemma pbind_mono {A B : Type} (m m' : parser A) (k k' : A -> parser B) (idx : Z) :
  (m idx <> OutOfFuel -> m' idx = m idx) ->
  (forall a idx', m idx = Return (a, idx') ->
     k a idx' <> OutOfFuel -> k' a idx' = k a idx') ->
  pbind m k idx <> OutOfFuel -> pbind m' k' idx = pbind m k idx.
Proof.
  unfold pbind. intros Hm Hk H.
  destruct (m idx) as [[a idx']|e| |] eqn:E.
  - rewrite Hm by discriminate. apply Hk; auto.
  - rewrite Hm by discriminate. reflexivity.
  - rewrite Hm by discriminate. reflexivity.
  - contradiction.
Qed.

(** More fuel does not change the outcome of a run that had enough. *)

Lemma descent_mono (lexer : Lexer.t) (fuel : nat) :
  forall fuel' idx, (fuel <= fuel')%nat ->
  (parseExpression lexer fuel idx <> OutOfFuel ->
     parseExpression lexer fuel' idx = parseExpression lexer fuel idx) /\
  (parseBinary lexer fuel idx <> OutOfFuel ->
     parseBinary lexer fuel' idx = parseBinary lexer fuel idx) /\
  (forall left_, parseBinary_while lexer fuel left_ idx <> OutOfFuel ->
     parseBinary_while lexer fuel' left_ idx = parseBinary_while lexer fuel left_ idx) /\
  (parseUnary lexer fuel idx <> OutOfFuel ->
     parseUnary lexer fuel' idx = parseUnary lexer fuel idx) /\
  (parsePrimary lexer fuel idx <> OutOfFuel ->
     parsePrimary lexer fuel' idx = parsePrimary lexer fuel idx).
Proof.
  induction fuel as [|fuel IH]; intros fuel' idx Hle.
  { repeat split; intros; exfalso; auto. }
  destruct fuel' as [|fuel']; [lia|].
  assert (Hle' : (fuel <= fuel')%nat) by lia.
  repeat split.
  - cbn [parseExpression]. apply IH; assumption.
  - cbn [parseBinary]. apply pbind_mono.
    + apply IH; assumption.
    + intros e idx' _. apply IH; assumption.
  - intros left_. cbn [parseBinary_while]. apply pbind_mono; [reflexivity|].
    intros [|] idx' _; [|reflexivity].
    apply pbind_mono; [reflexivity|]. intros i idx1 _.
    apply pbind_mono; [reflexivity|]. intros token idx2 _.
    apply pbind_mono.
    + apply IH; assumption.
    + intros e idx3 _. apply IH; assumption.
  - cbn [parseUnary]. apply pbind_mono; [reflexivity|].
    intros [|] idx' _.
    + apply pbind_mono; [apply IH; assumption|reflexivity].
    + apply IH; assumption.
  - cbn [parsePrimary]. apply pbind_mono; [reflexivity|].
    intros [|] idx' _; [reflexivity|].
    apply pbind_mono; [reflexivity|].
    intros [|] idx1 _; [|reflexivity].
    apply pbind_mono; [apply IH; assumption|reflexivity].
Qed.

Lemma int_result_spec (z : Z) :
  match int_result z with
  | Return v => v = z /\ INT_MIN <= v <= INT_MAX
  | Throw _ => False
  | Undefined => ~ (INT_MIN <= z <= INT_MAX)
  | OutOfFuel => False
  end.
Proof.
  unfold int_result, in_int_range.
  destruct (INT_MIN <=? z) eqn:E1; destruct (z <=? INT_MAX) eqn:E2; simpl;
    rewrite ?Z.leb_le, ?Z.leb_gt in *; lia.
Qed.

Lemma operands_evaluated (order : operand_order) (l r : result Z) (op : Z -> Z -> Z) :
  evaluated l -> evaluated r -> evaluated (operands order l r op).
Proof.
  intros Hl Hr.
  destruct order, l as [a|e| |], r as [b|e'| |]; simpl in *; auto;
    pose proof (int_result_spec (op a b)) as H;
    destruct (int_result (op a b)); simpl; tauto.
Qed.

Lemma Evaluate_sound (order : operand_order) (e : Expression) :
  well_formed e -> evaluated (Evaluate order e).
Proof.
  induction e as [operation l IHl r IHr|r IHr|v]; cbn [well_formed Evaluate].
  - intros (Hop & Hl & Hr). specialize (IHl Hl). specialize (IHr Hr).
    destruct operation; try discriminate Hop; try (apply operands_evaluated; assumption).
    destruct (Evaluate order r) as [b|e'| |]; simpl in *; auto.
    destruct (b =? 0); simpl; auto.
    destruct (Evaluate order l) as [a|e'| |]; simpl in *; auto.
    pose proof (int_result_spec (Z.quot a b)) as H.
    destruct (int_result (Z.quot a b)); simpl; tauto.
  - intros Hr. specialize (IHr Hr).
    destruct (Evaluate order r) as [b|e'| |]; simpl in *; auto.
    pose proof (int_result_spec (- b)) as H.
    destruct (int_result (- b)); simpl; tauto.
  - unfold evaluated, INT_MIN. lia.
Qed.

Lemma operands_return (order : operand_order) (l r : result Z) (op : Z -> Z -> Z) (v : Z) :
  operands order l r op = Return v <->
  exists a b, l = Return a /\ r = Return b /\ int_result (op a b) = Return v.
Proof.
  split.
  - destruct order, l as [a|e| |], r as [b|e'| |]; cbn [operands bind];
      try discriminate; intros H; exists a, b; auto.
  - intros (a & b & -> & -> & H). destruct order; exact H.
Qed.

Lemma Evaluate_Binary_return (order : operand_order) (operation : TokenOperation.t)
    (left_ right_ : Expression) (v : Z) :
  Evaluate order (Binary operation left_ right_) = Return v ->
  exists a, Evaluate order left_ = Return a.
Proof.
  cbn [Evaluate].
  destruct operation; try discriminate;
    try (rewrite operands_return; intros (a & b & Ha & _); eauto).
  destruct (Evaluate order right_) as [b|e| |]; cbn [bind]; try discriminate.
  destruct (b =? 0); [discriminate|].
  destruct (Evaluate order left_) as [a|e| |]; cbn [bind]; try discriminate. eauto.
Qed.

Lemma Evaluate_Binary_values (order : operand_order) (operation : TokenOperation.t)
    (left_ right_ : Expression) (a b : Z) :
  Evaluate order left_ = Return a ->
  Evaluate order right_ = Return b ->
  Evaluate order (Binary operation left_ right_) = apply_operator operation a b.
Proof.
  intros Ha Hb. cbn [Evaluate]. rewrite Ha, Hb.
  destruct operation, order; reflexivity.
Qed.

(** ** Whole runs of [Parse] *)

Lemma Tokenise_count (this : Lexer.t) (expr : string) (lexer : Lexer.t) :
  Lexer.Tokenise (Lexer.clearTokens this) expr = Return lexer ->
  (Lexer.getTokenCount lexer <= String.length expr)%nat.
Proof.
  intros E. pose proof (Tokenise_spec this expr) as H. rewrite E in H.
  destruct H as (_ & _ & _ & Hraw).
  unfold Lexer.getTokenCount.
  rewrite <- (length_map Lexer.raw), Hraw. apply regex_iterator_length.
Qed.

Lemma parseExpression_sound (this : Lexer.t) (expr : string) (lexer : Lexer.t) (fuel : nat) :
  Lexer.Tokenise (Lexer.clearTokens this) expr = Return lexer ->
  (4 * String.length expr + 4 <= fuel)%nat ->
  parsed lexer true true 0 True 0 (parseExpression lexer fuel 0).
Proof.
  intros E Hf. pose proof (Tokenise_count _ _ _ E) as Hc.
  pose proof (Tokenise_spec this expr) as H. rewrite E in H.
  destruct H as (_ & Hne & Hok & _).
  apply (descent_sound lexer Hne Hok fuel 0); lia.
Qed.

Lemma ParseFuel_outcome (fuel : nat) (order : operand_order) (this : t) (expr : string) :
  (4 * String.length expr + 4 <= fuel)%nat ->
  outcome expr (ParseFuel fuel order this expr).
Proof.
  intros Hf. unfold ParseFuel.
  pose proof (Tokenise_spec (lexer this) expr) as HT.
  pose proof (parseExpression_sound (lexer this) expr) as HP.
  destruct (Lexer.Tokenise _ expr) as [lx|ex| |]; cbn [bind]; try contradiction.
  2:{ destruct HT as [[H ->]|[(H1 & H2 & ->)|(H1 & H2 & ->)]]; cbn [outcome]; auto. }
  destruct HT as (Hinv & _ & _ & Hraw).
  specialize (HP lx fuel eq_refl Hf).
  destruct (parseExpression lx fuel 0) as [[e idx]|ex| |]; cbn [bind parsed] in *;
    try contradiction.
  - destruct HP as (_ & _ & Hwf & _).
    destruct (int_lt_size idx _); [exact Hinv|].
    pose proof (Evaluate_sound order e (Hwf I)) as HE.
    destruct (Evaluate order e) as [v|ex| |]; cbn [outcome evaluated] in *; auto.
    subst ex. exact Hinv.
  - destruct HP as [->|(token & Hin & ->)]; cbn [outcome]; auto.
    rewrite <- Hraw. apply in_map; assumption.
Qed.

Lemma Parse_outcome (order : operand_order) (this : t) (expr : string) :
  outcome expr (Parse order this expr).
Proof. apply ParseFuel_outcome; lia. Qed.

(** Any budget at least that of [Parse] gives the result of [Parse]. *)
Lemma ParseFuel_enough (fuel : nat) (order : operand_order) (this : t) (expr : string) :
  (4 * String.length expr + 4 <= fuel)%nat ->
  ParseFuel fuel order this expr = Parse order this expr.
Proof.
  intros Hf. unfold Parse, ParseFuel.
  destruct (Lexer.Tokenise _ expr) as [lx|ex| |] eqn:E; cbn [bind]; try reflexivity.
  pose proof (parseExpression_sound _ _ _ _ E (Nat.le_refl _)) as HP.
  destruct (descent_mono lx (4 * String.length expr + 4) fuel 0 Hf) as (HE & _).
  rewrite HE; [reflexivity|].
  intros Hoof; rewrite Hoof in HP; exact HP.
Qed.

Lemma Parse_return_inv (order : operand_order) (this : t) (expr : string) (v : Z) :
  Parse order this expr = Return v ->
  exists lexer e,
    Lexer.Tokenise (Lexer.clearTokens (RDParser.lexer this)) expr = Return lexer /\
    parseExpression lexer (4 * String.length expr + 4) 0 =
      Return (e, Z.of_nat (Lexer.getTokenCount lexer)) /\
    Evaluate order e = Return v.
Proof.
  intros HP. unfold Parse, ParseFuel in HP.
  destruct (Lexer.Tokenise _ expr) as [lx|ex| |] eqn:HT; cbn [bind] in HP; try discriminate HP.
  pose proof (parseExpression_sound _ _ _ _ HT (Nat.le_refl _)) as Hs.
  destruct (parseExpression lx _ 0) as [[e idx]|ex| |] eqn:EP; cbn [bind] in HP;
    try discriminate HP.
  cbn [parsed] in Hs. destruct Hs as (H0 & Hn & _).
  destruct (int_lt_size idx _) eqn:El; [discriminate HP|].
  assert (Hidx : idx = Z.of_nat (Lexer.getTokenCount lx)).
  { destruct (Z.eq_dec idx (Z.of_nat (Lexer.getTokenCount lx))) as [|Hne]; [assumption|].
    assert (Ht : int_lt_size idx (Lexer.getTokenCount lx) = true)
      by (apply int_lt_size_spec; lia).
    congruence. }
  subst idx. exists lx, e. repeat split; [exact EP|exact HP].
Qed.

(** ** Chains of literals *)

Lemma token_at_middle (lexer : Lexer.t) (pre post : list Lexer.Token) (token : Lexer.Token) :
  Lexer.token_container lexer = pre ++ token :: post ->
  token_at lexer (Z.of_nat (List.length pre)) = Some token.
Proof.
  intros E. unfold token_at, Lexer.getTokenCount. rewrite E.
  replace (int_lt_size _ _) with true.
  - rewrite Nat2Z.id, nth_error_app2, Nat.sub_diag by lia. reflexivity.
  - symmetry. apply int_lt_size_spec. rewrite length_app. simpl. lia.
Qed.

Lemma token_at_end (lexer : Lexer.t) :
  token_at lexer (Z.of_nat (Lexer.getTokenCount lexer)) = None.
Proof.
  unfold token_at. destruct (int_lt_size _ _) eqn:E; [|reflexivity].
  apply int_lt_size_spec in E. lia.
Qed.

Lemma parseUnary_literal (lexer : Lexer.t) (fuel : nat) (idx : Z) (token : Lexer.Token) :
  token_at lexer idx = Some token ->
  Lexer.operation token = TokenOperation.Literal ->
  parseUnary lexer (S (S fuel)) idx = Return (Literal (Lexer.value token), idx + 1).
Proof.
  intros E Hlit. cbn [parseUnary parsePrimary]. unfold pbind at 1.
  rewrite tokenMatchAndAdvance_spec, E, Hlit. cbn [TokenOperation.eqb].
  unfold pbind at 1. rewrite tokenMatchAndAdvance_spec, E, Hlit. cbn [TokenOperation.eqb].
  unfold pbind, RDParser.current_token_idx, lift.
  rewrite getToken_spec. replace (idx + 1 - 1) with idx by lia. rewrite E. reflexivity.
Qed.

Lemma parseBinary_while_S (lexer : Lexer.t) (fuel : nat) (left_ : Expression) :
  parseBinary_while lexer (S fuel) left_ =
  pbind (match_operator lexer) (fun matched =>
    if matched then
      pbind RDParser.current_token_idx (fun idx =>
      pbind (lift (Lexer.getToken lexer (idx - 1))) (fun previous_token =>
      pbind (parseUnary lexer fuel) (fun right_ =>
      parseBinary_while lexer fuel
        (Binary (Lexer.operation previous_token) left_ right_))))
    else ret left_).
Proof. reflexivity. Qed.

Lemma parseBinary_while_steps (lexer : Lexer.t) (rest : list (Lexer.Token * Lexer.Token)) :
  forall (pre post : list Lexer.Token) (left_ : Expression) (fuel : nat),
  Lexer.token_container lexer = pre ++ flat_map (fun p => [fst p; snd p]) rest ++ post ->
  Forall chain_ok rest ->
  (2 <= fuel)%nat ->
  parseBinary_while lexer (List.length rest + fuel) left_ (Z.of_nat (List.length pre)) =
  parseBinary_while lexer fuel (chain_tree left_ rest)
    (Z.of_nat (List.length pre + 2 * List.length rest)).
Proof.
  induction rest as [|[op lit] rest IH]; intros pre post left_ fuel Htok Hok Hfuel.
  - cbn [List.length Nat.add Nat.mul chain_tree fold_left]. rewrite Nat.add_0_r. reflexivity.
  - inversion Hok as [|? ? [Hop Hlit] Hok']; subst. cbn [fst snd] in *.
    cbn [flat_map fst snd app] in Htok.
    pose proof (token_at_middle lexer pre _ op Htok) as Eop.
    assert (Htok' : Lexer.token_container lexer =
              (pre ++ [op]) ++ lit :: flat_map (fun p => [fst p; snd p]) rest ++ post).
    { rewrite Htok, <- app_assoc. reflexivity. }
    pose proof (token_at_middle lexer _ _ lit Htok') as Elit.
    rewrite length_app in Elit. cbn [List.length] in Elit.
    replace (Z.of_nat (List.length pre + 1)) with (Z.of_nat (List.length pre) + 1) in Elit by lia.
    cbn [List.length Nat.add]. rewrite parseBinary_while_S. unfold pbind at 1.
    rewrite match_operator_spec, Eop, Hop.
    unfold pbind at 1. unfold RDParser.current_token_idx at 1.
    unfold pbind at 1. unfold lift at 1.
    rewrite getToken_spec.
    replace (Z.of_nat (List.length pre) + 1 - 1) with (Z.of_nat (List.length pre)) by lia.
    rewrite Eop. cbn [bind]. unfold pbind at 1.
    destruct (List.length rest + fuel)%nat as [|[|f]] eqn:Ef; try lia.
    rewrite (parseUnary_literal lexer f _ lit Elit Hlit). rewrite <- Ef.
    specialize (IH (pre ++ [op; lit]) post
                  (Binary (Lexer.operation op) left_ (Literal (Lexer.value lit))) fuel).
    rewrite length_app in IH. cbn [List.length] in IH.
    replace (Z.of_nat (List.length pre + 2)) with (Z.of_nat (List.length pre) + 1 + 1) in IH by lia.
    rewrite IH; [|rewrite Htok, <- app_assoc; reflexivity|assumption|assumption].
    cbn [chain_tree fold_left fst snd]. f_equal. lia.
Qed.

Lemma parseBinary_while_end (lexer : Lexer.t) (fuel : nat) (left_ : Expression) :
  parseBinary_while lexer (S fuel) left_ (Z.of_nat (Lexer.getTokenCount lexer)) =
  Return (left_, Z.of_nat (Lexer.getTokenCount lexer)).
Proof.
  rewrite parseBinary_while_S. unfold pbind.
  rewrite match_operator_spec, token_at_end. reflexivity.
Qed.

Lemma parseExpression_chain (lexer : Lexer.t) (first : Lexer.Token)
    (rest : list (Lexer.Token * Lexer.Token)) (fuel : nat) :
  Lexer.token_container lexer = chain_tokens first rest ->
  Lexer.operation first = TokenOperation.Literal ->
  Forall chain_ok rest ->
  (List.length rest + 4 <= fuel)%nat ->
  parseExpression lexer fuel 0 =
  Return (chain_tree (Literal (Lexer.value first)) rest, Z.of_nat (Lexer.getTokenCount lexer)).
Proof.
  intros Htok Hlit Hok Hfuel.
  destruct fuel as [|[|fuel]]; try lia.
  unfold chain_tokens in Htok.
  pose proof (token_at_middle lexer [] _ first Htok) as Efirst. cbn [List.length] in Efirst.
  change (Z.of_nat 0) with 0 in Efirst.
  change (parseExpression lexer (S (S fuel)) 0)
    with (pbind (parseUnary lexer fuel) (parseBinary_while lexer fuel) 0).
  unfold pbind.
  destruct fuel as [|[|fuel]]; try lia.
  rewrite (parseUnary_literal lexer fuel 0 first Efirst Hlit).
  replace (S (S fuel)) with (List.length rest + (S (S fuel) - List.length rest))%nat by lia.
  rewrite (parseBinary_while_steps lexer rest [first] []); [| |assumption|lia].
  2:{ rewrite app_nil_r. exact Htok. }
  assert (Hn : Z.of_nat (List.length [first] + 2 * List.length rest) =
               Z.of_nat (Lexer.getTokenCount lexer)).
  { unfold Lexer.getTokenCount. rewrite Htok. cbn [List.length].
    rewrite (flat_map_constant_length (c := 2%nat)) by reflexivity. lia. }
  rewrite Hn.
  destruct (S (S fuel) - List.length rest)%nat as [|f] eqn:Ef; [lia|].
  apply parseBinary_while_end.
Qed.


(** ** Exceptions of the tokeniser *)

Lemma stoi_throws (s : string) (e : exn) :
  stoi s = Throw e -> e = std_out_of_range \/ e = std_invalid_argument.
Proof.
  unfold stoi.
  destruct (match skip_space s with
            | String "-" t => (true, t)
            | String "+" t => (false, t)
            | _ => (false, skip_space s)
            end) as [negative digits].
  destruct digits as [|c d]; [intros [= <-]; auto|].
  destruct (is_digit c); [|intros [= <-]; auto].
  destruct (in_int_range _); [discriminate|intros [= <-]; auto].
Qed.

Lemma make_token_throws (raw_token : string) (e : exn) :
  Lexer.make_token raw_token = Throw e ->
  e = std_out_of_range \/ e = std_invalid_argument.
Proof.
  assert (Hs : forall s, (v <- stoi s ;;
                 Return {| Lexer.operation := TokenOperation.Literal; Lexer.value := v;
                           Lexer.raw := s |}) = Throw e ->
               e = std_out_of_range \/ e = std_invalid_argument).
  { intros s. destruct (stoi s) eqn:E; cbn [bind]; try discriminate.
    intros [= <-]. eapply stoi_throws; eauto. }
  destruct raw_token as [|c s]; [apply Hs|].
  destruct c as [[] [] [] [] [] [] [] []]; try apply Hs; discriminate.
Qed.

Lemma push_tokens_throws (valid_tokens : list string) :
  forall container e,
  Lexer.push_tokens container valid_tokens = Throw e ->
  e = std_out_of_range \/ e = std_invalid_argument.
Proof.
  induction valid_tokens as [|r rs IH]; intros container e; cbn [Lexer.push_tokens].
  - discriminate.
  - destruct (Lexer.make_token r) as [token|e'| |] eqn:E; cbn [bind]; try discriminate.
    + apply IH.
    + intros [= <-]. eapply make_token_throws; eauto.
Qed.

Lemma Tokenise_invalid (this : Lexer.t) (expr : string) :
  invalid_characters expr <> [] ->
  Lexer.Tokenise this expr =
  Throw (InvalidTokenException (map (fun c => String c "") (invalid_characters expr))).
Proof.
  intros H. unfold Lexer.Tokenise, Lexer.regexFindSubstrings, Lexer.REGEX_INVALID_TOKEN_PATTERN.
  cbn [Lexer.expression]. rewrite regex_iterator_OneOf. fold (invalid_characters expr).
  destruct (invalid_characters expr); [contradiction|reflexivity].
Qed.

Lemma Tokenise_valid (this : Lexer.t) (expr : string) (tokens : list string) :
  invalid_characters expr = [] ->
  Lexer.Tokenise this expr <> Throw (InvalidTokenException tokens).
Proof.
  intros H. unfold Lexer.Tokenise, Lexer.regexFindSubstrings, Lexer.REGEX_INVALID_TOKEN_PATTERN.
  cbn [Lexer.expression Lexer.token_container]. rewrite regex_iterator_OneOf.
  fold (invalid_characters expr). rewrite H. cbn [map List.length Nat.eqb negb].
  destruct (Nat.eqb _ 0); [discriminate|].
  destruct (Lexer.push_tokens _ _) as [c|e| |] eqn:E; cbn [bind]; try discriminate.
  intros [= ->]. apply push_tokens_throws in E. destruct E; discriminate.
Qed.

Lemma invalid_characters_nil (expr : string) :
  invalid_characters expr = [] <-> string_forallb Lexer.in_class expr = true.
Proof.
  unfold invalid_characters.
  induction expr as [|c s IH]; cbn [list_ascii_of_string filter string_forallb].
  - tauto.
  - destruct (Lexer.in_class c); cbn [negb andb].
    + exact IH.
    + split; discriminate.
Qed.

(** ** Blanks between tokens *)

Lemma in_class_cases (c : ascii) :
  Lexer.in_class c = true ->
  is_digit c = true \/
  (is_digit c = false /\ Lexer.is_symbol c = true /\ Ascii.eqb c " " = false) \/
  (is_digit c = false /\ Lexer.is_symbol c = false /\ Ascii.eqb c " " = true).
Proof.
  destruct c as [[] [] [] [] [] [] [] []]; intros H; try discriminate H;
    vm_compute; auto.
Qed.

Lemma is_digit_not_space (c : ascii) : is_digit c = true -> Ascii.eqb c " " = false.
Proof.
  destruct c as [[] [] [] [] [] [] [] []]; intros H; try discriminate H; reflexivity.
Qed.

Lemma strip_spaces_run (s : string) :
  strip_spaces s =
  (substring 0 (run_length is_digit s) s ++
   strip_spaces (string_drop (run_length is_digit s) s))%string.
Proof.
  induction s as [|c s IH]; [reflexivity|].
  cbn [run_length]. destruct (is_digit c) eqn:E.
  - cbn [substring string_drop strip_spaces String.append].
    rewrite (is_digit_not_space c E), IH at 1. reflexivity.
  - cbn [substring string_drop String.append]. reflexivity.
Qed.

Lemma string_drop_length (k : nat) (s : string) :
  (String.length (string_drop k s) <= String.length s)%nat.
Proof.
  revert s; induction k as [|k IH]; intros [|c s]; simpl; try lia.
  specialize (IH s); lia.
Qed.

Lemma string_drop_forallb (cls : ascii -> bool) (k : nat) (s : string) :
  string_forallb cls s = true -> string_forallb cls (string_drop k s) = true.
Proof.
  revert s; induction k as [|k IH]; intros [|c s]; simpl; auto.
  intros H; apply andb_true_iff in H as [_ H]; auto.
Qed.

Lemma token_pattern_join (n : nat) :
  forall s, (String.length s <= n)%nat ->
  string_forallb Lexer.in_class s = true ->
  join (regex_iterator Lexer.REGEX_TOKEN_PATTERN 0 s) = strip_spaces s.
Proof.
  induction n as [|n IH]; intros [|c s] Hlen Hcls; try reflexivity.
  { simpl in Hlen; lia. }
  cbn [String.length] in Hlen. cbn [string_forallb] in Hcls.
  apply andb_true_iff in Hcls as [Hc Hs].
  cbn [regex_iterator]. unfold Lexer.REGEX_TOKEN_PATTERN at 1.
  cbn [match_here match_atom run_length].
  destruct (in_class_cases c Hc) as [Hd|[(Hd & Hsym & Hsp)|(Hd & Hsym & Hsp)]]; rewrite Hd.
  - cbn [substring]. rewrite Nat.sub_succ, Nat.sub_0_r, regex_iterator_skip.
    cbn [join fold_right]. fold (join (regex_iterator Lexer.REGEX_TOKEN_PATTERN 0
                                        (string_drop (run_length is_digit s) s))).
    rewrite IH.
    + cbn [strip_spaces]. rewrite (is_digit_not_space c Hd).
      rewrite (strip_spaces_run s). reflexivity.
    + pose proof (string_drop_length (run_length is_digit s) s). lia.
    + apply string_drop_forallb; assumption.
  - rewrite Hsym. cbn [substring Nat.sub]. rewrite substring_0_0.
    cbn [join fold_right]. fold (join (regex_iterator Lexer.REGEX_TOKEN_PATTERN 0 s)).
    rewrite IH by (assumption || lia).
    cbn [strip_spaces String.append]. rewrite Hsp. reflexivity.
  - rewrite Hsym. rewrite IH by (assumption || lia).
    cbn [strip_spaces]. rewrite Hsp. reflexivity.
Qed.

(** ** Any budget *)

Section AnyFuel.
Variable lexer : Lexer.t.
Hypothesis nonempty : Lexer.token_container lexer <> [].
Hypothesis tokens_ok : Forall token_ok (Lexer.token_container lexer).

Let n : Z := Z.of_nat (Lexer.getTokenCount lexer).

End AnyFuel.

Lemma ParseFuel_cases (fuel : nat) (order : operand_order) (this : t) (expr : string) :
  ParseFuel fuel order this expr = OutOfFuel \/
  ParseFuel fuel order this expr = Parse order this expr.
Proof.
  destruct (Nat.le_gt_cases (4 * String.length expr + 4) fuel) as [Hle|Hgt].
  { right. apply ParseFuel_enough; assumption. }
  unfold Parse, ParseFuel.
  destruct (Lexer.Tokenise _ expr) as [lx|ex| |] eqn:E; cbn [bind]; auto.
  destruct (descent_mono lx fuel (4 * String.length expr + 4) 0 ltac:(lia)) as (HE & _).
  destruct (parseExpression lx fuel 0) as [[e idx]|ex| |] eqn:EP; auto;
    right; rewrite HE by discriminate; reflexivity.
Qed.

(** * The claims *)

(** ** C1 *)

Lemma parseBinary_while_operand_run (lexer : Lexer.t) (fuel : nat) :
  forall left_ idx tree idx',
  parseBinary_while lexer fuel left_ idx = Return (tree, idx') ->
  exists rest, operand_run lexer idx rest idx' /\ tree = fold_operands left_ rest.
Proof.
  induction fuel as [|fuel IH]; intros left_ idx tree idx' H; [discriminate H|].
  rewrite parseBinary_while_S in H. unfold pbind at 1 in H.
  rewrite match_operator_spec in H.
  destruct (token_at lexer idx) as [token|] eqn:E.
  2:{ injection H as <- <-. exists []. split; [|reflexivity].
      constructor. intros token Ht. rewrite E in Ht. discriminate Ht. }
  destruct (is_operator (Lexer.operation token)) eqn:Eop.
  2:{ injection H as <- <-. exists []. split; [|reflexivity].
      constructor. intros token' Ht. rewrite E in Ht. injection Ht as <-. exact Eop. }
  unfold pbind at 1, current_token_idx in H. unfold pbind at 1, lift in H.
  rewrite getToken_spec in H. replace (idx + 1 - 1) with idx in H by lia.
  rewrite E in H. cbn [bind] in H. unfold pbind at 1 in H.
  destruct (parseUnary lexer fuel (idx + 1)) as [[right_ idx1]|ex| |] eqn:EU;
    try discriminate H.
  destruct (IH _ _ _ _ H) as (rest & Hrun & ->).
  exists ((Lexer.operation token, right_) :: rest). split; [|reflexivity].
  exact (operand_run_step lexer idx token fuel right_ idx1 rest idx' E Eop EU Hrun).
Qed.

Lemma parseBinary_operand_run (lexer : Lexer.t) (fuel : nat) (idx : Z)
    (tree : Expression) (idx' : Z) :
  parseBinary lexer fuel idx = Return (tree, idx') ->
  exists first idx1 rest,
    parseUnary lexer fuel idx = Return (first, idx1) /\
    operand_run lexer idx1 rest idx' /\
    tree = fold_operands first rest.
Proof.
  destruct fuel as [|fuel]; intros H; [discriminate H|].
  cbn [parseBinary] in H. unfold pbind at 1 in H.
  destruct (parseUnary lexer fuel idx) as [[first idx1]|ex| |] eqn:EU; try discriminate H.
  destruct (parseBinary_while_operand_run lexer fuel _ _ _ _ H) as (rest & Hrun & ->).
  exists first, idx1, rest. split; [|split; [exact Hrun|reflexivity]].
  destruct (descent_mono lexer fuel (S fuel) idx ltac:(lia)) as (_ & _ & _ & HU & _).
  rewrite HU by (rewrite EU; discriminate). exact EU.
Qed.

Lemma operand_run_parseBinary_while (lexer : Lexer.t) (idx : Z)
    (rest : list (TokenOperation.t * Expression)) (idx' : Z) :
  operand_run lexer idx rest idx' ->
  forall left_, exists fuel0, forall fuel, (fuel0 <= fuel)%nat ->
    parseBinary_while lexer fuel left_ idx = Return (fold_operands left_ rest, idx').
Proof.
  induction 1 as [idx Hend|idx token fuel1 right_ idx1 rest idx' E Eop EU Hrun IH];
    intros left_.
  - exists 1%nat. intros [|fuel] Hf; [lia|].
    rewrite parseBinary_while_S. unfold pbind at 1. rewrite match_operator_spec.
    destruct (token_at lexer idx) as [token|] eqn:E; [|reflexivity].
    rewrite (Hend token eq_refl). reflexivity.
  - destruct (IH (Binary (Lexer.operation token) left_ right_)) as (fuel0 & Hfuel0).
    exists (S (Nat.max fuel1 fuel0)). intros [|fuel] Hf; [lia|].
    rewrite parseBinary_while_S. unfold pbind at 1. rewrite match_operator_spec, E, Eop.
    unfold pbind at 1, current_token_idx. unfold pbind at 1, lift.
    rewrite getToken_spec. replace (idx + 1 - 1) with idx by lia. rewrite E. cbn [bind].
    unfold pbind at 1.
    destruct (descent_mono lexer fuel1 fuel (idx + 1) ltac:(lia)) as (_ & _ & _ & HU & _).
    rewrite HU by (rewrite EU; discriminate). rewrite EU.
    apply Hfuel0. lia.
Qed.

Lemma operand_run_parseBinary (lexer : Lexer.t) (fuel1 : nat) (idx : Z)
    (first : Expression) (idx1 : Z) (rest : list (TokenOperation.t * Expression))
    (idx' : Z) :
  parseUnary lexer fuel1 idx = Return (first, idx1) ->
  operand_run lexer idx1 rest idx' ->
  exists fuel0, forall fuel, (fuel0 <= fuel)%nat ->
    parseBinary lexer fuel idx = Return (fold_operands first rest, idx').
Proof.
  intros EU Hrun.
  destruct (operand_run_parseBinary_while lexer idx1 rest idx' Hrun first) as (fuel0 & H0).
  exists (S (Nat.max fuel1 fuel0)). intros [|fuel] Hf; [lia|].
  cbn [parseBinary]. unfold pbind at 1.
  destruct (descent_mono lexer fuel1 fuel idx ltac:(lia)) as (_ & _ & _ & HU & _).
  rewrite HU by (rewrite EU; discriminate). rewrite EU. apply H0. lia.
Qed.

Lemma fold_values_return (order : operand_order)
    (rest : list (TokenOperation.t * Expression)) :
  forall acc v, fold_values order acc rest = Return v -> exists a, acc = Return a.
Proof.
  induction rest as [|p rest IH]; intros acc v H.
  - exists v. exact H.
  - cbn [fold_values fold_left] in H. apply IH in H as [a Ha].
    destruct acc as [a0|ex| |]; try discriminate Ha. exists a0. reflexivity.
Qed.

Lemma fold_operands_return (order : operand_order)
    (rest : list (TokenOperation.t * Expression)) :
  forall left_ v,
  Evaluate order (fold_operands left_ rest) = Return v ->
  exists a, Evaluate order left_ = Return a.
Proof.
  induction rest as [|p rest IH]; intros left_ v H.
  - exists v. exact H.
  - cbn [fold_operands fold_left] in H. apply IH in H as [a Ha].
    exact (Evaluate_Binary_return _ _ _ _ _ Ha).
Qed.

Lemma Evaluate_Binary_right_return (order : operand_order) (operation : TokenOperation.t)
    (left_ right_ : Expression) (v : Z) :
  Evaluate order (Binary operation left_ right_) = Return v ->
  exists b, Evaluate order right_ = Return b.
Proof.
  cbn [Evaluate]. unfold operands.
  destruct (Evaluate order right_) as [b|ex| |]; [exists b; reflexivity| | |];
    destruct (Evaluate order left_); destruct operation, order; cbn [bind];
    discriminate.
Qed.

Lemma fold_operands_value (order : operand_order)
    (rest : list (TokenOperation.t * Expression)) :
  forall left_ v,
  Evaluate order (fold_operands left_ rest) = Return v <->
  fold_values order (Evaluate order left_) rest = Return v.
Proof.
  induction rest as [|[operation right_] rest IH]; intros left_ v; [reflexivity|].
  cbn [fold_operands fold_values fold_left fst snd].
  change (fold_left _ rest (Binary operation left_ right_))
    with (fold_operands (Binary operation left_ right_) rest).
  change (fold_left _ rest ?x) with (fold_values order x rest).
  rewrite IH.
  assert (Hnode : forall w, Evaluate order (Binary operation left_ right_) = Return w <->
                  (a <- Evaluate order left_ ;; b <- Evaluate order right_ ;;
                   apply_operator operation a b) = Return w).
  { intros w. split; intros H.
    - destruct (Evaluate_Binary_return _ _ _ _ _ H) as [a Ha].
      destruct (Evaluate_Binary_right_return _ _ _ _ _ H) as [b Hb].
      rewrite Ha, Hb. cbn [bind]. rewrite <- (Evaluate_Binary_values order _ _ _ _ _ Ha Hb).
      exact H.
    - destruct (Evaluate order left_) as [a|ex| |] eqn:Ha; try discriminate H.
      destruct (Evaluate order right_) as [b|ex| |] eqn:Hb; try discriminate H.
      cbn [bind] in H. rewrite (Evaluate_Binary_values order _ _ _ _ _ Ha Hb). exact H. }
  split; intros H.
  - destruct (fold_values_return _ _ _ _ H) as [w Hw].
    rewrite (proj1 (Hnode w) Hw). rewrite <- Hw. exact H.
  - destruct (fold_values_return _ _ _ _ H) as [w Hw].
    rewrite (proj2 (Hnode w) Hw). rewrite <- Hw. exact H.
Qed.

(** C1: the four binary operators have one precedence and associate to the
    left.  Every run of [parseBinary] that returns, at the top level or
    inside a group, has parsed a first operand with [parseUnary] and then
    operators each followed by an operand parsed by [parseUnary] (a literal,
    a negation or a group), up to a token that is not an operator, and its
    tree is these operands folded from the left, whatever the operators are;
    conversely such a sequence of operands is parsed to that tree.  The tree
    evaluates to [v] exactly when applying the operators one after the other
    from the left to the values of the operands gives [v], and this is the
    value [Parse] returns.  For a chain of literals every token is consumed;
    [Parse("1 + 3 * 4")] is 16, [Parse("1 - 5 * 2")] is -8,
    [Parse("8 / -2 / 2")] is -2 and [Parse("1 - (2 + 0) - 3")] is -4. *)
Theorem parseBinary_left_associative :
  (forall (lexer : Lexer.t) (first : Lexer.Token)
          (rest : list (Lexer.Token * Lexer.Token)) (fuel : nat),
      Lexer.token_container lexer = chain_tokens first rest ->
      Lexer.operation first = TokenOperation.Literal ->
      Forall chain_ok rest ->
      (List.length rest + 4 <= fuel)%nat ->
      parseExpression lexer fuel 0 =
      Return (chain_tree (Literal (Lexer.value first)) rest,
              Z.of_nat (Lexer.getTokenCount lexer))) /\
  (forall lexer fuel idx tree idx',
      parseBinary lexer fuel idx = Return (tree, idx') ->
      exists first idx1 rest,
        parseUnary lexer fuel idx = Return (first, idx1) /\
        operand_run lexer idx1 rest idx' /\
        tree = fold_operands first rest) /\
  (forall lexer fuel1 idx first idx1 rest idx',
      parseUnary lexer fuel1 idx = Return (first, idx1) ->
      operand_run lexer idx1 rest idx' ->
      exists fuel0, forall fuel, (fuel0 <= fuel)%nat ->
        parseBinary lexer fuel idx = Return (fold_operands first rest, idx')) /\
  (forall order first rest v,
      Evaluate order (fold_operands first rest) = Return v <->
      fold_values order (Evaluate order first) rest = Return v) /\
  (forall order this expr v,
      Parse order this expr = Return v ->
      exists lexer first idx1 rest,
        Lexer.Tokenise (Lexer.clearTokens (RDParser.lexer this)) expr = Return lexer /\
        parseUnary lexer (4 * String.length expr + 4) 0 = Return (first, idx1) /\
        operand_run lexer idx1 rest (Z.of_nat (Lexer.getTokenCount lexer)) /\
        fold_values order (Evaluate order first) rest = Return v) /\
  (forall order this, Parse order this "1 + 3 * 4" = Return 16) /\
  (forall order this, Parse order this "1 - 5 * 2" = Return (-8)) /\
  (forall order this, Parse order this "8 / -2 / 2" = Return (-2)) /\
  (forall order this, Parse order this "1 - (2 + 0) - 3" = Return (-4)).
Proof.
  split; [|split; [|split; [|split; [|split; [|split; [|split; [|split]]]]]]].
  - intros lexer first rest fuel. apply parseExpression_chain.
  - intros lexer fuel idx tree idx'. apply parseBinary_operand_run.
  - intros lexer fuel1 idx first idx1 rest idx'. apply operand_run_parseBinary.
  - intros order first rest v. apply fold_operands_value.
  - intros order this expr v HP.
    destruct (Parse_return_inv order this expr v HP) as (lexer & tree & HT & HE & HV).
    replace (4 * String.length expr + 4)%nat
      with (S (4 * String.length expr + 3)) in HE by lia.
    cbn [parseExpression] in HE.
    destruct (parseBinary_operand_run lexer _ _ _ _ HE) as (first & idx1 & rest & HU & Hrun & ->).
    exists lexer, first, idx1, rest. split; [exact HT|]. split; [|split; [exact Hrun|]].
    + destruct (descent_mono lexer (4 * String.length expr + 3)
                  (4 * String.length expr + 4) 0 ltac:(lia)) as (_ & _ & _ & HM & _).
      rewrite HM by (rewrite HU; discriminate). exact HU.
    + apply fold_operands_value. exact HV.
  - intros [] this; reflexivity.
  - intros [] this; reflexivity.
  - intros [] this; reflexivity.
  - intros [] this; reflexivity.
Qed.

Lemma parseBinary_left_associative_witness :
  let token op v raw := {| Lexer.operation := op; Lexer.value := v; Lexer.raw := raw |} in
  let eight := token TokenOperation.Literal 8 "8" in
  let over := token TokenOperation.Division (-1) "/" in
  let minus := token TokenOperation.Subtraction (-1) "-" in
  let two := token TokenOperation.Literal 2 "2" in
  let lexer := {| Lexer.token_container := [eight; over; minus; two; over; two];
                  Lexer.expression := "8 / -2 / 2" |} in
  let tree := Binary TokenOperation.Division
                (Binary TokenOperation.Division (Literal 8) (Unary (Literal 2)))
                (Literal 2) in
  parseBinary lexer 6 0 = Return (tree, 6) /\
  exists first idx1 rest,
    parseUnary lexer 6 0 = Return (first, idx1) /\
    operand_run lexer idx1 rest 6 /\
    tree = fold_operands first rest.
Proof.
  cbv zeta.
  refine ((fun H => conj H
            (proj1 (proj2 parseBinary_left_associative) _ 6%nat 0 _ 6 H)) _).
  reflexivity.
Defined.

(** ** C2 *)

(** C2 as stated fails on division: the left operand of
    [(2147483647 + 1) / 0] overflows when it is evaluated, and the node
    throws DivideByZero without evaluating it. *)
Lemma Evaluate_division_order_counterexample :
  let left_ := Binary TokenOperation.Addition (Literal 2147483647) (Literal 1) in
  let right_ := Literal 0 in
  Evaluate LeftFirst left_ = Undefined /\
  Evaluate LeftFirst (Binary TokenOperation.Division left_ right_) =
    Throw DivideByZeroException /\
  ~ left_operand_first LeftFirst TokenOperation.Division /\
  ~ left_operand_first RightFirst TokenOperation.Division.
Proof.
  cbv zeta. repeat split; try reflexivity.
  - intros H.
    specialize (H (Binary TokenOperation.Addition (Literal 2147483647) (Literal 1)) (Literal 0)).
    discriminate H. intros v; discriminate.
  - intros H.
    specialize (H (Binary TokenOperation.Addition (Literal 2147483647) (Literal 1)) (Literal 0)).
    discriminate H. intros v; discriminate.
Qed.

(** C2 (amended): a division node evaluates its right operand first: when
    the right operand does not return, or returns zero, the left operand is
    never evaluated, and the left operand runs only after a non-zero right
    value.  For addition, subtraction and multiplication the operand that
    runs first is the one the compiler picks. *)
Theorem Evaluate_operand_order :
  (forall order, right_operand_first order TokenOperation.Division) /\
  (forall order left_ right_,
      Evaluate order right_ = Return 0 ->
      Evaluate order (Binary TokenOperation.Division left_ right_) =
      Throw DivideByZeroException) /\
  (forall order left_ right_ b,
      Evaluate order right_ = Return b -> b <> 0 ->
      fails (Evaluate order left_) ->
      Evaluate order (Binary TokenOperation.Division left_ right_) = Evaluate order left_) /\
  (forall operation,
      operation = TokenOperation.Addition \/ operation = TokenOperation.Subtraction \/
      operation = TokenOperation.Multiplication ->
      left_operand_first LeftFirst operation /\ right_operand_first RightFirst operation).
Proof.
  repeat split.
  - intros order l r Hr. cbn [Evaluate].
    destruct (Evaluate order r) as [v|e| |]; try reflexivity.
    exfalso; apply (Hr v); reflexivity.
  - intros order l r Hr. cbn [Evaluate]. rewrite Hr. reflexivity.
  - intros order l r b Hr Hb Hl. cbn [Evaluate]. rewrite Hr. cbn [bind].
    destruct (Z.eqb_spec b 0) as [->|_]; [contradiction|].
    destruct (Evaluate order l) as [v|e| |]; try reflexivity.
    exfalso; apply (Hl v); reflexivity.
  - intros l r Hl.
    destruct H as [->|[->| ->]]; cbn [Evaluate operands];
      (destruct (Evaluate LeftFirst l) as [v|e| |]; try reflexivity;
       exfalso; apply (Hl v); reflexivity).
  - intros l r Hr.
    destruct H as [->|[->| ->]]; cbn [Evaluate operands];
      (destruct (Evaluate RightFirst r) as [v|e| |]; try reflexivity;
       exfalso; apply (Hr v); reflexivity).
Qed.

Lemma Evaluate_operand_order_witness :
  let left_ := Binary TokenOperation.Division (Literal 1) (Literal 0) in
  let right_ := Binary TokenOperation.Addition (Literal 2147483647) (Literal 1) in
  fails (Evaluate LeftFirst right_) /\
  Evaluate LeftFirst (Binary TokenOperation.Division left_ right_) = Undefined.
Proof.
  cbv zeta. split.
  - intros v; discriminate.
  - apply (proj1 Evaluate_operand_order LeftFirst
             (Binary TokenOperation.Division (Literal 1) (Literal 0))
             (Binary TokenOperation.Addition (Literal 2147483647) (Literal 1))).
    intros v; discriminate.
Defined.

(** ** C3 *)

(** C3 as stated fails: the run "test" is reported as four substrings. *)
Lemma Tokenise_invalid_run_counterexample :
  Lexer.Tokenise Lexer.new "1 + 3 + test" =
    Throw (InvalidTokenException ["t"; "e"; "s"; "t"]) /\
  Lexer.Tokenise Lexer.new "1 + 3 + test" <> Throw (InvalidTokenException ["test"]).
Proof. split; [reflexivity|discriminate]. Qed.

(** C3 (amended): tokenisation throws InvalidToken exactly when the input
    has a character outside the class of digits, [+ - * / ( )] and the
    blank, and the exception then carries these characters in their order
    of appearance, each one as a substring of its own: "1 + 3 + test"
    reports "t", "e", "s", "t". *)
Theorem Tokenise_invalid_characters :
  (forall this expr,
      invalid_characters expr <> [] ->
      Lexer.Tokenise this expr =
      Throw (InvalidTokenException (map (fun c => String c "") (invalid_characters expr)))) /\
  (forall this expr tokens,
      Lexer.Tokenise this expr = Throw (InvalidTokenException tokens) ->
      invalid_characters expr <> [] /\
      tokens = map (fun c => String c "") (invalid_characters expr)) /\
  (forall expr c,
      In c (invalid_characters expr) <->
      In c (list_ascii_of_string expr) /\ Lexer.in_class c = false) /\
  (forall this,
      Lexer.Tokenise this "1 + 3 + test" = Throw (InvalidTokenException ["t"; "e"; "s"; "t"])).
Proof.
  split; [|split; [|split]].
  - apply Tokenise_invalid.
  - intros this expr tokens H.
    destruct (invalid_characters expr) as [|c l] eqn:E.
    + exfalso. exact (Tokenise_valid this expr tokens E H).
    + split; [discriminate|].
      rewrite Tokenise_invalid in H by (rewrite E; discriminate).
      rewrite E in H. congruence.
  - intros expr c. unfold invalid_characters. rewrite filter_In, negb_true_iff. tauto.
  - intros this. reflexivity.
Qed.

Lemma Tokenise_invalid_characters_witness :
  invalid_characters "2 # 3" <> [] /\
  Lexer.Tokenise Lexer.new "2 # 3" = Throw (InvalidTokenException ["#"]).
Proof.
  split.
  - discriminate.
  - apply (proj1 Tokenise_invalid_characters Lexer.new "2 # 3"). discriminate.
Defined.

(** ** C4 *)

(** C4 as stated fails: a tabulation is in the set of the claim, and the
    input "1", tabulation, "+ 2" throws InvalidToken. *)
Lemma Tokenise_tab_counterexample :
  let expr := String "1" (String "009" "+ 2") in
  string_forallb allowed_by_spec expr = true /\
  Lexer.Tokenise Lexer.new expr = Throw (InvalidTokenException [String "009" ""]).
Proof. split; reflexivity. Qed.

(** C4 (amended): on an input whose characters are all digits, operators,
    parentheses or blanks (the class of the pattern, which has no
    tabulation), tokenisation does not throw InvalidToken, and the blanks
    yield no token: the raw texts of the tokens, put end to end, are the
    input without its blanks. *)
Theorem Tokenise_allowed_characters :
  forall this expr,
    string_forallb Lexer.in_class expr = true ->
    (forall tokens, Lexer.Tokenise this expr <> Throw (InvalidTokenException tokens)) /\
    (forall lexer,
        Lexer.Tokenise (Lexer.clearTokens this) expr = Return lexer ->
        join (map Lexer.raw (Lexer.token_container lexer)) = strip_spaces expr).
Proof.
  intros this expr H. split.
  - intros tokens. apply Tokenise_valid, invalid_characters_nil, H.
  - intros lx E. pose proof (Tokenise_spec this expr) as HT. rewrite E in HT.
    destruct HT as (_ & _ & _ & ->).
    apply (token_pattern_join (String.length expr)); [lia|assumption].
Qed.

Lemma Tokenise_allowed_characters_witness :
  string_forallb Lexer.in_class " 12 +(3 )" = true /\
  forall lexer,
    Lexer.Tokenise (Lexer.clearTokens Lexer.new) " 12 +(3 )" = Return lexer ->
    join (map Lexer.raw (Lexer.token_container lexer)) = "12+(3)".
Proof.
  split.
  - reflexivity.
  - apply (proj2 (Tokenise_allowed_characters Lexer.new " 12 +(3 )" eq_refl)).
Defined.

(** ** C5 *)

Lemma quot_in_int_range (a b : Z) :
  INT_MIN <= a <= INT_MAX -> b <> 0 -> ~ (a = INT_MIN /\ b = -1) ->
  in_int_range (Z.quot a b) = true.
Proof.
  unfold in_int_range, INT_MIN, INT_MAX. intros Ha Hb Hnot.
  apply andb_true_iff; rewrite !Z.leb_le.
  assert (Hq : Z.abs (Z.quot a b) = Z.abs a / Z.abs b).
  { rewrite <- Z.quot_abs by assumption. apply Z.quot_div_nonneg; lia. }
  pose proof (Z.mul_div_le (Z.abs a) (Z.abs b) ltac:(lia)) as Hm.
  pose proof (Z.div_pos (Z.abs a) (Z.abs b) ltac:(lia) ltac:(lia)) as Hp.
  rewrite <- Hq in Hm, Hp.
  destruct (Z.eq_dec (Z.abs b) 1) as [Hb1|Hb1].
  - assert (Hcase : b = 1 \/ b = -1) by lia.
    destruct Hcase as [-> | ->].
    + rewrite Z.quot_1_r. lia.
    + replace (-1) with (- (1)) by reflexivity.
      rewrite Z.quot_opp_r, Z.quot_1_r by lia. lia.
  - assert (2 <= Z.abs b) by lia. nia.
Qed.

(** C5 as stated fails: a division node whose left operand is INT_MIN and
    whose right operand is -1 has a non-zero divisor and does not return the
    truncated quotient 2147483648, which no [int] holds; the division is
    undefined behaviour.  [Parse] builds this node from
    "-2147483647 - 1 / -1". *)
Lemma Evaluate_division_overflow_counterexample :
  let left_ := Binary TokenOperation.Subtraction (Unary (Literal 2147483647)) (Literal 1) in
  let right_ := Unary (Literal 1) in
  let node := Binary TokenOperation.Division left_ right_ in
  Evaluate LeftFirst left_ = Return INT_MIN /\
  Evaluate LeftFirst right_ = Return (-1) /\
  -1 <> 0 /\
  Z.quot INT_MIN (-1) = 2147483648 /\
  Evaluate LeftFirst node = Undefined /\
  Evaluate RightFirst node = Undefined /\
  Evaluate LeftFirst node <> Return (Z.quot INT_MIN (-1)) /\
  Parse LeftFirst new "-2147483647 - 1 / -1" = Undefined /\
  Parse RightFirst new "-2147483647 - 1 / -1" = Undefined.
Proof.
  cbv zeta. repeat split; discriminate.
Qed.

(** C5 (amended): a division node evaluates its right operand, and a right
    value of zero throws DivideByZero with no division made (the left
    operand is not even evaluated).  With a non-zero divisor the node
    returns the quotient truncated toward zero, with one exception: INT_MIN
    divided by -1, whose quotient no [int] holds, is undefined behaviour,
    and this is the only pair of [int] operands with a non-zero divisor for
    which the node does not return.  [Parse("5 / 0")] throws
    DivideByZero. *)
Theorem Evaluate_division :
  (forall order left_ right_,
      Evaluate order right_ = Return 0 ->
      Evaluate order (Binary TokenOperation.Division left_ right_) =
      Throw DivideByZeroException) /\
  (forall order left_ right_ a b,
      Evaluate order left_ = Return a ->
      Evaluate order right_ = Return b ->
      b <> 0 ->
      INT_MIN <= a <= INT_MAX ->
      ~ (a = INT_MIN /\ b = -1) ->
      Evaluate order (Binary TokenOperation.Division left_ right_) = Return (Z.quot a b) /\
      Z.abs (Z.quot a b) = Z.abs a / Z.abs b /\
      Z.sgn (Z.quot a b) * Z.sgn (a * b) >= 0) /\
  (forall order left_ right_,
      Evaluate order left_ = Return INT_MIN ->
      Evaluate order right_ = Return (-1) ->
      Evaluate order (Binary TokenOperation.Division left_ right_) = Undefined) /\
  (forall order left_ right_ a b,
      Evaluate order left_ = Return a ->
      Evaluate order right_ = Return b ->
      b <> 0 ->
      INT_MIN <= a <= INT_MAX ->
      (Evaluate order (Binary TokenOperation.Division left_ right_) = Undefined <->
       a = INT_MIN /\ b = -1)) /\
  (forall order this, Parse order this "5 / 0" = Throw DivideByZeroException).
Proof.
  assert (Hmin : forall order l r,
             Evaluate order l = Return INT_MIN -> Evaluate order r = Return (-1) ->
             Evaluate order (Binary TokenOperation.Division l r) = Undefined).
  { intros order l r Hl Hr. cbn [Evaluate]. rewrite Hr, Hl. reflexivity. }
  assert (Hquot : forall order l r a b,
             Evaluate order l = Return a -> Evaluate order r = Return b ->
             b <> 0 -> INT_MIN <= a <= INT_MAX -> ~ (a = INT_MIN /\ b = -1) ->
             Evaluate order (Binary TokenOperation.Division l r) = Return (Z.quot a b)).
  { intros order l r a b Hl Hr Hb Ha Hnot.
    cbn [Evaluate]. rewrite Hr, Hl. cbn [bind].
    destruct (Z.eqb_spec b 0) as [->|_]; [contradiction|].
    unfold int_result. rewrite quot_in_int_range by assumption. reflexivity. }
  split; [|split; [|split; [|split]]].
  - intros order l r Hr. cbn [Evaluate]. rewrite Hr. reflexivity.
  - intros order l r a b Hl Hr Hb Ha Hnot. split; [|split].
    + apply Hquot; assumption.
    + rewrite <- Z.quot_abs by assumption. apply Z.quot_div_nonneg; lia.
    + rewrite Z.quot_div by assumption.
      pose proof (Z.div_pos (Z.abs a) (Z.abs b) ltac:(lia) ltac:(lia)).
      rewrite !Z.sgn_mul.
      pose proof (Z.sgn_nonneg (Z.abs a / Z.abs b)) as [_ Hs]. specialize (Hs H).
      nia.
  - exact Hmin.
  - intros order l r a b Hl Hr Hb Ha. split.
    + intros HU.
      destruct (Z.eq_dec a INT_MIN) as [Ea|Ea]; destruct (Z.eq_dec b (-1)) as [Eb|Eb];
        try (split; assumption); exfalso;
        rewrite (Hquot order l r a b Hl Hr Hb Ha) in HU by (intros [? ?]; contradiction);
        discriminate HU.
    + intros [-> ->]. apply Hmin; assumption.
  - intros [] this; reflexivity.
Qed.

Lemma Evaluate_division_witness :
  let left_ := Unary (Literal 7) in
  let right_ := Literal 2 in
  (Evaluate LeftFirst left_ = Return (-7) /\
   Evaluate LeftFirst right_ = Return 2 /\
   2 <> 0 /\ INT_MIN <= -7 <= INT_MAX /\ ~ (-7 = INT_MIN /\ 2 = -1)) /\
  Evaluate LeftFirst (Binary TokenOperation.Division left_ right_) = Return (-3).
Proof.
  cbv zeta.
  assert (H : Evaluate LeftFirst (Unary (Literal 7)) = Return (-7) /\
              Evaluate LeftFirst (Literal 2) = Return 2 /\
              2 <> 0 /\ INT_MIN <= -7 <= INT_MAX /\ ~ (-7 = INT_MIN /\ 2 = -1)).
  { unfold INT_MIN, INT_MAX. repeat split; try lia; try discriminate. }
  split; [exact H|].
  destruct H as (H1 & H2 & H3 & H4 & H5).
  exact (proj1 (proj1 (proj2 Evaluate_division) LeftFirst
                  (Unary (Literal 7)) (Literal 2) (-7) 2 H1 H2 H3 H4 H5)).
Defined.

(** ** C6 *)

(** C6 as stated fails: on "5( + 6 *+ 4" the parse stops with tokens left
    at a left brace, and the input has no right brace at all. *)
Lemma Parse_leftover_counterexample :
  let expr := "5( + 6 *+ 4" in
  exists lexer e idx token,
    Lexer.Tokenise (Lexer.clearTokens Lexer.new) expr = Return lexer /\
    parseExpression lexer (4 * String.length expr + 4) 0 = Return (e, idx) /\
    idx < Z.of_nat (Lexer.getTokenCount lexer) /\
    token_at lexer idx = Some token /\
    Lexer.operation token = TokenOperation.L_Brace /\
    forallb (fun token => negb (TokenOperation.eqb (Lexer.operation token)
                                  TokenOperation.R_Brace))
            (Lexer.token_container lexer) = true /\
    Parse LeftFirst new expr = Throw UnexpectedParenthesesException.
Proof.
  cbv zeta. do 4 eexists.
  split; [reflexivity|]. split; [reflexivity|].
  split; [reflexivity|]. split; [reflexivity|].
  split; [reflexivity|]. split; reflexivity.
Qed.

(** C6 (amended): when the top-level parse returns with the cursor short of
    the token count, [Parse] throws UnexpectedParentheses; the token the
    cursor stopped at is then not one of the four operators.
    [Parse("5 + 6) *+ 4")] and [Parse("5( + 6 *+ 4")] both throw
    UnexpectedParentheses. *)
Theorem Parse_leftover_tokens :
  (forall order this expr lexer e idx,
      Lexer.Tokenise (Lexer.clearTokens (RDParser.lexer this)) expr = Return lexer ->
      parseExpression lexer (4 * String.length expr + 4) 0 = Return (e, idx) ->
      idx < Z.of_nat (Lexer.getTokenCount lexer) ->
      Parse order this expr = Throw UnexpectedParenthesesException /\
      exists token,
        token_at lexer idx = Some token /\
        is_operator (Lexer.operation token) = false) /\
  (forall order this, Parse order this "5 + 6) *+ 4" = Throw UnexpectedParenthesesException) /\
  (forall order this, Parse order this "5( + 6 *+ 4" = Throw UnexpectedParenthesesException).
Proof.
  split; [|split].
  - intros order this expr lx e idx HT HP Hidx.
    pose proof (parseExpression_sound _ _ _ _ HT (Nat.le_refl _)) as Hs.
    rewrite HP in Hs. cbn [parsed] in Hs. destruct Hs as (H0 & _ & _ & _ & Hstop).
    specialize (Hstop eq_refl). split.
    + unfold Parse, ParseFuel. rewrite HT. cbn [bind]. rewrite HP. cbn [bind].
      replace (int_lt_size idx _) with true; [reflexivity|].
      symmetry; apply int_lt_size_spec; lia.
    + rewrite match_operator_spec in Hstop.
      destruct (token_at lx idx) as [token|] eqn:E.
      * exists token. split; [reflexivity|].
        destruct (is_operator (Lexer.operation token)); [|reflexivity].
        injection Hstop as Hs _. discriminate Hs.
      * apply token_at_None in E. lia.
  - intros [] this; reflexivity.
  - intros [] this; reflexivity.
Qed.

Lemma Parse_leftover_tokens_witness :
  let expr := "5 + 6) *+ 4" in
  let lexer :=
    match Lexer.Tokenise (Lexer.clearTokens Lexer.new) expr with
    | Return lexer => lexer
    | _ => Lexer.new
    end in
  (Lexer.Tokenise (Lexer.clearTokens (RDParser.lexer new)) expr = Return lexer /\
   parseExpression lexer (4 * String.length expr + 4) 0 =
     Return (Binary TokenOperation.Addition (Literal 5) (Literal 6), 3) /\
   3 < Z.of_nat (Lexer.getTokenCount lexer)) /\
  Parse LeftFirst new expr = Throw UnexpectedParenthesesException.
Proof.
  cbv zeta.
  refine ((fun H => conj H
             (proj1 (proj1 Parse_leftover_tokens LeftFirst new _ _ _ _
                       (proj1 H) (proj1 (proj2 H)) (proj2 (proj2 H))))) _).
  split; [reflexivity|]. split; reflexivity.
Defined.

(** ** C7 *)









(** ** C8 *)




(** ** C9 *)



(** ** C10 *)



(** * Further properties *)

(** ** Blank input *)

Lemma strip_spaces_empty (s : string) :
  strip_spaces s = "" <-> string_forallb (Ascii.eqb " ") s = true.
Proof.
  induction s as [|c s IH]; cbn [strip_spaces string_forallb]; [tauto|].
  rewrite (Ascii.eqb_sym " " c).
  destruct (Ascii.eqb c " "); cbn [andb]; [exact IH|].
  split; discriminate.
Qed.

Lemma blank_in_class (s : string) :
  string_forallb (Ascii.eqb " ") s = true -> string_forallb Lexer.in_class s = true.
Proof.
  induction s as [|c s IH]; cbn [string_forallb]; [reflexivity|].
  intros H. apply andb_true_iff in H as [Hc Hs].
  apply Ascii.eqb_eq in Hc. subst c. rewrite (IH Hs). reflexivity.
Qed.

Lemma raw_token_ok_nonempty (l : list string) :
  Forall raw_token_ok l -> join l = "" -> l = [].
Proof.
  destruct l as [|r rs]; [reflexivity|].
  intros H. inversion H as [|? ? Hr _]; subst.
  destruct Hr as [(c & s & -> & _)|(c & -> & _)]; discriminate.
Qed.

Lemma Tokenise_unfold (this : Lexer.t) (expr : string) :
  Lexer.Tokenise this expr =
  match invalid_characters expr with
  | [] =>
      match regex_iterator Lexer.REGEX_TOKEN_PATTERN 0 expr with
      | [] => Throw EmptyExpressionException
      | valid_tokens =>
          container <- Lexer.push_tokens (Lexer.token_container this) valid_tokens ;;
          Return {| Lexer.token_container := container; Lexer.expression := expr |}
      end
  | invalid =>
      Throw (InvalidTokenException (map (fun c => String c "") invalid))
  end.
Proof.
  unfold Lexer.Tokenise, Lexer.regexFindSubstrings, Lexer.REGEX_INVALID_TOKEN_PATTERN.
  cbn [Lexer.expression Lexer.token_container]. rewrite regex_iterator_OneOf.
  fold (invalid_characters expr).
  destruct (invalid_characters expr); [|reflexivity].
  cbn [map List.length Nat.eqb negb].
  destruct (regex_iterator Lexer.REGEX_TOKEN_PATTERN 0 expr); reflexivity.
Qed.

Lemma Tokenise_blank (this : Lexer.t) (expr : string) :
  string_forallb (Ascii.eqb " ") expr = true ->
  Lexer.Tokenise this expr = Throw EmptyExpressionException.
Proof.
  intros Hb. rewrite Tokenise_unfold. pose proof (blank_in_class expr Hb) as Hc.
  rewrite (proj2 (invalid_characters_nil expr) Hc).
  pose proof (token_pattern_join (String.length expr) expr (Nat.le_refl _) Hc) as Hj.
  rewrite (proj2 (strip_spaces_empty expr) Hb) in Hj.
  rewrite (raw_token_ok_nonempty _ (token_pattern_matches expr 0) Hj). reflexivity.
Qed.

Lemma Tokenise_InvalidToken_inv (this : Lexer.t) (expr : string) (tokens : list string) :
  Lexer.Tokenise this expr = Throw (InvalidTokenException tokens) ->
  invalid_characters expr <> [] /\
  tokens = map (fun c => String c "") (invalid_characters expr).
Proof.
  rewrite Tokenise_unfold.
  destruct (invalid_characters expr) as [|c l].
  - destruct (regex_iterator _ 0 expr); [discriminate|].
    destruct (Lexer.push_tokens _ _) eqn:Ep; cbn [bind]; try discriminate.
    intros [= ->]. apply push_tokens_throws in Ep. destruct Ep; discriminate.
  - intros [= <-]. split; [discriminate|reflexivity].
Qed.

(** X1: [Lexer::Tokenise] throws EmptyExpression exactly on the inputs
    that consist of spaces only, the empty string among them, whatever the
    lexer held before the call. *)
Theorem Tokenise_empty_expression :
  forall this expr,
    Lexer.Tokenise this expr = Throw EmptyExpressionException <->
    string_forallb (Ascii.eqb " ") expr = true.
Proof.
  intros this expr. split; [|apply Tokenise_blank].
  rewrite Tokenise_unfold.
  destruct (invalid_characters expr) as [|c l] eqn:Ei; [|discriminate].
  apply invalid_characters_nil in Ei.
  pose proof (token_pattern_join (String.length expr) expr (Nat.le_refl _) Ei) as Hj.
  destruct (regex_iterator Lexer.REGEX_TOKEN_PATTERN 0 expr) as [|r rs] eqn:Er.
  - intros _. apply strip_spaces_empty. symmetry. exact Hj.
  - intros H. destruct (Lexer.push_tokens _ _) as [x|e| |] eqn:Ep; cbn [bind] in H;
      try discriminate H.
    injection H as ->. apply push_tokens_throws in Ep. destruct Ep; discriminate.
Qed.

Lemma Tokenise_empty_expression_witness :
  string_forallb (Ascii.eqb " ") "   " = true /\
  Lexer.Tokenise Lexer.new "   " = Throw EmptyExpressionException.
Proof.
  refine ((fun H => conj H (proj2 (Tokenise_empty_expression Lexer.new "   ") H)) _).
  reflexivity.
Defined.

(** ** A container that is not cleared *)

Lemma push_tokens_app (valid_tokens : list string) :
  forall container,
  Lexer.push_tokens container valid_tokens =
  (tokens <- Lexer.push_tokens [] valid_tokens ;; Return (container ++ tokens)).
Proof.
  induction valid_tokens as [|r rs IH]; intros container; cbn [Lexer.push_tokens bind].
  - rewrite app_nil_r. reflexivity.
  - destruct (Lexer.make_token r) as [token|e| |]; cbn [bind]; try reflexivity.
    rewrite (IH (container ++ [token])), (IH ([] ++ [token])).
    destruct (Lexer.push_tokens [] rs) as [tokens|e| |]; cbn [bind app]; try reflexivity.
    rewrite <- app_assoc. reflexivity.
Qed.

(** X2: [Lexer::Tokenise] does not clear the container.  Its outcome is
    that of a run on a cleared lexer, with the new tokens put behind the
    ones the lexer held; a run that returns has therefore made the token
    count grow and has left every old token at its index.  [RDParser::Parse]
    calls [clearTokens] first, so its outcome does not depend on what the
    parser held from an earlier call. *)
Theorem Tokenise_appends :
  (forall this expr,
      Lexer.Tokenise this expr =
      (fresh <- Lexer.Tokenise (Lexer.clearTokens this) expr ;;
       Return {| Lexer.token_container :=
                   Lexer.token_container this ++ Lexer.token_container fresh;
                 Lexer.expression := expr |})) /\
  (forall this expr lexer,
      Lexer.Tokenise this expr = Return lexer ->
      (Lexer.getTokenCount this < Lexer.getTokenCount lexer)%nat /\
      forall idx token,
        nth_error (Lexer.token_container this) idx = Some token ->
        nth_error (Lexer.token_container lexer) idx = Some token) /\
  (forall order this expr, Parse order this expr = Parse order new expr).
Proof.
  assert (H1 : forall this expr,
      Lexer.Tokenise this expr =
      (fresh <- Lexer.Tokenise (Lexer.clearTokens this) expr ;;
       Return {| Lexer.token_container :=
                   Lexer.token_container this ++ Lexer.token_container fresh;
                 Lexer.expression := expr |})).
  { intros this expr. rewrite !Tokenise_unfold.
    destruct (invalid_characters expr); [|reflexivity].
    destruct (regex_iterator Lexer.REGEX_TOKEN_PATTERN 0 expr) as [|r rs]; [reflexivity|].
    rewrite push_tokens_app. cbn [Lexer.clearTokens Lexer.token_container].
    destruct (Lexer.push_tokens [] (r :: rs)); reflexivity. }
  split; [exact H1|]. split.
  - intros this expr lx E. rewrite H1 in E.
    pose proof (Tokenise_spec this expr) as Hs.
    destruct (Lexer.Tokenise (Lexer.clearTokens this) expr) as [fresh|e| |];
      cbn [bind] in E; try discriminate E.
    injection E as <-. destruct Hs as (_ & Hne & _ & _).
    unfold Lexer.getTokenCount. cbn [Lexer.token_container]. split.
    + rewrite length_app. destruct (Lexer.token_container fresh); [congruence|simpl; lia].
    + intros idx token Hn. rewrite nth_error_app1; [exact Hn|].
      apply nth_error_Some. congruence.
  - intros order this expr. reflexivity.
Qed.

Lemma Tokenise_appends_witness :
  let this := {| Lexer.token_container := [literal_token "7"]; Lexer.expression := "7" |} in
  let lexer := {| Lexer.token_container :=
                    [literal_token "7"; minus_token; literal_token "2"];
                  Lexer.expression := "- 2" |} in
  Lexer.Tokenise this "- 2" = Return lexer /\
  (Lexer.getTokenCount this < Lexer.getTokenCount lexer)%nat.
Proof.
  cbv zeta.
  refine ((fun H => conj H
            (proj1 (proj1 (proj2 Tokenise_appends) _ "- 2" _ H))) _).
  reflexivity.
Defined.

(** ** The members of a token *)

Lemma make_token_shape (raw_token : string) :
  raw_token_ok raw_token ->
  forall token, Lexer.make_token raw_token = Return token ->
  token_shape token /\ Lexer.raw token = raw_token.
Proof.
  intros [(c & s & -> & Hc & Hs) | (c & -> & Hc)] token.
  - rewrite (make_token_digits c s Hc), (stoi_digits c s Hc).
    pose proof (decimal_ge (String c s) 0 ltac:(lia)) as Hd.
    remember (decimal 0 (String c s)) as d eqn:Ed.
    destruct (d <=? INT_MAX) eqn:E; cbn [bind]; [|discriminate].
    apply Z.leb_le in E. intros [= <-].
    unfold token_shape. cbn [Lexer.operation Lexer.value Lexer.raw].
    repeat split; try lia; try discriminate; try assumption.
    cbn [string_forallb]. rewrite Hc, Hs. reflexivity.
  - destruct c as [[] [] [] [] [] [] [] []]; try discriminate Hc;
      intros H; injection H as <-; split; reflexivity || (cbv; auto).
Qed.

Lemma push_tokens_shape (valid_tokens : list string) :
  Forall raw_token_ok valid_tokens ->
  forall container tokens,
  Forall token_shape container ->
  Lexer.push_tokens container valid_tokens = Return tokens ->
  Forall token_shape tokens.
Proof.
  induction 1 as [|r rs Hr Hrs IH]; intros container tokens Hc; cbn [Lexer.push_tokens].
  - intros [= <-]. exact Hc.
  - destruct (Lexer.make_token r) as [token|e| |] eqn:E; cbn [bind]; try discriminate.
    apply IH. apply Forall_app. split; [exact Hc|].
    constructor; [|constructor]. apply (make_token_shape r Hr token E).
Qed.

Lemma push_tokens_shape_Tokenise (this : Lexer.t) (expr : string) (lexer : Lexer.t) :
  Forall token_shape (Lexer.token_container this) ->
  Lexer.Tokenise this expr = Return lexer ->
  Forall token_shape (Lexer.token_container lexer).
Proof.
  intros Hthis. rewrite Tokenise_unfold.
  destruct (invalid_characters expr); [|discriminate].
  pose proof (token_pattern_matches expr 0) as Hraw.
  destruct (regex_iterator Lexer.REGEX_TOKEN_PATTERN 0 expr) as [|r rs]; [discriminate|].
  destruct (Lexer.push_tokens _ _) as [tokens|e| |] eqn:E; cbn [bind]; try discriminate.
  intros [= <-]. cbn [Lexer.token_container].
  exact (push_tokens_shape _ Hraw _ _ Hthis E).
Qed.

(** X3: the three members of every token [Lexer::Tokenise] makes agree.  A
    literal carries a non-empty run of digits and the decimal value of that
    run, which lies between 0 and INT_MAX; any other token carries its own
    one character and the value TOKEN_VALUE_NOT_APPLICABLE; a token of
    operation None is never made.  Tokens the lexer held before are kept, so
    the property is an invariant of the container. *)
Theorem Tokenise_token_shape :
  forall this expr lexer,
    Forall token_shape (Lexer.token_container this) ->
    Lexer.Tokenise this expr = Return lexer ->
    Forall token_shape (Lexer.token_container lexer).
Proof.
  intros this expr lx Hthis. rewrite Tokenise_unfold.
  destruct (invalid_characters expr); [|discriminate].
  pose proof (token_pattern_matches expr 0) as Hraw.
  destruct (regex_iterator Lexer.REGEX_TOKEN_PATTERN 0 expr) as [|r rs]; [discriminate|].
  destruct (Lexer.push_tokens _ _) as [tokens|e| |] eqn:E; cbn [bind]; try discriminate.
  intros [= <-]. cbn [Lexer.token_container].
  exact (push_tokens_shape _ Hraw _ _ Hthis E).
Qed.

Lemma Tokenise_token_shape_witness :
  let lexer :=
    match Lexer.Tokenise Lexer.new "07*(2)" with
    | Return lexer => lexer
    | _ => Lexer.new
    end in
  (Forall token_shape (Lexer.token_container Lexer.new) /\
   Lexer.Tokenise Lexer.new "07*(2)" = Return lexer) /\
  Forall token_shape (Lexer.token_container lexer).
Proof.
  cbv zeta.
  refine ((fun H => conj H (Tokenise_token_shape _ _ _ (proj1 H) (proj2 H))) _).
  split; [constructor|reflexivity].
Defined.

(** ** The order of the operands *)

Lemma Evaluate_return_any_order (e : Expression) :
  forall order order' v,
  Evaluate order e = Return v -> Evaluate order' e = Return v.
Proof.
  induction e as [operation l IHl r IHr|r IHr|n]; intros order order' v;
    cbn [Evaluate]; [| |auto].
  - destruct operation; try discriminate;
      try (rewrite !operands_return; intros (a & b & Ha & Hb & H);
           exists a, b; repeat split; eauto).
    destruct (Evaluate order r) as [b|e'| |] eqn:Er; cbn [bind]; try discriminate.
    rewrite (IHr _ order' _ Er). cbn [bind].
    destruct (b =? 0); [discriminate|].
    destruct (Evaluate order l) as [a|e'| |] eqn:El; cbn [bind]; try discriminate.
    rewrite (IHl _ order' _ El). auto.
  - destruct (Evaluate order r) as [b|e'| |] eqn:Er; cbn [bind]; try discriminate.
    rewrite (IHr _ order' _ Er). auto.
Qed.

(** X4: a value that is returned does not depend on the order in which the
    compiler evaluates the operands of +, - and *: a tree that evaluates to
    [v] under one order evaluates to [v] under the other, and so does a
    whole run of [Parse].  (Only which failure is seen can depend on the
    order.) *)
Theorem Evaluate_order_irrelevant_on_return :
  (forall e v, Evaluate LeftFirst e = Return v <-> Evaluate RightFirst e = Return v) /\
  (forall this expr v,
      Parse LeftFirst this expr = Return v <-> Parse RightFirst this expr = Return v).
Proof.
  split.
  - intros e v. split; apply Evaluate_return_any_order.
  - assert (H : forall order order' this expr v,
               Parse order this expr = Return v -> Parse order' this expr = Return v).
    { intros order order' this expr v. unfold Parse, ParseFuel.
      destruct (Lexer.Tokenise _ expr) as [lx|e| |]; cbn [bind]; try discriminate.
      destruct (parseExpression lx _ 0) as [[e idx]|e| |]; cbn [bind]; try discriminate.
      destruct (int_lt_size idx _); [discriminate|].
      apply Evaluate_return_any_order. }
    intros this expr v. split; apply H.
Qed.

Lemma Evaluate_order_irrelevant_on_return_witness :
  Parse LeftFirst RDParser.new "6 / (1 + 2)" = Return 2 /\
  Parse RightFirst RDParser.new "6 / (1 + 2)" = Return 2.
Proof.
  refine ((fun H => conj H
            (proj1 (proj2 Evaluate_order_irrelevant_on_return
                      RDParser.new "6 / (1 + 2)" 2) H)) _).
  reflexivity.
Defined.

(** ** Errors that cannot leave [Parse], and the one of [std::stoi] *)

Lemma push_tokens_out_of_range (valid_tokens : list string) :
  Forall raw_token_ok valid_tokens ->
  Exists (fun r => INT_MAX < decimal 0 r) valid_tokens ->
  forall container, Lexer.push_tokens container valid_tokens = Throw std_out_of_range.
Proof.
  induction 1 as [|r rs Hr Hrs IH]; intros Hbig container; [inversion Hbig|].
  cbn [Lexer.push_tokens].
  pose proof (make_token_spec r Hr) as Hm.
  destruct (Lexer.make_token r) as [token|e| |] eqn:E; cbn [bind]; try contradiction.
  - apply IH. inversion Hbig as [? ? Hb|? ? Hb]; subst; [|exact Hb].
    exfalso. destruct Hr as [(c & s & -> & Hc & _)|(c & -> & Hc)].
    + rewrite (make_token_digits c s Hc), (stoi_digits c s Hc) in E.
      destruct (decimal 0 (String c s) <=? INT_MAX) eqn:El; [|discriminate E].
      apply Z.leb_le in El. lia.
    + assert (Hd : is_digit c = false).
      { destruct c as [[] [] [] [] [] [] [] []]; try discriminate Hc; reflexivity. }
      cbn [decimal] in Hb. rewrite Hd in Hb. unfold INT_MAX in Hb. lia.
  - destruct Hm as [-> _]. reflexivity.
Qed.

(** X5: of the exceptions outside the six the parser is meant to raise,
    UnknownOperator and std::invalid_argument never leave [Parse], whatever
    the input and the recursion budget; std::out_of_range of [std::stoi]
    leaves [Parse] exactly when no character of the input is invalid and
    some run of digits denotes a number above INT_MAX. *)
Theorem Parse_unreachable_errors :
  (forall fuel order this expr,
      ParseFuel fuel order this expr <> Throw UnknownOperatorException /\
      ParseFuel fuel order this expr <> Throw std_invalid_argument) /\
  (forall order this expr,
      Parse order this expr = Throw std_out_of_range <->
      invalid_characters expr = [] /\
      Exists (fun raw_token => INT_MAX < decimal 0 raw_token)
        (regex_iterator Lexer.REGEX_TOKEN_PATTERN 0 expr)).
Proof.
  split.
  - intros fuel order this expr.
    pose proof (Parse_outcome order this expr) as Ho.
    destruct (ParseFuel_cases fuel order this expr) as [-> | ->].
    + split; discriminate.
    + split; intros H; rewrite H in Ho; exact Ho.
  - intros order this expr. split.
    + intros H. pose proof (Parse_outcome order this expr) as Ho. rewrite H in Ho.
      cbn [outcome] in Ho. split; [|exact Ho].
      destruct (invalid_characters expr) as [|c l] eqn:Ei; [reflexivity|].
      exfalso. unfold Parse, ParseFuel in H.
      rewrite Tokenise_invalid in H by (rewrite Ei; discriminate). discriminate H.
    + intros [Hi Hbig]. unfold Parse, ParseFuel. rewrite Tokenise_unfold, Hi.
      pose proof (token_pattern_matches expr 0) as Hraw.
      destruct (regex_iterator Lexer.REGEX_TOKEN_PATTERN 0 expr) as [|r rs] eqn:Er;
        [inversion Hbig|].
      rewrite (push_tokens_out_of_range _ Hraw Hbig). reflexivity.
Qed.

Lemma Parse_unreachable_errors_witness :
  (invalid_characters "1 + 2147483648" = [] /\
   Exists (fun raw_token => INT_MAX < decimal 0 raw_token)
     (regex_iterator Lexer.REGEX_TOKEN_PATTERN 0 "1 + 2147483648")) /\
  Parse LeftFirst RDParser.new "1 + 2147483648" = Throw std_out_of_range.
Proof.
  refine ((fun H => conj H
            (proj2 (proj2 Parse_unreachable_errors LeftFirst RDParser.new
                      "1 + 2147483648") H)) _).
  split; [reflexivity|].
  apply Exists_cons_tl, Exists_cons_tl, Exists_cons_hd. reflexivity.
Defined.

(** ** Messages *)

Lemma append_assoc' (a b c : string) : ((a ++ b) ++ c = a ++ (b ++ c))%string.
Proof. induction a as [|x a IH]; simpl; [reflexivity|rewrite IH; reflexivity]. Qed.

Lemma append_inj_l (a b c : string) : (a ++ b = a ++ c)%string -> b = c.
Proof. induction a as [|x a IH]; simpl; [auto|intros [= H]; auto]. Qed.

Lemma append_empty_r (a : string) : (a ++ "" = a)%string.
Proof. induction a as [|x a IH]; simpl; [reflexivity|rewrite IH; reflexivity]. Qed.

Lemma build_error_details_text (tokens : list string) :
  build_error_details tokens =
  ("Invalid token(s) detected in expression : " ++ token_list_text tokens)%string.
Proof.
  unfold build_error_details, token_list_text.
  generalize "Invalid token(s) detected in expression : ".
  induction tokens as [|t ts IH]; intros acc; cbn [fold_left map join fold_right].
  - rewrite append_empty_r. reflexivity.
  - rewrite IH. fold (join (map (fun raw_token => (raw_token ++ ",")%string) ts)).
    rewrite !append_assoc'. reflexivity.
Qed.

Lemma token_list_text_characters (l1 l2 : list ascii) :
  token_list_text (map (fun c => String c "") l1) =
  token_list_text (map (fun c => String c "") l2) ->
  l1 = l2.
Proof.
  unfold token_list_text. revert l2.
  induction l1 as [|a l1 IH]; intros [|b l2]; cbn [map join fold_right String.append];
    try discriminate; [reflexivity|].
  intros [= -> H]. f_equal. apply IH. exact H.
Qed.

Lemma length_append' (a b : string) :
  String.length (a ++ b) = (String.length a + String.length b)%nat.
Proof. induction a as [|x a IH]; simpl; [reflexivity|rewrite IH; reflexivity]. Qed.

Lemma token_list_text_length (l : list ascii) :
  String.length (token_list_text (map (fun c => String c "") l)) = (2 * List.length l)%nat.
Proof.
  unfold token_list_text.
  induction l as [|c l IH]; cbn [map join fold_right List.length String.append String.length].
  - reflexivity.
  - fold (join (map (fun raw_token => (raw_token ++ ",")%string)
                  (map (fun c => String c "") l))).
    rewrite IH. lia.
Qed.

Lemma c_str_token_list_text (l : list ascii) :
  c_str (token_list_text (map (fun c => String c "") l)) =
  token_list_text (map (fun c => String c "") (before_nul l)).
Proof.
  unfold token_list_text.
  induction l as [|c l IH]; [reflexivity|].
  cbn [map join fold_right String.append c_str before_nul].
  destruct (is_nul c); [reflexivity|].
  change (is_nul ",") with false. cbn iota.
  cbn [map join fold_right String.append]. f_equal. f_equal. exact IH.
Qed.

Lemma what_InvalidToken (oor inv : string) (l : list ascii) :
  what oor inv (InvalidTokenException (map (fun c => String c "") l)) =
  ("Lexer:: Invalid token(s) detected in expression : " ++
   token_list_text (map (fun c => String c "") (before_nul l)))%string.
Proof.
  unfold what. cbn [stored_message]. unfold LexerException.
  rewrite build_error_details_text, <- c_str_token_list_text.
  generalize (token_list_text (map (fun c => String c "") l)). intros text.
  reflexivity.
Qed.

Lemma before_nul_filter (cls : ascii -> bool) (s : string) :
  nul_free s = true ->
  before_nul (filter cls (list_ascii_of_string s)) = filter cls (list_ascii_of_string s).
Proof.
  unfold nul_free.
  induction s as [|c s IH]; cbn [string_forallb list_ascii_of_string filter]; [reflexivity|].
  intros H. apply andb_true_iff in H as [Hc Hs].
  destruct (cls c); [|exact (IH Hs)].
  cbn [before_nul]. destruct (is_nul c); [discriminate Hc|]. rewrite (IH Hs). reflexivity.
Qed.

Lemma before_nul_invalid_characters (expr : string) :
  nul_free expr = true ->
  before_nul (invalid_characters expr) = invalid_characters expr.
Proof. apply before_nul_filter. Qed.

Lemma c_str_nul_free (s : string) : nul_free (c_str s) = true.
Proof.
  unfold nul_free.
  induction s as [|c s IH]; cbn [c_str]; [reflexivity|].
  destruct (is_nul c) eqn:E; [reflexivity|].
  cbn [string_forallb]. rewrite E, IH. reflexivity.
Qed.

Lemma c_str_idempotent (s : string) : c_str (c_str s) = c_str s.
Proof.
  induction s as [|c s IH]; cbn [c_str]; [reflexivity|].
  destruct (is_nul c) eqn:E; [reflexivity|].
  cbn [c_str]. rewrite E, IH. reflexivity.
Qed.

(** X6: the text of [what()] identifies the failure, as far as a C string
    can.  Two exceptions of namespace ExpressionParserErrors with the same
    text are of the same class, and the texts they carry agree up to their
    first NUL.  For InvalidToken as [Tokenise] throws it, the text is the
    fixed 50 characters followed by each invalid character in front of the
    first NUL of the input and a comma; so the text determines these
    characters and is 50 characters plus two for each of them long.  For an
    input without NUL these are all its invalid characters. *)
Theorem what_identifies_exception :
  (forall oor inv e1 e2,
      ExpressionParserErrors e1 = true -> ExpressionParserErrors e2 = true ->
      what oor inv e1 = what oor inv e2 -> same_exception e1 e2) /\
  (forall oor inv this expr l,
      Lexer.Tokenise this expr = Throw (InvalidTokenException l) ->
      what oor inv (InvalidTokenException l) =
      ("Lexer:: Invalid token(s) detected in expression : " ++
       token_list_text
         (map (fun c => String c "") (before_nul (invalid_characters expr))))%string /\
      String.length (what oor inv (InvalidTokenException l)) =
      (50 + 2 * List.length (before_nul (invalid_characters expr)))%nat) /\
  (forall oor inv this1 this2 expr1 expr2 l1 l2,
      Lexer.Tokenise this1 expr1 = Throw (InvalidTokenException l1) ->
      Lexer.Tokenise this2 expr2 = Throw (InvalidTokenException l2) ->
      what oor inv (InvalidTokenException l1) = what oor inv (InvalidTokenException l2) ->
      before_nul (invalid_characters expr1) = before_nul (invalid_characters expr2)) /\
  (forall oor inv this1 this2 expr1 expr2 l1 l2,
      nul_free expr1 = true -> nul_free expr2 = true ->
      Lexer.Tokenise this1 expr1 = Throw (InvalidTokenException l1) ->
      Lexer.Tokenise this2 expr2 = Throw (InvalidTokenException l2) ->
      what oor inv (InvalidTokenException l1) = what oor inv (InvalidTokenException l2) ->
      invalid_characters expr1 = invalid_characters expr2) /\
  (forall oor inv this expr l,
      nul_free expr = true ->
      Lexer.Tokenise this expr = Throw (InvalidTokenException l) ->
      String.length (what oor inv (InvalidTokenException l)) =
      (50 + 2 * List.length (invalid_characters expr))%nat).
Proof.
  assert (Htext : forall oor inv this expr l,
             Lexer.Tokenise this expr = Throw (InvalidTokenException l) ->
             what oor inv (InvalidTokenException l) =
             ("Lexer:: Invalid token(s) detected in expression : " ++
              token_list_text
                (map (fun c => String c "") (before_nul (invalid_characters expr))))%string).
  { intros oor inv this expr l T.
    apply Tokenise_InvalidToken_inv in T as [_ ->]. apply what_InvalidToken. }
  assert (Hlen : forall oor inv this expr l,
             Lexer.Tokenise this expr = Throw (InvalidTokenException l) ->
             String.length (what oor inv (InvalidTokenException l)) =
             (50 + 2 * List.length (before_nul (invalid_characters expr)))%nat).
  { intros oor inv this expr l T. rewrite (Htext oor inv this expr l T).
    rewrite length_append', token_list_text_length. reflexivity. }
  assert (Hdet : forall oor inv this1 this2 expr1 expr2 l1 l2,
             Lexer.Tokenise this1 expr1 = Throw (InvalidTokenException l1) ->
             Lexer.Tokenise this2 expr2 = Throw (InvalidTokenException l2) ->
             what oor inv (InvalidTokenException l1) =
               what oor inv (InvalidTokenException l2) ->
             before_nul (invalid_characters expr1) = before_nul (invalid_characters expr2)).
  { intros oor inv this1 this2 expr1 expr2 l1 l2 T1 T2.
    rewrite (Htext oor inv _ _ _ T1), (Htext oor inv _ _ _ T2).
    intros H. apply append_inj_l in H. apply token_list_text_characters. exact H. }
  split; [|split; [|split; [|split]]].
  - intros oor inv e1 e2 H1 H2. unfold what.
    destruct e1, e2; try discriminate H1; try discriminate H2;
      cbn [stored_message same_exception]; unfold LexerException, RDParserException;
      rewrite ?build_error_details_text; cbn [String.append c_str];
      repeat match goal with
             | |- context [is_nul ?c] =>
                 match c with
                 | Ascii _ _ _ _ _ _ _ _ => change (is_nul c) with false; cbn iota
                 end
             end;
      intros H; try discriminate H; try exact I.
    + injection H as H. exact H.
    + injection H as H. exact H.
  - intros oor inv this expr l T. split; [exact (Htext _ _ _ _ _ T)|exact (Hlen _ _ _ _ _ T)].
  - exact Hdet.
  - intros oor inv this1 this2 expr1 expr2 l1 l2 N1 N2 T1 T2 H.
    rewrite <- (before_nul_invalid_characters expr1 N1),
            <- (before_nul_invalid_characters expr2 N2).
    exact (Hdet oor inv _ _ _ _ _ _ T1 T2 H).
  - intros oor inv this expr l N T.
    rewrite (Hlen oor inv this expr l T), (before_nul_invalid_characters expr N).
    reflexivity.
Qed.

Lemma what_identifies_exception_witness :
  (nul_free "1 + x" = true /\
   Lexer.Tokenise Lexer.new "1 + x" = Throw (InvalidTokenException ["x"])) /\
  String.length (what "stoi" "stoi" (InvalidTokenException ["x"])) = 52%nat.
Proof.
  refine ((fun H => conj H
            (proj2 (proj2 (proj2 (proj2 what_identifies_exception)))
               "stoi" "stoi" Lexer.new "1 + x" _ (proj1 H) (proj2 H))) _).
  split; reflexivity.
Defined.

(** ** The driver *)

(** X7: [evaluate] of main.cpp lets no exception escape.  Its argument is a
    [const char*], so what it parses is the text in front of the first NUL.
    It returns true with the value of [Parse] on that text and writes
    nothing, or returns false with [result] set to -1 after writing
    "Error: ", the text of [what()] and a line end to std::cerr; it is
    undefined only where [Parse] is.  A text of spaces only is reported as
    "Lexer:: Empty expression is invalid", a text with invalid characters by
    listing each of them followed by a comma; what follows a NUL is never
    looked at. *)
Theorem evaluate_reports :
  (forall oor inv order expression,
      match evaluate oor inv order expression with
      | Return (true, result, err) =>
          Parse order RDParser.new (c_str expression) = Return result /\ err = ""
      | Return (false, result, err) =>
          result = -1 /\
          exists e, Parse order RDParser.new (c_str expression) = Throw e /\
                    err = ("Error: " ++ what oor inv e ++ endl)%string
      | Throw _ => False
      | Undefined => Parse order RDParser.new (c_str expression) = Undefined
      | OutOfFuel => False
      end) /\
  (forall oor inv order expression,
      string_forallb (Ascii.eqb " ") (c_str expression) = true ->
      evaluate oor inv order expression =
      Return (false, -1, ("Error: Lexer:: Empty expression is invalid" ++ endl)%string)) /\
  (forall oor inv order expression,
      invalid_characters (c_str expression) <> [] ->
      evaluate oor inv order expression =
      Return (false, -1,
              ("Error: Lexer:: Invalid token(s) detected in expression : " ++
               token_list_text
                 (map (fun c => String c "") (invalid_characters (c_str expression))) ++
               endl)%string)) /\
  (forall oor inv order expression rest,
      evaluate oor inv order (c_str expression ++ String "000" rest) =
      evaluate oor inv order expression) /\
  (forall oor inv order,
      evaluate oor inv order (String "1" (String "000" "x")) = Return (true, 1, "")).
Proof.
  split; [|split; [|split; [|split]]].
  - intros oor inv order expression. unfold evaluate.
    pose proof (Parse_outcome order RDParser.new (c_str expression)) as Ht.
    destruct (Parse order RDParser.new (c_str expression)) as [v|e| |]; auto.
    split; [reflexivity|]. exists e. auto.
  - intros oor inv order expression Hb. unfold evaluate, Parse, ParseFuel.
    rewrite (Tokenise_blank _ _ Hb). reflexivity.
  - intros oor inv order expression Hi. unfold evaluate, Parse, ParseFuel.
    rewrite (Tokenise_invalid _ _ Hi). cbn [bind].
    rewrite what_InvalidToken.
    rewrite (before_nul_invalid_characters _ (c_str_nul_free expression)).
    rewrite append_assoc'. reflexivity.
  - intros oor inv order expression rest. unfold evaluate.
    replace (c_str (c_str expression ++ String "000" rest)) with (c_str expression);
      [reflexivity|].
    induction expression as [|c s IH]; [reflexivity|].
    cbn [c_str]. destruct (is_nul c) eqn:E; [reflexivity|].
    cbn [String.append c_str]. rewrite E, <- IH. reflexivity.
  - intros oor inv []; reflexivity.
Qed.

Lemma evaluate_reports_witness :
  (string_forallb (Ascii.eqb " ") (c_str "  ") = true) /\
  evaluate "stoi" "stoi" LeftFirst "  " =
  Return (false, -1, ("Error: Lexer:: Empty expression is invalid" ++ endl)%string).
Proof.
  split; [reflexivity|].
  apply (proj1 (proj2 evaluate_reports) "stoi" "stoi" LeftFirst "  "). reflexivity.
Defined.

Lemma chain_value_return (rest : list (Lexer.Token * Lexer.Token)) :
  forall acc v, chain_value acc rest = Return v -> exists a, acc = Return a.
Proof.
  unfold chain_value.
  induction rest as [|p rest IH]; intros acc v; cbn [fold_left].
  - intros ->. eauto.
  - intros H. apply IH in H as [a H]. destruct acc as [a'|e| |]; try discriminate H. eauto.
Qed.

Lemma Evaluate_Binary_literal (order : operand_order) (operation : TokenOperation.t)
    (left_ : Expression) (a b : Z) :
  Evaluate order left_ = Return a ->
  Evaluate order (Binary operation left_ (Literal b)) = apply_operator operation a b.
Proof.
  intros H. cbn [Evaluate]. rewrite H.
  destruct operation, order; reflexivity.
Qed.

Lemma chain_tree_return (order : operand_order) (rest : list (Lexer.Token * Lexer.Token)) :
  forall left_ v,
  Evaluate order (chain_tree left_ rest) = Return v ->
  exists a, Evaluate order left_ = Return a.
Proof.
  unfold chain_tree.
  induction rest as [|p rest IH]; intros left_ v; cbn [fold_left].
  - eauto.
  - intros H. apply IH in H as [a H]. eapply Evaluate_Binary_return; eauto.
Qed.

Lemma chain_tree_value (order : operand_order) (rest : list (Lexer.Token * Lexer.Token)) :
  forall left_ v,
  Evaluate order (chain_tree left_ rest) = Return v <->
  chain_value (Evaluate order left_) rest = Return v.
Proof.
  induction rest as [|p rest IH]; intros left_ v.
  - reflexivity.
  - change (chain_tree left_ (p :: rest))
      with (chain_tree (Binary (Lexer.operation (fst p)) left_
                          (Literal (Lexer.value (snd p)))) rest).
    change (chain_value (Evaluate order left_) (p :: rest))
      with (chain_value (a <- Evaluate order left_ ;;
                         apply_operator (Lexer.operation (fst p)) a (Lexer.value (snd p)))
              rest).
    rewrite IH.
    destruct (Evaluate order left_) as [a|e| |] eqn:El.
    + rewrite (Evaluate_Binary_literal _ _ _ _ _ El). reflexivity.
    + split; intros H; apply chain_value_return in H as [a H];
        [apply Evaluate_Binary_return in H as [a' H]; congruence|discriminate H].
    + split; intros H; apply chain_value_return in H as [a H];
        [apply Evaluate_Binary_return in H as [a' H]; congruence|discriminate H].
    + split; intros H; apply chain_value_return in H as [a H];
        [apply Evaluate_Binary_return in H as [a' H]; congruence|discriminate H].
Qed.

(** X8: a chain of literals and operators is parsed whole, with a budget
    of its number of operators plus four, and its tree evaluates to what
    applying the operators one after the other from the left gives, with no
    precedence among them: the same value where that computation returns
    one, under either operand order. *)
Theorem chain_evaluates_left_to_right :
  forall order lexer first rest v,
    Lexer.token_container lexer = chain_tokens first rest ->
    Lexer.operation first = TokenOperation.Literal ->
    Forall chain_ok rest ->
    exists tree,
      parseExpression lexer (List.length rest + 4) 0 =
        Return (tree, Z.of_nat (Lexer.getTokenCount lexer)) /\
      (Evaluate order tree = Return v <->
       chain_value (Return (Lexer.value first)) rest = Return v).
Proof.
  intros order lexer first rest v Htok Hlit Hok.
  exists (chain_tree (Literal (Lexer.value first)) rest). split.
  - apply parseExpression_chain; auto.
  - apply chain_tree_value.
Qed.

Lemma chain_evaluates_left_to_right_witness :
  let token op v raw := {| Lexer.operation := op; Lexer.value := v; Lexer.raw := raw |} in
  let two := token TokenOperation.Literal 2 "2" in
  let plus := token TokenOperation.Addition (-1) "+" in
  let three := token TokenOperation.Literal 3 "3" in
  let times := token TokenOperation.Multiplication (-1) "*" in
  let four := token TokenOperation.Literal 4 "4" in
  let lexer := {| Lexer.token_container := [two; plus; three; times; four];
                  Lexer.expression := "2+3*4" |} in
  exists tree,
    parseExpression lexer 6 0 = Return (tree, 5) /\
    (Evaluate LeftFirst tree = Return 20 <->
     chain_value (Return 2) [(plus, three); (times, four)] = Return 20).
Proof.
  intros token two plus three times four lexer.
  apply (chain_evaluates_left_to_right LeftFirst lexer two [(plus, three); (times, four)] 20).
  - reflexivity.
  - reflexivity.
  - repeat constructor.
Defined.

(** ** Repeated negation *)

Lemma parseExpression_S (lexer : Lexer.t) (fuel : nat) :
  parseExpression lexer (S fuel) = parseBinary lexer fuel.
Proof. reflexivity. Qed.

Lemma parseBinary_S (lexer : Lexer.t) (fuel : nat) :
  parseBinary lexer (S fuel) =
  pbind (parseUnary lexer fuel) (fun left_ => parseBinary_while lexer fuel left_).
Proof. reflexivity. Qed.

Lemma parseUnary_S (lexer : Lexer.t) (fuel : nat) :
  parseUnary lexer (S fuel) =
  pbind (tokenMatchAndAdvance lexer TokenOperation.Subtraction) (fun matched =>
    if matched then pbind (parseUnary lexer fuel) (fun right_ => ret (Unary right_))
    else parsePrimary lexer fuel).
Proof. reflexivity. Qed.

Lemma parsePrimary_S (lexer : Lexer.t) (fuel : nat) :
  parsePrimary lexer (S fuel) =
  pbind (tokenMatchAndAdvance lexer TokenOperation.Literal) (fun matched =>
    if matched then
      pbind RDParser.current_token_idx (fun idx =>
      pbind (lift (Lexer.getToken lexer (idx - 1))) (fun token =>
      ret (Literal (Lexer.value token))))
    else
      pbind (tokenMatchAndAdvance lexer TokenOperation.L_Brace) (fun matched =>
      if matched then
        pbind (parseExpression lexer fuel) (fun expression =>
        pbind (tokenMatchAndAdvance lexer TokenOperation.R_Brace) (fun closed =>
        if negb closed then throw ParenthesesMismatchException else ret expression))
      else unexpected_token lexer)).
Proof. reflexivity. Qed.

Lemma parseUnary_negations (lexer : Lexer.t) (signs : list Lexer.Token) :
  forall (pre post : list Lexer.Token) (literal : Lexer.Token) (fuel : nat),
  Lexer.token_container lexer = pre ++ signs ++ literal :: post ->
  Forall (fun token => Lexer.operation token = TokenOperation.Subtraction) signs ->
  Lexer.operation literal = TokenOperation.Literal ->
  parseUnary lexer (List.length signs + S (S fuel)) (Z.of_nat (List.length pre)) =
  Return (negations (List.length signs) (Literal (Lexer.value literal)),
          Z.of_nat (List.length pre) + Z.of_nat (List.length signs) + 1).
Proof.
  induction signs as [|sign signs IH]; intros pre post literal fuel Htok Hsigns Hlit.
  - cbn [List.length Nat.add negations app] in *.
    rewrite (parseUnary_literal lexer fuel _ literal (token_at_middle _ _ _ _ Htok) Hlit).
    f_equal. f_equal. lia.
  - inversion Hsigns as [|? ? Hs Hsigns']; subst.
    cbn [List.length Nat.add negations]. rewrite parseUnary_S. unfold pbind at 1.
    cbn [app] in Htok.
    rewrite tokenMatchAndAdvance_spec, (token_at_middle _ _ _ _ Htok), Hs.
    cbn [TokenOperation.eqb]. unfold pbind.
    specialize (IH (pre ++ [sign]) post literal fuel).
    rewrite length_app in IH. cbn [List.length] in IH.
    replace (Z.of_nat (List.length pre + 1)) with (Z.of_nat (List.length pre) + 1) in IH by lia.
    rewrite IH; [|rewrite Htok, <- app_assoc; reflexivity|assumption|assumption].
    unfold ret. f_equal. f_equal. lia.
Qed.

Lemma Evaluate_negations (order : operand_order) (k : nat) (v : Z) :
  0 <= v <= INT_MAX ->
  Evaluate order (negations k (Literal v)) = Return ((-1) ^ Z.of_nat k * v).
Proof.
  intros Hv. induction k as [|k IH].
  - cbn [negations Evaluate]. f_equal. change ((-1) ^ Z.of_nat 0) with 1. lia.
  - cbn [negations Evaluate]. rewrite IH. cbn [bind].
    rewrite Nat2Z.inj_succ, Z.pow_succ_r by lia.
    assert (Hp : (-1) ^ Z.of_nat k = 1 \/ (-1) ^ Z.of_nat k = -1).
    { clear. induction k as [|k IHk]; [left; reflexivity|].
      rewrite Nat2Z.inj_succ, Z.pow_succ_r by lia. lia. }
    unfold int_result, in_int_range, INT_MIN, INT_MAX in *.
    replace (- ((-1) ^ Z.of_nat k * v)) with (-1 * (-1) ^ Z.of_nat k * v) by lia.
    destruct Hp as [-> | ->];
      match goal with
      | |- (if (?a <=? ?x) && (?y <=? ?b) then _ else _) = _ =>
          replace (a <=? x) with true by (symmetry; apply Z.leb_le; lia);
          replace (y <=? b) with true by (symmetry; apply Z.leb_le; lia)
      end; reflexivity.
Qed.

(** *** The text of a run of minus signs and a number *)

Lemma run_length_all (cls : ascii -> bool) (s : string) :
  string_forallb cls s = true -> run_length cls s = String.length s.
Proof.
  induction s as [|c s IH]; cbn [string_forallb run_length String.length]; [reflexivity|].
  intros H. apply andb_true_iff in H as [-> H]. rewrite (IH H). reflexivity.
Qed.

Lemma substring_full (s : string) : substring 0 (String.length s) s = s.
Proof. induction s as [|c s IH]; simpl; [reflexivity|rewrite IH; reflexivity]. Qed.

Lemma string_drop_full (s : string) : string_drop (String.length s) s = "".
Proof. induction s as [|c s IH]; simpl; [reflexivity|exact IH]. Qed.

Lemma regex_iterator_digits (c : ascii) (s : string) :
  is_digit c = true -> string_forallb is_digit s = true ->
  regex_iterator Lexer.REGEX_TOKEN_PATTERN 0 (String c s) = [String c s].
Proof.
  intros Hc Hs. cbn [regex_iterator]. unfold Lexer.REGEX_TOKEN_PATTERN at 1.
  cbn [match_here match_atom run_length]. rewrite Hc, (run_length_all _ _ Hs).
  cbn [substring]. rewrite substring_full, Nat.sub_succ, Nat.sub_0_r.
  rewrite regex_iterator_skip, string_drop_full. reflexivity.
Qed.

Lemma regex_iterator_minuses (k : nat) (s : string) :
  regex_iterator Lexer.REGEX_TOKEN_PATTERN 0 (minuses k ++ s) =
  repeat "-" k ++ regex_iterator Lexer.REGEX_TOKEN_PATTERN 0 s.
Proof.
  induction k as [|k IH]; [reflexivity|].
  cbn [minuses String.append repeat app regex_iterator].
  unfold Lexer.REGEX_TOKEN_PATTERN at 1. cbn [match_here match_atom run_length].
  change (is_digit "-") with false. change (Lexer.is_symbol "-") with true.
  cbn [substring Nat.sub]. rewrite substring_0_0, IH. reflexivity.
Qed.

Lemma string_forallb_app (cls : ascii -> bool) (a b : string) :
  string_forallb cls (a ++ b) = string_forallb cls a && string_forallb cls b.
Proof.
  induction a as [|c a IH]; cbn [String.append string_forallb]; [reflexivity|].
  rewrite IH, andb_assoc. reflexivity.
Qed.

Lemma minuses_in_class (k : nat) : string_forallb Lexer.in_class (minuses k) = true.
Proof. induction k as [|k IH]; [reflexivity|]. cbn [minuses string_forallb]. rewrite IH. reflexivity. Qed.

Lemma digits_in_class (s : string) :
  string_forallb is_digit s = true -> string_forallb Lexer.in_class s = true.
Proof.
  induction s as [|c s IH]; cbn [string_forallb]; [reflexivity|].
  intros H. apply andb_true_iff in H as [Hc Hs].
  rewrite (IH Hs). unfold Lexer.in_class. rewrite Hc. reflexivity.
Qed.

Lemma push_tokens_minuses (k : nat) (number : string) :
  raw_token_ok number ->
  decimal 0 number <= INT_MAX ->
  (exists c s, number = String c s /\ is_digit c = true) ->
  forall container,
  Lexer.push_tokens container (repeat "-" k ++ [number]) =
  Return (container ++ repeat minus_token k ++ [literal_token number]).
Proof.
  intros Hraw Hsmall (c & s & -> & Hc).
  induction k as [|k IH]; intros container; cbn [repeat app Lexer.push_tokens].
  - rewrite (make_token_digits c s Hc), (stoi_digits c s Hc).
    replace (decimal 0 (String c s) <=? INT_MAX) with true
      by (symmetry; apply Z.leb_le; exact Hsmall).
    reflexivity.
  - change (Lexer.make_token "-") with (Return minus_token). cbn [bind].
    rewrite IH, <- app_assoc. reflexivity.
Qed.

(** X9: any number of minus signs in front of a number is accepted, and
    the result is the number negated that many times: [Parse] of k minus
    signs followed by a run of digits of value at most INT_MAX returns
    (-1)^k times that value. *)
Theorem Parse_repeated_negation :
  forall order this k c digits,
    is_digit c = true ->
    string_forallb is_digit digits = true ->
    decimal 0 (String c digits) <= INT_MAX ->
    Parse order this (minuses k ++ String c digits) =
    Return ((-1) ^ Z.of_nat k * decimal 0 (String c digits)).
Proof.
  intros order this k c digits Hc Hd Hsmall.
  set (number := String c digits) in *.
  assert (Hraw : raw_token_ok number) by (left; exists c, digits; auto).
  unfold Parse, ParseFuel. rewrite Tokenise_unfold.
  assert (Hcls : string_forallb Lexer.in_class (minuses k ++ number) = true).
  { rewrite string_forallb_app, minuses_in_class. cbn [andb].
    apply digits_in_class. unfold number. cbn [string_forallb]. rewrite Hc, Hd. reflexivity. }
  rewrite (proj2 (invalid_characters_nil _) Hcls).
  assert (Hreg : regex_iterator Lexer.REGEX_TOKEN_PATTERN 0 number = [number])
    by (apply regex_iterator_digits; assumption).
  rewrite regex_iterator_minuses, Hreg.
  destruct (repeat "-" k ++ [number]) as [|r rs] eqn:Er.
  { destruct k; discriminate Er. }
  rewrite <- Er.
  rewrite (push_tokens_minuses k number Hraw Hsmall (ex_intro _ c (ex_intro _ digits (conj eq_refl Hc)))).
  cbn [bind Lexer.clearTokens Lexer.token_container app].
  set (lx := {| Lexer.token_container := repeat minus_token k ++ [literal_token number];
                Lexer.expression := (minuses k ++ number)%string |}).
  assert (Hlen : String.length (minuses k ++ number) =
                 (k + S (String.length digits))%nat).
  { clear. induction k as [|k IH]; cbn [minuses String.append String.length];
      [reflexivity|rewrite IH; reflexivity]. }
  rewrite Hlen.
  replace (4 * (k + S (String.length digits)) + 4)%nat
    with (S (S (k + S (S (3 * k + 4 * String.length digits + 4)))))%nat by lia.
  rewrite parseExpression_S, parseBinary_S. unfold pbind at 1.
  assert (Htok : Lexer.token_container lx =
                 [] ++ repeat minus_token k ++ literal_token number :: []) by reflexivity.
  pose proof (parseUnary_negations lx (repeat minus_token k) [] [] (literal_token number)
                (3 * k + 4 * String.length digits + 4)%nat Htok) as HU.
  rewrite repeat_length in HU. cbn [List.length] in HU. change (Z.of_nat 0) with 0 in HU.
  rewrite HU; [|apply Forall_forall; intros t Ht; apply repeat_spec in Ht; subst t; reflexivity
              |reflexivity].
  assert (Hcount : 0 + Z.of_nat k + 1 = Z.of_nat (Lexer.getTokenCount lx)).
  { unfold Lexer.getTokenCount, lx. cbn [Lexer.token_container].
    rewrite length_app, repeat_length. cbn [List.length]. lia. }
  rewrite Hcount.
  replace (k + S (S (3 * k + 4 * String.length digits + 4)))%nat
    with (S (k + S (3 * k + 4 * String.length digits + 4)))%nat by lia.
  rewrite parseBinary_while_end. cbn [bind].
  replace (int_lt_size _ _) with false
    by (symmetry; unfold int_lt_size; rewrite Z.ltb_irrefl, andb_false_r; reflexivity).
  apply Evaluate_negations. cbn [literal_token Lexer.value].
  pose proof (decimal_ge number 0 ltac:(lia)). lia.
Qed.

Lemma Parse_repeated_negation_witness :
  (is_digit "4" = true /\ string_forallb is_digit "2" = true /\
   decimal 0 "42" <= INT_MAX) /\
  Parse LeftFirst RDParser.new "---42" = Return (-42).
Proof.
  refine ((fun H => conj H
            (Parse_repeated_negation LeftFirst RDParser.new 3 "4" "2"
               (proj1 H) (proj1 (proj2 H)) (proj2 (proj2 H)))) _).
  repeat split. discriminate.
Defined.

(** ** Balanced parentheses *)

Lemma nesting_app (a b : list Lexer.Token) : nesting (a ++ b) = nesting a + nesting b.
Proof. induction a as [|t a IH]; simpl; [reflexivity|rewrite IH; lia]. Qed.

Lemma firstn_succ {A : Type} (l : list A) (k : nat) (x : A) :
  nth_error l k = Some x -> firstn (S k) l = firstn k l ++ [x].
Proof.
  revert k; induction l as [|y l IH]; intros [|k] H; try discriminate H.
  - injection H as ->. reflexivity.
  - change (y :: firstn (S k) l = y :: (firstn k l ++ [x])).
    f_equal. apply IH. exact H.
Qed.

Lemma nesting_step (lexer : Lexer.t) (idx : Z) (token : Lexer.Token) :
  token_at lexer idx = Some token ->
  nesting_before lexer (idx + 1) = nesting_before lexer idx + weight token.
Proof.
  intros E. pose proof (token_at_Some _ _ _ E) as [Hb _].
  unfold token_at in E. destruct (int_lt_size idx _); [|discriminate].
  unfold nesting_before. replace (Z.to_nat (idx + 1)) with (S (Z.to_nat idx)) by lia.
  rewrite (firstn_succ _ _ _ E), nesting_app. simpl. lia.
Qed.

Lemma eqb_operation (a b : TokenOperation.t) :
  TokenOperation.eqb a b = true -> a = b.
Proof. destruct a, b; (reflexivity || discriminate). Qed.

Lemma descent_balanced (lexer : Lexer.t) (fuel : nat) :
  forall idx, 0 <= idx ->
  balanced_run lexer idx (parseExpression lexer fuel idx) /\
  balanced_run lexer idx (parseBinary lexer fuel idx) /\
  (forall left_, balanced_run lexer idx (parseBinary_while lexer fuel left_ idx)) /\
  balanced_run lexer idx (parseUnary lexer fuel idx) /\
  balanced_run lexer idx (parsePrimary lexer fuel idx).
Proof.
  induction fuel as [|fuel IH]; intros idx Hidx.
  { repeat split; exact I. }
  repeat split.
  - rewrite parseExpression_S. apply IH; assumption.
  - rewrite parseBinary_S. unfold pbind.
    destruct (IH idx Hidx) as (_ & _ & _ & HU & _).
    destruct (parseUnary lexer fuel idx) as [[e idx']|ex| |]; cbn [balanced_run] in *; auto.
    destruct HU as (H1 & H2 & H3).
    destruct (IH idx' ltac:(lia)) as (_ & _ & HW & _ & _). specialize (HW e).
    destruct (parseBinary_while lexer fuel e idx') as [[e' idx'']|ex| |];
      cbn [balanced_run] in *; auto.
    destruct HW as (W1 & W2 & W3). split; [lia|]. split; [lia|].
    intros j Hj. destruct (Z_le_gt_dec j idx'); [apply H3; lia|].
    specialize (W3 j ltac:(lia)). lia.
  - intros left_. rewrite parseBinary_while_S. unfold pbind at 1.
    rewrite match_operator_spec.
    destruct (token_at lexer idx) as [token|] eqn:E.
    2:{ cbn [ret balanced_run]. split; [lia|]. split; [reflexivity|].
        intros j Hj. replace j with idx by lia. lia. }
    destruct (is_operator (Lexer.operation token)) eqn:Eop.
    2:{ cbn [ret balanced_run]. split; [lia|]. split; [reflexivity|].
        intros j Hj. replace j with idx by lia. lia. }
    pose proof (nesting_step _ _ _ E) as Hstep.
    assert (Hw : weight token = 0).
    { unfold weight. destruct (Lexer.operation token); try discriminate Eop; reflexivity. }
    unfold pbind, RDParser.current_token_idx, lift. rewrite getToken_spec.
    replace (idx + 1 - 1) with idx by lia. rewrite E. cbn [bind].
    destruct (IH (idx + 1) ltac:(lia)) as (_ & _ & _ & HU & _).
    destruct (parseUnary lexer fuel (idx + 1)) as [[e idx']|ex| |]; cbn [balanced_run] in *; auto.
    destruct HU as (H1 & H2 & H3).
    destruct (IH idx' ltac:(lia)) as (_ & _ & HW & _ & _).
    specialize (HW (Binary (Lexer.operation token) left_ e)).
    destruct (parseBinary_while lexer fuel _ idx') as [[e' idx'']|ex| |];
      cbn [balanced_run] in *; auto.
    destruct HW as (W1 & W2 & W3). split; [lia|]. split; [lia|].
    intros j Hj. destruct (Z.eq_dec j idx) as [->|Hne]; [lia|].
    destruct (Z_le_gt_dec j idx'); [specialize (H3 j ltac:(lia)); lia|].
    specialize (W3 j ltac:(lia)). lia.
  - rewrite parseUnary_S. unfold pbind at 1. rewrite tokenMatchAndAdvance_spec.
    destruct (IH idx Hidx) as (_ & _ & _ & _ & HP).
    destruct (token_at lexer idx) as [token|] eqn:E; [|exact HP].
    destruct (TokenOperation.eqb _ _) eqn:Eop; [|exact HP].
    apply eqb_operation in Eop.
    pose proof (nesting_step _ _ _ E) as Hstep.
    assert (Hw : weight token = 0) by (unfold weight; rewrite Eop; reflexivity).
    unfold pbind.
    destruct (IH (idx + 1) ltac:(lia)) as (_ & _ & _ & HU & _).
    destruct (parseUnary lexer fuel (idx + 1)) as [[e idx']|ex| |];
      cbn [balanced_run ret] in *; auto.
    destruct HU as (H1 & H2 & H3). split; [lia|]. split; [lia|].
    intros j Hj. destruct (Z.eq_dec j idx) as [->|Hne]; [lia|].
    specialize (H3 j ltac:(lia)). lia.
  - rewrite parsePrimary_S. unfold pbind at 1. rewrite tokenMatchAndAdvance_spec.
    destruct (token_at lexer idx) as [token|] eqn:E.
    2:{ unfold pbind at 1. rewrite tokenMatchAndAdvance_spec, E.
        unfold unexpected_token, pbind, RDParser.current_token_idx, lift.
        destruct (Lexer.getToken lexer _); exact I. }
    pose proof (nesting_step _ _ _ E) as Hstep.
    destruct (TokenOperation.eqb _ TokenOperation.Literal) eqn:Elit.
    { apply eqb_operation in Elit.
      assert (Hw : weight token = 0) by (unfold weight; rewrite Elit; reflexivity).
      unfold pbind, RDParser.current_token_idx, lift. rewrite getToken_spec.
      replace (idx + 1 - 1) with idx by lia. rewrite E. cbn [bind ret balanced_run].
      split; [lia|]. split; [lia|].
      intros j Hj. destruct (Z.eq_dec j idx) as [->|Hne]; [lia|].
      replace j with (idx + 1) by lia. lia. }
    unfold pbind at 1. rewrite tokenMatchAndAdvance_spec, E.
    destruct (TokenOperation.eqb _ TokenOperation.L_Brace) eqn:Elb.
    2:{ unfold unexpected_token, pbind, RDParser.current_token_idx, lift.
        destruct (Lexer.getToken lexer _); exact I. }
    apply eqb_operation in Elb.
    assert (Hw : weight token = 1) by (unfold weight; rewrite Elb; reflexivity).
    destruct (IH (idx + 1) ltac:(lia)) as (HE & _).
    unfold pbind at 1.
    destruct (parseExpression lexer fuel (idx + 1)) as [[e idx']|ex| |];
      cbn [balanced_run] in *; auto.
    destruct HE as (H1 & H2 & H3).
    unfold pbind. rewrite tokenMatchAndAdvance_spec.
    destruct (token_at lexer idx') as [token'|] eqn:E'; cbn [negb throw balanced_run]; auto.
    destruct (TokenOperation.eqb (Lexer.operation token') _) eqn:Erb;
      cbn [negb throw ret balanced_run]; auto.
    apply eqb_operation in Erb.
    pose proof (nesting_step _ _ _ E') as Hstep'.
    assert (Hw' : weight token' = -1) by (unfold weight; rewrite Erb; reflexivity).
    split; [lia|]. split; [lia|].
    intros j Hj. destruct (Z.eq_dec j idx) as [->|Hne]; [lia|].
    destruct (Z.eq_dec j (idx' + 1)) as [->|Hne']; [lia|].
    specialize (H3 j ltac:(lia)). lia.
Qed.

Lemma nesting_before_all (lexer : Lexer.t) :
  nesting_before lexer (Z.of_nat (Lexer.getTokenCount lexer)) =
  nesting (Lexer.token_container lexer).
Proof.
  unfold nesting_before, Lexer.getTokenCount. rewrite Nat2Z.id, firstn_all. reflexivity.
Qed.

Lemma paren_depth_app (a b : string) :
  paren_depth (a ++ b) = paren_depth a + paren_depth b.
Proof. induction a as [|c a IH]; cbn [String.append paren_depth]; [reflexivity|rewrite IH; lia]. Qed.

Lemma paren_depth_strip_spaces (s : string) : paren_depth (strip_spaces s) = paren_depth s.
Proof.
  induction s as [|c s IH]; cbn [strip_spaces paren_depth]; [reflexivity|].
  destruct (Ascii.eqb c " ") eqn:E.
  - apply Ascii.eqb_eq in E. subst c. rewrite IH. reflexivity.
  - cbn [paren_depth]. rewrite IH. reflexivity.
Qed.

Lemma paren_depth_digits (s : string) :
  string_forallb is_digit s = true -> paren_depth s = 0.
Proof.
  induction s as [|c s IH]; cbn [string_forallb paren_depth]; [reflexivity|].
  intros H. apply andb_true_iff in H as [Hc Hs]. rewrite (IH Hs).
  destruct c as [[] [] [] [] [] [] [] []]; try discriminate Hc; reflexivity.
Qed.

Lemma paren_depth_raw (token : Lexer.Token) :
  token_shape token -> paren_depth (Lexer.raw token) = weight token.
Proof.
  unfold token_shape, weight.
  destruct (Lexer.operation token); cbn [symbol_of].
  - contradiction.
  - intros (_ & Hd & _). apply paren_depth_digits. exact Hd.
  - intros [-> _]. reflexivity.
  - intros [-> _]. reflexivity.
  - intros [-> _]. reflexivity.
  - intros [-> _]. reflexivity.
  - intros [-> _]. reflexivity.
  - intros [-> _]. reflexivity.
Qed.

Lemma paren_depth_tokens (tokens : list Lexer.Token) :
  Forall token_shape tokens ->
  paren_depth (join (map Lexer.raw tokens)) = nesting tokens.
Proof.
  induction 1 as [|t ts Ht Hts IH]; [reflexivity|].
  cbn [map join fold_right nesting]. fold (join (map Lexer.raw ts)).
  fold (nesting ts). rewrite paren_depth_app, IH, (paren_depth_raw t Ht). reflexivity.
Qed.

Lemma Tokenise_paren_depth (this : Lexer.t) (expr : string) (lexer : Lexer.t) :
  Lexer.Tokenise (Lexer.clearTokens this) expr = Return lexer ->
  paren_depth expr = nesting (Lexer.token_container lexer).
Proof.
  intros HT.
  pose proof (Tokenise_spec this expr) as Hs. rewrite HT in Hs.
  destruct Hs as (Hinv & _ & _ & Hraw).
  assert (Hshape : Forall token_shape (Lexer.token_container lexer)).
  { apply (push_tokens_shape_Tokenise (Lexer.clearTokens this) expr lexer); [constructor|exact HT]. }
  rewrite <- (paren_depth_tokens _ Hshape), Hraw.
  rewrite (token_pattern_join (String.length expr) expr (Nat.le_refl _)
             (proj1 (invalid_characters_nil expr) Hinv)).
  symmetry. apply paren_depth_strip_spaces.
Qed.

(** X10: [Parse] returns a value only for inputs with balanced
    parentheses: the input has as many opening as closing parentheses, and
    in its token sequence no prefix has more closing than opening ones. *)
Theorem Parse_return_balanced :
  forall order this expr v,
    Parse order this expr = Return v ->
    paren_depth expr = 0 /\
    exists lexer,
      Lexer.Tokenise (Lexer.clearTokens (RDParser.lexer this)) expr = Return lexer /\
      nesting (Lexer.token_container lexer) = 0 /\
      forall k, 0 <= nesting (firstn k (Lexer.token_container lexer)).
Proof.
  intros order this expr v HP.
  destruct (Lexer.Tokenise (Lexer.clearTokens (RDParser.lexer this)) expr) as [lx|ex| |] eqn:HT;
    try (unfold Parse, ParseFuel in HP; rewrite HT in HP; discriminate HP).
  pose proof (parseExpression_sound _ _ _ _ HT (Nat.le_refl _)) as Hs.
  pose proof (descent_balanced lx (4 * String.length expr + 4) 0 ltac:(lia)) as (Hb & _).
  unfold Parse, ParseFuel in HP. rewrite HT in HP. cbn [bind] in HP.
  destruct (parseExpression lx _ 0) as [[e idx]|ex| |]; cbn [bind] in HP; try discriminate HP.
  cbn [parsed balanced_run] in Hs, Hb.
  destruct Hs as (H0 & Hn & _). destruct Hb as (_ & B1 & B2).
  destruct (int_lt_size idx _) eqn:El; [discriminate HP|].
  assert (Hidx : idx = Z.of_nat (Lexer.getTokenCount lx)).
  { destruct (Z.eq_dec idx (Z.of_nat (Lexer.getTokenCount lx))) as [|Hne]; [assumption|].
    assert (Ht : int_lt_size idx (Lexer.getTokenCount lx) = true)
      by (apply int_lt_size_spec; lia).
    congruence. }
  subst idx. rewrite nesting_before_all in B1.
  change (nesting_before lx 0) with 0 in B1, B2.
  split; [rewrite (Tokenise_paren_depth _ _ _ HT); exact B1|].
  exists lx. split; [reflexivity|]. split; [exact B1|].
  intros k. destruct (Nat.le_gt_cases k (Lexer.getTokenCount lx)) as [Hk|Hk].
  - specialize (B2 (Z.of_nat k) ltac:(lia)). unfold nesting_before in B2.
    rewrite Nat2Z.id in B2. exact B2.
  - rewrite firstn_all2 by (unfold Lexer.getTokenCount in Hk; lia). lia.
Qed.

Lemma Parse_return_balanced_witness :
  Parse LeftFirst RDParser.new "((1)+2)" = Return 3 /\
  paren_depth "((1)+2)" = 0.
Proof.
  refine ((fun H => conj H
            (proj1 (Parse_return_balanced LeftFirst RDParser.new "((1)+2)" 3 H))) _).
  reflexivity.
Defined.

(** ** An expression in parentheses *)

(** *** Its tokens *)

Lemma run_length_le (cls : ascii -> bool) (s : string) :
  (run_length cls s <= String.length s)%nat.
Proof. induction s as [|c s IH]; simpl; [lia|]. destruct (cls c); simpl; lia. Qed.

Lemma run_length_app (cls : ascii -> bool) (s t : string) (c : ascii) :
  cls c = false -> run_length cls (s ++ String c t) = run_length cls s.
Proof.
  intros Hc. induction s as [|x s IH]; cbn [String.append run_length].
  - rewrite Hc. reflexivity.
  - rewrite IH. reflexivity.
Qed.

Lemma substring_app (n : nat) (s t : string) :
  (n <= String.length s)%nat -> substring 0 n (s ++ t) = substring 0 n s.
Proof.
  revert n; induction s as [|x s IH]; intros [|n] H; cbn [String.append substring];
    try reflexivity.
  - apply substring_0_0.
  - simpl in H; lia.
  - rewrite IH by (simpl in H; lia). reflexivity.
Qed.

Lemma match_here_token_app (s : string) (c : ascii) :
  s <> "" -> is_digit c = false ->
  match_here Lexer.REGEX_TOKEN_PATTERN (s ++ String c "") =
  match_here Lexer.REGEX_TOKEN_PATTERN s.
Proof.
  intros Hs Hc. unfold Lexer.REGEX_TOKEN_PATTERN. cbn [match_here match_atom].
  rewrite (run_length_app is_digit s "" c Hc).
  destruct s as [|x s]; [contradiction|]. reflexivity.
Qed.

Lemma match_here_length (s : string) (n : nat) :
  match_here Lexer.REGEX_TOKEN_PATTERN s = Some n ->
  (1 <= n <= String.length s)%nat.
Proof.
  unfold Lexer.REGEX_TOKEN_PATTERN. cbn [match_here match_atom].
  pose proof (run_length_le is_digit s) as Hr.
  destruct (run_length is_digit s) as [|m]; [|intros [= <-]; lia].
  destruct s as [|x s]; [discriminate|].
  destruct (Lexer.is_symbol x); [|discriminate]. intros [= <-]. simpl. lia.
Qed.

Lemma regex_iterator_snoc (c : ascii) (s : string) :
  is_digit c = false -> Lexer.is_symbol c = true ->
  forall k, (k <= String.length s)%nat ->
  regex_iterator Lexer.REGEX_TOKEN_PATTERN k (s ++ String c "") =
  regex_iterator Lexer.REGEX_TOKEN_PATTERN k s ++ [String c ""].
Proof.
  intros Hd Hsym. induction s as [|x s IH]; intros k Hk.
  - assert (k = 0)%nat by (simpl in Hk; lia). subst k.
    cbn [String.append regex_iterator app].
    unfold Lexer.REGEX_TOKEN_PATTERN. cbn [match_here match_atom run_length].
    rewrite Hd, Hsym. reflexivity.
  - change ((String x s ++ String c "")%string) with (String x (s ++ String c "")).
    cbn [regex_iterator]. destruct k as [|k].
    + change (String x (s ++ String c "")) with ((String x s ++ String c "")%string).
      rewrite (match_here_token_app (String x s) c ltac:(discriminate) Hd).
      destruct (match_here Lexer.REGEX_TOKEN_PATTERN (String x s)) as [n|] eqn:E.
      * apply match_here_length in E. cbn [String.length] in E.
        rewrite substring_app by (cbn [String.length]; lia).
        rewrite IH by lia. reflexivity.
      * apply IH. lia.
    + apply IH. cbn [String.length] in Hk. lia.
Qed.

Lemma regex_iterator_parenthesised (s : string) :
  regex_iterator Lexer.REGEX_TOKEN_PATTERN 0 (String "(" (s ++ ")")) =
  "(" :: regex_iterator Lexer.REGEX_TOKEN_PATTERN 0 s ++ [")"].
Proof.
  cbn [regex_iterator]. unfold Lexer.REGEX_TOKEN_PATTERN at 1.
  cbn [match_here match_atom run_length].
  change (is_digit "(") with false. change (Lexer.is_symbol "(") with true.
  cbn [substring Nat.sub]. rewrite substring_0_0.
  rewrite (regex_iterator_snoc ")" s eq_refl eq_refl 0 ltac:(lia)). reflexivity.
Qed.

Lemma push_tokens_concat (l1 l2 : list string) :
  forall container,
  Lexer.push_tokens container (l1 ++ l2) =
  (tokens <- Lexer.push_tokens container l1 ;; Lexer.push_tokens tokens l2).
Proof.
  induction l1 as [|r rs IH]; intros container; cbn [app Lexer.push_tokens bind].
  - reflexivity.
  - destruct (Lexer.make_token r); cbn [bind]; try reflexivity. apply IH.
Qed.

Lemma Tokenise_parenthesised (this : Lexer.t) (expr : string) (lexer : Lexer.t) :
  Lexer.Tokenise (Lexer.clearTokens this) expr = Return lexer ->
  Lexer.Tokenise (Lexer.clearTokens this) (String "(" (expr ++ ")")) =
  Return {| Lexer.token_container :=
              left_brace_token :: Lexer.token_container lexer ++ [right_brace_token];
            Lexer.expression := String "(" (expr ++ ")") |}.
Proof.
  rewrite !Tokenise_unfold. cbn [Lexer.clearTokens Lexer.token_container].
  destruct (invalid_characters expr) as [|c l] eqn:Ei; [|discriminate].
  assert (Hi : invalid_characters (String "(" (expr ++ ")")) = []).
  { apply invalid_characters_nil. cbn [string_forallb].
    rewrite string_forallb_app. apply invalid_characters_nil in Ei. rewrite Ei. reflexivity. }
  rewrite Hi, regex_iterator_parenthesised.
  destruct (regex_iterator Lexer.REGEX_TOKEN_PATTERN 0 expr) as [|r rs] eqn:Er; [discriminate|].
  destruct (Lexer.push_tokens [] (r :: rs)) as [tokens|e| |] eqn:Ep; cbn [bind]; try discriminate.
  intros [= <-]. cbn [Lexer.token_container].
  change (Lexer.push_tokens [] ("(" :: (r :: rs) ++ [")"]))
    with (Lexer.push_tokens ([] ++ [left_brace_token]) ((r :: rs) ++ [")"])).
  rewrite push_tokens_concat, push_tokens_app, Ep. cbn [bind app].
  reflexivity.
Qed.

(** *** The parser on a token sequence put between other tokens *)

Section Shift.
Variables lexer lexer' : Lexer.t.
Variable pre : list Lexer.Token.
Variable post : list Lexer.Token.
Hypothesis tokens' :
  Lexer.token_container lexer' = pre ++ Lexer.token_container lexer ++ post.
Hypothesis closing_brace :
  forall token, hd_error post = Some token ->
  Lexer.operation token = TokenOperation.R_Brace.

Let n : Z := Z.of_nat (Lexer.getTokenCount lexer).
Let k : Z := Z.of_nat (List.length pre).

Lemma token_at_shift (idx : Z) (token : Lexer.Token) :
  token_at lexer idx = Some token -> token_at lexer' (idx + k) = Some token.
Proof.
  intros E. pose proof (token_at_Some _ _ _ E) as [Hb _].
  unfold token_at in *. unfold Lexer.getTokenCount in *.
  destruct (int_lt_size idx _); [|discriminate].
  replace (int_lt_size (idx + k) _) with true.
  - rewrite tokens'. subst k.
    rewrite nth_error_app2 by lia.
    replace (Z.to_nat (idx + Z.of_nat (List.length pre)) - List.length pre)%nat
      with (Z.to_nat idx) by lia.
    rewrite nth_error_app1 by lia. exact E.
  - symmetry. apply int_lt_size_spec. rewrite tokens', !length_app. subst k. lia.
Qed.

Lemma token_at_shift_end : token_at lexer' (n + k) = hd_error post.
Proof.
  destruct post as [|closing rest] eqn:Ep; cbn [hd_error].
  - replace (n + k) with (Z.of_nat (Lexer.getTokenCount lexer')); [apply token_at_end|].
    unfold Lexer.getTokenCount. rewrite tokens', !length_app. subst n k.
    unfold Lexer.getTokenCount. simpl. lia.
  - assert (H : Lexer.token_container lexer' =
                (pre ++ Lexer.token_container lexer) ++ closing :: rest).
    { rewrite tokens', app_assoc. reflexivity. }
    apply token_at_middle in H. rewrite <- H. f_equal.
    rewrite length_app. subst n k. unfold Lexer.getTokenCount. lia.
Qed.

Lemma tokenMatchAndAdvance_shift (operation : TokenOperation.t) (idx : Z) (b : bool) (idx1 : Z) :
  0 <= idx <= n ->
  tokenMatchAndAdvance lexer operation idx = Return (b, idx1) ->
  b = true \/ operation <> TokenOperation.R_Brace ->
  tokenMatchAndAdvance lexer' operation (idx + k) = Return (b, idx1 + k) /\
  idx <= idx1 <= n /\
  (b = true -> idx1 = idx + 1 /\ exists token,
      token_at lexer idx = Some token /\ Lexer.operation token = operation).
Proof.
  intros Hidx H Hop. rewrite tokenMatchAndAdvance_spec in *.
  destruct (token_at lexer idx) as [token|] eqn:E.
  - rewrite (token_at_shift _ _ E). pose proof (token_at_Some _ _ _ E) as [Hb _]. fold n in Hb.
    destruct (TokenOperation.eqb (Lexer.operation token) operation) eqn:Eo;
      injection H as <- <-.
    + split; [f_equal; f_equal; lia|]. split; [lia|]. intros _. split; [reflexivity|].
      exists token. split; [reflexivity|]. apply eqb_operation. exact Eo.
    + split; [reflexivity|]. split; [lia|]. discriminate.
  - injection H as <- <-. apply token_at_None in E. fold n in E.
    replace idx with n by lia. rewrite token_at_shift_end.
    destruct Hop as [Hop|Hop]; [discriminate Hop|].
    destruct (hd_error post) as [closing|] eqn:Eh.
    + rewrite (closing_brace closing eq_refl).
      destruct operation; try contradiction; cbn [TokenOperation.eqb];
        (split; [reflexivity|]; split; [lia|]; discriminate).
    + split; [reflexivity|]. split; [lia|]. discriminate.
Qed.

Lemma match_operator_shift (idx : Z) (b : bool) (idx1 : Z) :
  0 <= idx <= n ->
  match_operator lexer idx = Return (b, idx1) ->
  match_operator lexer' (idx + k) = Return (b, idx1 + k) /\
  idx <= idx1 <= n /\
  (b = true -> idx1 = idx + 1 /\ exists token, token_at lexer idx = Some token).
Proof.
  intros Hidx H. rewrite match_operator_spec in *.
  destruct (token_at lexer idx) as [token|] eqn:E.
  - rewrite (token_at_shift _ _ E). pose proof (token_at_Some _ _ _ E) as [Hb _]. fold n in Hb.
    destruct (is_operator (Lexer.operation token)); injection H as <- <-.
    + split; [f_equal; f_equal; lia|]. split; [lia|]. intros _. split; [reflexivity|]. eauto.
    + split; [reflexivity|]. split; [lia|]. discriminate.
  - injection H as <- <-. apply token_at_None in E. fold n in E.
    replace idx with n by lia. rewrite token_at_shift_end.
    destruct (hd_error post) as [closing|] eqn:Eh.
    + rewrite (closing_brace closing eq_refl).
      cbn [is_operator]. split; [reflexivity|]. split; [lia|]. discriminate.
    + split; [reflexivity|]. split; [lia|]. discriminate.
Qed.

Lemma unexpected_token_no_return (lx : Lexer.t) (idx : Z) (e : Expression) (idx' : Z) :
  @unexpected_token lx Expression idx <> Return (e, idx').
Proof.
  unfold unexpected_token, pbind, RDParser.current_token_idx, lift.
  destruct (Lexer.getToken lx _); discriminate.
Qed.

Lemma look_back_shift (idx : Z) (token : Lexer.Token) :
  token_at lexer idx = Some token ->
  Lexer.getToken lexer (idx + 1 - 1) = Return token /\
  Lexer.getToken lexer' (idx + 1 + k - 1) = Return token.
Proof.
  intros E. rewrite !getToken_spec.
  replace (idx + 1 - 1) with idx by lia. replace (idx + 1 + k - 1) with (idx + k) by lia.
  rewrite E, (token_at_shift _ _ E). split; reflexivity.
Qed.

Lemma descent_shift (fuel : nat) :
  forall idx, 0 <= idx <= n ->
  shifted n k idx (parseExpression lexer fuel idx) (parseExpression lexer' fuel (idx + k)) /\
  shifted n k idx (parseBinary lexer fuel idx) (parseBinary lexer' fuel (idx + k)) /\
  (forall left_,
     shifted n k idx (parseBinary_while lexer fuel left_ idx)
       (parseBinary_while lexer' fuel left_ (idx + k))) /\
  shifted n k idx (parseUnary lexer fuel idx) (parseUnary lexer' fuel (idx + k)) /\
  shifted n k idx (parsePrimary lexer fuel idx) (parsePrimary lexer' fuel (idx + k)).
Proof.
  induction fuel as [|fuel IH]; intros idx Hidx.
  { split; [|split; [|split; [|split]]]; unfold shifted; intros;
      match goal with H : _ = Return _ |- _ => discriminate H end. }
  split; [|split; [|split; [|split]]].
  - rewrite !parseExpression_S. apply IH; assumption.
  - rewrite !parseBinary_S. unfold pbind. intros e idx' H.
    destruct (IH idx Hidx) as (_ & _ & _ & HU & _).
    destruct (parseUnary lexer fuel idx) as [[e1 idx1]|ex| |]; try discriminate H.
    destruct (HU e1 idx1 eq_refl) as [-> Hb].
    destruct (IH idx1 ltac:(lia)) as (_ & _ & HW & _ & _).
    destruct (HW e1 e idx' H) as [-> Hb']. split; [reflexivity|lia].
  - intros left_. rewrite !parseBinary_while_S. intros e idx' H.
    unfold pbind at 1 in H. unfold pbind at 1.
    destruct (match_operator lexer idx) as [[b idx1]|ex| |] eqn:Em; try discriminate H.
    destruct (match_operator_shift idx b idx1 Hidx Em) as (-> & Hb & Htrue).
    destruct b.
    2:{ injection H as <- <-. split; [reflexivity|lia]. }
    destruct (Htrue eq_refl) as (-> & token & E).
    destruct (look_back_shift idx token E) as [G G'].
    unfold pbind, RDParser.current_token_idx, lift in H |- *.
    rewrite G in H. rewrite G'. cbn [bind] in H |- *.
    destruct (IH (idx + 1) ltac:(lia)) as (_ & _ & _ & HU & _).
    destruct (parseUnary lexer fuel (idx + 1)) as [[e1 idx2]|ex| |]; try discriminate H.
    destruct (HU e1 idx2 eq_refl) as [-> Hb2].
    destruct (IH idx2 ltac:(lia)) as (_ & _ & HW & _ & _).
    destruct (HW _ e idx' H) as [-> Hb']. split; [reflexivity|lia].
  - rewrite !parseUnary_S. intros e idx' H.
    unfold pbind at 1 in H. unfold pbind at 1.
    destruct (tokenMatchAndAdvance lexer _ idx) as [[b idx1]|ex| |] eqn:Em; try discriminate H.
    destruct (tokenMatchAndAdvance_shift _ idx b idx1 Hidx Em ltac:(right; discriminate))
      as (-> & Hb & Htrue).
    destruct b.
    + destruct (Htrue eq_refl) as (-> & _).
      unfold pbind in H |- *.
      destruct (IH (idx + 1) ltac:(lia)) as (_ & _ & _ & HU & _).
      destruct (parseUnary lexer fuel (idx + 1)) as [[e1 idx2]|ex| |]; try discriminate H.
      destruct (HU e1 idx2 eq_refl) as [-> Hb2].
      injection H as <- <-. split; [reflexivity|lia].
    + assert (idx1 = idx).
      { rewrite tokenMatchAndAdvance_spec in Em.
        destruct (token_at lexer idx); [destruct (TokenOperation.eqb _ _)|];
          congruence. }
      subst idx1.
      destruct (IH idx Hidx) as (_ & _ & _ & _ & HP). apply HP. exact H.
  - rewrite !parsePrimary_S. intros e idx' H.
    unfold pbind at 1 in H. unfold pbind at 1.
    destruct (tokenMatchAndAdvance lexer _ idx) as [[b idx1]|ex| |] eqn:Em; try discriminate H.
    destruct (tokenMatchAndAdvance_shift _ idx b idx1 Hidx Em ltac:(right; discriminate))
      as (-> & Hb & Htrue).
    destruct b.
    { destruct (Htrue eq_refl) as (-> & token & E & _).
      destruct (look_back_shift idx token E) as [G G'].
      unfold pbind, RDParser.current_token_idx, lift in H |- *.
      rewrite G in H. rewrite G'. cbn [bind ret] in H |- *.
      injection H as <- <-. split; [reflexivity|lia]. }
    assert (idx1 = idx).
    { rewrite tokenMatchAndAdvance_spec in Em.
      destruct (token_at lexer idx); [destruct (TokenOperation.eqb _ _)|]; congruence. }
    subst idx1.
    unfold pbind at 1 in H. unfold pbind at 1.
    destruct (tokenMatchAndAdvance lexer _ idx) as [[b idx1]|ex| |] eqn:Em2; try discriminate H.
    destruct (tokenMatchAndAdvance_shift _ idx b idx1 Hidx Em2 ltac:(right; discriminate))
      as (-> & Hb2 & Htrue2).
    destruct b.
    2:{ exfalso. exact (unexpected_token_no_return _ _ _ _ H). }
    destruct (Htrue2 eq_refl) as (-> & _).
    unfold pbind at 1 in H. unfold pbind at 1.
    destruct (IH (idx + 1) ltac:(lia)) as (HE & _).
    destruct (parseExpression lexer fuel (idx + 1)) as [[e1 idx2]|ex| |]; try discriminate H.
    destruct (HE e1 idx2 eq_refl) as [-> Hb3].
    unfold pbind in H |- *.
    destruct (tokenMatchAndAdvance lexer _ idx2) as [[b idx3]|ex| |] eqn:Em3; try discriminate H.
    destruct b; [|discriminate H].
    destruct (tokenMatchAndAdvance_shift _ idx2 true idx3 ltac:(lia) Em3 ltac:(left; reflexivity))
      as (-> & Hb4 & _).
    cbn [negb ret] in H |- *. injection H as <- <-. split; [reflexivity|lia].
Qed.
End Shift.

Lemma closing_is_brace (rest : list Lexer.Token) (token : Lexer.Token) :
  hd_error (right_brace_token :: rest) = Some token ->
  Lexer.operation token = TokenOperation.R_Brace.
Proof. intros [= <-]. reflexivity. Qed.

(** X11: putting a whole expression in parentheses does not change its
    value: if [Parse] returns [v] for an input it returns [v] for that input
    between "(" and ")". *)
Theorem Parse_parenthesised :
  forall order this expr v,
    Parse order this expr = Return v ->
    Parse order this (String "(" (expr ++ ")")) = Return v.
Proof.
  intros order this expr v HP.
  destruct (Parse_return_inv order this expr v HP) as (lx & e & HT & HE & HV).
  pose proof (Tokenise_parenthesised _ _ _ HT) as HT'.
  set (lx' := {| Lexer.token_container :=
                   left_brace_token :: Lexer.token_container lx ++ [right_brace_token];
                 Lexer.expression := String "(" (expr ++ ")") |}) in *.
  assert (Htok : Lexer.token_container lx' =
                 [left_brace_token] ++ Lexer.token_container lx ++ [right_brace_token])
    by reflexivity.
  set (n := Z.of_nat (Lexer.getTokenCount lx)).
  assert (Hcount : Z.of_nat (Lexer.getTokenCount lx') = n + 1 + 1).
  { unfold Lexer.getTokenCount, lx', n. cbn [Lexer.token_container List.length].
    rewrite length_app. cbn [List.length]. unfold Lexer.getTokenCount. lia. }
  (* the inner expression, one token further right *)
  destruct (descent_shift lx lx' [left_brace_token] [right_brace_token] Htok (closing_is_brace [])
              (4 * String.length expr + 4) 0 ltac:(lia)) as (HS & _).
  destruct (HS e _ HE) as [HE' _]. cbn [List.length] in HE'.
  change (0 + Z.of_nat 1) with 1 in HE'. fold n in HE'.
  assert (Hlen : String.length (String "(" (expr ++ ")")) = S (S (String.length expr))).
  { cbn [String.length]. rewrite length_append'. cbn [String.length]. lia. }
  unfold Parse, ParseFuel. rewrite HT', Hlen. cbn [bind].
  replace (4 * S (S (String.length expr)) + 4)%nat
    with (S (S (S (S (S (4 * String.length expr + 4 + 3))))))%nat by lia.
  set (fuel := (4 * String.length expr + 4 + 3)%nat).
  assert (HE'' : parseExpression lx' (S fuel) 1 = Return (e, n + Z.of_nat 1)).
  { destruct (descent_mono lx' (4 * String.length expr + 4) (S fuel) 1
                ltac:(unfold fuel; lia)) as (HM & _).
    rewrite HM; [exact HE'|]. rewrite HE'. discriminate. }
  assert (Hfirst : token_at lx' 0 = Some left_brace_token).
  { exact (token_at_middle lx' [] _ left_brace_token eq_refl). }
  assert (Hlast : token_at lx' (n + Z.of_nat 1) = Some right_brace_token).
  { exact (token_at_shift_end lx lx' [left_brace_token] [right_brace_token] Htok
             (closing_is_brace [])). }
  rewrite parseExpression_S, parseBinary_S. unfold pbind at 1.
  rewrite parseUnary_S. unfold pbind at 1.
  rewrite tokenMatchAndAdvance_spec, Hfirst. cbn [TokenOperation.eqb left_brace_token Lexer.operation].
  rewrite parsePrimary_S. unfold pbind at 1.
  rewrite tokenMatchAndAdvance_spec, Hfirst. cbn [TokenOperation.eqb left_brace_token Lexer.operation].
  unfold pbind at 1.
  rewrite tokenMatchAndAdvance_spec, Hfirst. cbn [TokenOperation.eqb left_brace_token Lexer.operation].
  unfold pbind at 1. change (0 + 1) with 1. rewrite HE''.
  unfold pbind at 1.
  rewrite tokenMatchAndAdvance_spec, Hlast.
  cbn [TokenOperation.eqb right_brace_token Lexer.operation negb ret].
  replace (n + Z.of_nat 1 + 1) with (Z.of_nat (Lexer.getTokenCount lx')) by (rewrite Hcount; lia).
  rewrite parseBinary_while_end. cbn [bind].
  replace (int_lt_size _ _) with false
    by (symmetry; unfold int_lt_size; rewrite Z.ltb_irrefl, andb_false_r; reflexivity).
  exact HV.
Qed.

Lemma Parse_parenthesised_witness :
  Parse LeftFirst RDParser.new "1 + 3 * 4" = Return 16 /\
  Parse LeftFirst RDParser.new "(1 + 3 * 4)" = Return 16.
Proof.
  refine ((fun H => conj H
            (Parse_parenthesised LeftFirst RDParser.new "1 + 3 * 4" 16 H)) _).
  reflexivity.
Defined.

(** ** Tokens of a concatenation *)

Lemma match_here_token_app_general (s t : string) (c : ascii) :
  s <> "" -> is_digit c = false ->
  match_here Lexer.REGEX_TOKEN_PATTERN (s ++ String c t) =
  match_here Lexer.REGEX_TOKEN_PATTERN s.
Proof.
  intros Hs Hc. unfold Lexer.REGEX_TOKEN_PATTERN. cbn [match_here match_atom].
  rewrite (run_length_app is_digit s t c Hc).
  destruct s as [|x s]; [contradiction|]. reflexivity.
Qed.

Lemma regex_iterator_app (c : ascii) (s t : string) :
  is_digit c = false ->
  forall k, (k <= String.length s)%nat ->
  regex_iterator Lexer.REGEX_TOKEN_PATTERN k (s ++ String c t) =
  regex_iterator Lexer.REGEX_TOKEN_PATTERN k s ++
  regex_iterator Lexer.REGEX_TOKEN_PATTERN 0 (String c t).
Proof.
  intros Hd. induction s as [|x s IH]; intros k Hk.
  - assert (k = 0)%nat by (simpl in Hk; lia). subst k. reflexivity.
  - change ((String x s ++ String c t)%string) with (String x (s ++ String c t)).
    cbn [regex_iterator]. destruct k as [|k].
    + change (String x (s ++ String c t)) with ((String x s ++ String c t)%string).
      rewrite (match_here_token_app_general (String x s) t c ltac:(discriminate) Hd).
      destruct (match_here Lexer.REGEX_TOKEN_PATTERN (String x s)) as [n|] eqn:E.
      * apply match_here_length in E. cbn [String.length] in E.
        rewrite substring_app by (cbn [String.length]; lia).
        rewrite IH by lia. reflexivity.
      * apply IH. lia.
    + apply IH. cbn [String.length] in Hk. lia.
Qed.

Lemma Tokenise_return_inv (this : Lexer.t) (expr : string) (lexer : Lexer.t) :
  Lexer.Tokenise (Lexer.clearTokens this) expr = Return lexer ->
  string_forallb Lexer.in_class expr = true /\
  regex_iterator Lexer.REGEX_TOKEN_PATTERN 0 expr <> [] /\
  Lexer.push_tokens [] (regex_iterator Lexer.REGEX_TOKEN_PATTERN 0 expr) =
    Return (Lexer.token_container lexer) /\
  Lexer.expression lexer = expr.
Proof.
  rewrite Tokenise_unfold. cbn [Lexer.clearTokens Lexer.token_container].
  destruct (invalid_characters expr) as [|c l] eqn:Ei; [|discriminate].
  apply invalid_characters_nil in Ei.
  destruct (regex_iterator Lexer.REGEX_TOKEN_PATTERN 0 expr) as [|r rs]; [discriminate|].
  destruct (Lexer.push_tokens [] (r :: rs)) as [tokens|e| |]; cbn [bind]; try discriminate.
  intros [= <-]. repeat split; auto. discriminate.
Qed.

Lemma Tokenise_append (this : Lexer.t) (a b : string) (c : ascii) (la lb : Lexer.t) :
  is_digit c = false ->
  Lexer.Tokenise (Lexer.clearTokens this) a = Return la ->
  Lexer.Tokenise (Lexer.clearTokens this) (String c b) = Return lb ->
  Lexer.Tokenise (Lexer.clearTokens this) (a ++ String c b) =
  Return {| Lexer.token_container := Lexer.token_container la ++ Lexer.token_container lb;
            Lexer.expression := (a ++ String c b)%string |}.
Proof.
  intros Hc Ha Hb.
  apply Tokenise_return_inv in Ha as (Ca & Na & Pa & _).
  apply Tokenise_return_inv in Hb as (Cb & Nb & Pb & _).
  rewrite Tokenise_unfold. cbn [Lexer.clearTokens Lexer.token_container].
  assert (Hi : invalid_characters (a ++ String c b) = []).
  { apply invalid_characters_nil. rewrite string_forallb_app, Ca, Cb. reflexivity. }
  rewrite Hi, (regex_iterator_app c a b Hc 0 ltac:(lia)).
  destruct (regex_iterator Lexer.REGEX_TOKEN_PATTERN 0 a ++
            regex_iterator Lexer.REGEX_TOKEN_PATTERN 0 (String c b)) as [|r rs] eqn:E.
  { apply app_eq_nil in E as [E _]. contradiction. }
  rewrite <- E, push_tokens_concat, Pa. cbn [bind].
  rewrite push_tokens_app, Pb. reflexivity.
Qed.

(** X12: tokenising is compositional at a boundary that cannot fall
    inside a number: if [a] and [b] are tokenised and [b] does not start
    with a digit, then [a ++ b] is tokenised to the tokens of [a] followed
    by those of [b]. *)
Theorem Tokenise_concatenation :
  forall this a b c la lb,
    is_digit c = false ->
    Lexer.Tokenise (Lexer.clearTokens this) a = Return la ->
    Lexer.Tokenise (Lexer.clearTokens this) (String c b) = Return lb ->
    exists lexer,
      Lexer.Tokenise (Lexer.clearTokens this) (a ++ String c b) = Return lexer /\
      Lexer.token_container lexer = Lexer.token_container la ++ Lexer.token_container lb.
Proof.
  intros this a b c la lb Hc Ha Hb.
  eexists. split; [apply (Tokenise_append this a b c la lb Hc Ha Hb)|reflexivity].
Qed.

Lemma Tokenise_concatenation_witness :
  let la := match Lexer.Tokenise Lexer.new "12" with Return l => l | _ => Lexer.new end in
  let lb := match Lexer.Tokenise Lexer.new "+3" with Return l => l | _ => Lexer.new end in
  (is_digit "+" = false /\
   Lexer.Tokenise (Lexer.clearTokens Lexer.new) "12" = Return la /\
   Lexer.Tokenise (Lexer.clearTokens Lexer.new) "+3" = Return lb) /\
  exists lexer,
    Lexer.Tokenise (Lexer.clearTokens Lexer.new) "12+3" = Return lexer /\
    Lexer.token_container lexer = Lexer.token_container la ++ Lexer.token_container lb.
Proof.
  cbv zeta.
  refine ((fun H => conj H
            (Tokenise_concatenation Lexer.new "12" "3" "+" _ _
               (proj1 H) (proj1 (proj2 H)) (proj2 (proj2 H)))) _).
  repeat split.
Defined.

(** ** Two expressions in parentheses around an operator *)

Lemma parseUnary_parenthesised (lexer : Lexer.t) (fuel : nat) (idx idx1 : Z)
    (opening closing : Lexer.Token) (e : Expression) :
  token_at lexer idx = Some opening ->
  Lexer.operation opening = TokenOperation.L_Brace ->
  parseExpression lexer fuel (idx + 1) = Return (e, idx1) ->
  token_at lexer idx1 = Some closing ->
  Lexer.operation closing = TokenOperation.R_Brace ->
  parseUnary lexer (S (S fuel)) idx = Return (e, idx1 + 1).
Proof.
  intros Eo Ho HE Ec Hc.
  rewrite parseUnary_S. unfold pbind at 1.
  rewrite tokenMatchAndAdvance_spec, Eo, Ho. cbn [TokenOperation.eqb].
  rewrite parsePrimary_S. unfold pbind at 1.
  rewrite tokenMatchAndAdvance_spec, Eo, Ho. cbn [TokenOperation.eqb].
  unfold pbind at 1.
  rewrite tokenMatchAndAdvance_spec, Eo, Ho. cbn [TokenOperation.eqb].
  unfold pbind at 1. rewrite HE. unfold pbind.
  rewrite tokenMatchAndAdvance_spec, Ec, Hc. reflexivity.
Qed.

Lemma Tokenise_operator (this : Lexer.t) (operation : TokenOperation.t) (c : ascii) :
  is_operator operation = true ->
  symbol_of operation = Some c ->
  is_digit c = false /\
  Lexer.Tokenise (Lexer.clearTokens this) (String c "") =
  Return {| Lexer.token_container :=
              [{| Lexer.operation := operation;
                  Lexer.value := Lexer.TOKEN_VALUE_NOT_APPLICABLE;
                  Lexer.raw := String c "" |}];
            Lexer.expression := String c "" |}.
Proof.
  intros Hop Hsym.
  destruct operation; try discriminate Hop; injection Hsym as <-; split; reflexivity.
Qed.

(** X13: parentheses override the left-to-right order.  For two inputs
    with values [v1] and [v2] and any of the four operators, [Parse] of
    "(input1) op (input2)" is that operator applied to [v1] and [v2] as
    [Binary::Evaluate] applies it: the [int] result, DivideByZero for a
    division by zero, undefined behaviour on overflow. *)
Theorem Parse_binary_parenthesised :
  forall order this operation c expr1 expr2 v1 v2,
    is_operator operation = true ->
    symbol_of operation = Some c ->
    Parse order this expr1 = Return v1 ->
    Parse order this expr2 = Return v2 ->
    Parse order this (parenthesised expr1 ++ String c (parenthesised expr2)) =
    apply_operator operation v1 v2.
Proof.
  intros order this operation c expr1 expr2 v1 v2 Hop Hsym HP1 HP2.
  destruct (Parse_return_inv order this expr1 v1 HP1) as (lx1 & e1 & HT1 & HE1 & HV1).
  destruct (Parse_return_inv order this expr2 v2 HP2) as (lx2 & e2 & HT2 & HE2 & HV2).
  destruct (Tokenise_operator (RDParser.lexer this) operation c Hop Hsym) as [Hc HTo].
  set (operator := {| Lexer.operation := operation;
                      Lexer.value := Lexer.TOKEN_VALUE_NOT_APPLICABLE;
                      Lexer.raw := String c "" |}) in *.
  pose proof (Tokenise_parenthesised _ _ _ HT1) as HW1.
  pose proof (Tokenise_parenthesised _ _ _ HT2) as HW2.
  pose proof (Tokenise_append _ (String c "") (expr2 ++ ")") "(" _ _ eq_refl HTo HW2) as HR.
  cbn [Lexer.token_container String.append] in HR.
  pose proof (Tokenise_append _ (parenthesised expr1) (parenthesised expr2) c _ _ Hc HW1 HR)
    as HT.
  cbn [Lexer.token_container] in HT.
  set (toks1 := Lexer.token_container lx1) in *.
  set (toks2 := Lexer.token_container lx2) in *.
  set (expr := (parenthesised expr1 ++ String c (parenthesised expr2))%string) in *.
  set (lx := {| Lexer.token_container :=
                  (left_brace_token :: toks1 ++ [right_brace_token]) ++
                  [operator] ++ left_brace_token :: toks2 ++ [right_brace_token];
                Lexer.expression := expr |}) in *.
  set (n1 := Z.of_nat (Lexer.getTokenCount lx1)).
  set (n2 := Z.of_nat (Lexer.getTokenCount lx2)).
  (* the two inner runs inside the whole token sequence *)
  assert (Htok1 : Lexer.token_container lx =
                  [left_brace_token] ++ Lexer.token_container lx1 ++
                  right_brace_token :: operator :: left_brace_token :: toks2 ++ [right_brace_token]).
  { unfold lx. cbn [Lexer.token_container app]. fold toks1.
    rewrite <- app_assoc. reflexivity. }
  assert (Htok2 : Lexer.token_container lx =
                  (left_brace_token :: toks1 ++ [right_brace_token; operator; left_brace_token]) ++
                  Lexer.token_container lx2 ++ right_brace_token :: []).
  { unfold lx. cbn [Lexer.token_container app]. fold toks2.
    rewrite <- !app_assoc. reflexivity. }
  assert (Hk2 : Z.of_nat (List.length
                  (left_brace_token :: toks1 ++ [right_brace_token; operator; left_brace_token]))
                = n1 + 4).
  { cbn [List.length]. rewrite length_app. cbn [List.length].
    unfold n1, Lexer.getTokenCount. fold toks1. lia. }
  assert (Hcount : Z.of_nat (Lexer.getTokenCount lx) = n1 + n2 + 5).
  { unfold Lexer.getTokenCount. rewrite Htok2, !length_app.
    change (List.length (left_brace_token :: toks1 ++ [right_brace_token; operator; left_brace_token]))
      with (S (List.length (toks1 ++ [right_brace_token; operator; left_brace_token]))).
    rewrite length_app. cbn [List.length].
    unfold n1, n2, Lexer.getTokenCount. fold toks1. lia. }
  destruct (descent_shift lx1 lx [left_brace_token] _ Htok1 (closing_is_brace _)
              (4 * String.length expr1 + 4) 0 ltac:(lia)) as (HS1 & _).
  destruct (HS1 e1 _ HE1) as [HE1' _]. cbn [List.length] in HE1'.
  change (0 + Z.of_nat 1) with 1 in HE1'. fold n1 in HE1'.
  destruct (descent_shift lx2 lx _ [right_brace_token] Htok2 (closing_is_brace [])
              (4 * String.length expr2 + 4) 0 ltac:(lia)) as (HS2 & _).
  destruct (HS2 e2 _ HE2) as [HE2' _]. rewrite Hk2 in HE2'. fold n2 in HE2'.
  (* the tokens next to them *)
  assert (T0 : token_at lx 0 = Some left_brace_token).
  { exact (token_at_middle lx [] _ left_brace_token eq_refl). }
  assert (T1 : token_at lx (n1 + 1) = Some right_brace_token).
  { pose proof (token_at_shift_end lx1 lx [left_brace_token] _ Htok1 (closing_is_brace _)) as H.
    exact H. }
  assert (T2 : token_at lx (n1 + 2) = Some operator).
  { assert (H : Lexer.token_container lx =
                (left_brace_token :: toks1 ++ [right_brace_token]) ++
                operator :: left_brace_token :: toks2 ++ [right_brace_token]) by reflexivity.
    apply token_at_middle in H. rewrite <- H. f_equal.
    cbn [List.length]. rewrite length_app. cbn [List.length].
    unfold n1, Lexer.getTokenCount. fold toks1. lia. }
  assert (T3 : token_at lx (n1 + 3) = Some left_brace_token).
  { assert (H : Lexer.token_container lx =
                (left_brace_token :: toks1 ++ [right_brace_token; operator]) ++
                left_brace_token :: toks2 ++ [right_brace_token]).
    { unfold lx. cbn [Lexer.token_container app]. rewrite <- !app_assoc. reflexivity. }
    apply token_at_middle in H. rewrite <- H. f_equal.
    cbn [List.length]. rewrite length_app. cbn [List.length].
    unfold n1, Lexer.getTokenCount. fold toks1. lia. }
  assert (T4 : token_at lx (n2 + (n1 + 4)) = Some right_brace_token).
  { pose proof (token_at_shift_end lx2 lx _ [right_brace_token] Htok2 (closing_is_brace [])) as H.
    rewrite Hk2 in H. exact H. }
  (* the run *)
  assert (Hlen : String.length expr =
                 (String.length expr1 + String.length expr2 + 5)%nat).
  { unfold expr, parenthesised. cbn [String.length].
    rewrite !length_append'. cbn [String.length]. rewrite !length_append'.
    cbn [String.length]. lia. }
  unfold Parse, ParseFuel. rewrite HT, Hlen. cbn [bind]. fold lx.
  set (f1 := (4 * String.length expr1 + 4)%nat) in *.
  set (f2 := (4 * String.length expr2 + 4)%nat) in *.
  replace (4 * (String.length expr1 + String.length expr2 + 5) + 4)%nat
    with (S (S (S (S (S (f1 + f2 + 11))))))%nat by (unfold f1, f2; lia).
  set (g := (f1 + f2 + 11)%nat).
  assert (G1 : parseExpression lx (S g) (0 + 1) = Return (e1, n1 + 1)).
  { destruct (descent_mono lx f1 (S g) 1 ltac:(unfold g; lia)) as (HM & _).
    change (0 + 1) with 1. rewrite HM; [exact HE1'|]. rewrite HE1'. discriminate. }
  assert (G2 : parseExpression lx g (n1 + 3 + 1) = Return (e2, n2 + (n1 + 4))).
  { destruct (descent_mono lx f2 g (0 + (n1 + 4)) ltac:(unfold g; lia)) as (HM & _).
    replace (n1 + 3 + 1) with (0 + (n1 + 4)) by lia.
    rewrite HM; [exact HE2'|]. rewrite HE2'. discriminate. }
  rewrite parseExpression_S, parseBinary_S. unfold pbind at 1.
  rewrite (parseUnary_parenthesised lx (S g) 0 (n1 + 1) left_brace_token right_brace_token e1
             T0 eq_refl G1 T1 eq_refl).
  rewrite parseBinary_while_S. unfold pbind at 1.
  replace (n1 + 1 + 1) with (n1 + 2) by lia.
  rewrite match_operator_spec, T2. cbn [operator Lexer.operation]. rewrite Hop.
  unfold pbind at 1. unfold RDParser.current_token_idx at 1.
  unfold pbind at 1. unfold lift at 1. rewrite getToken_spec.
  replace (n1 + 2 + 1 - 1) with (n1 + 2) by lia. rewrite T2. cbn [bind].
  unfold pbind at 1. replace (n1 + 2 + 1) with (n1 + 3) by lia.
  rewrite (parseUnary_parenthesised lx g (n1 + 3) (n2 + (n1 + 4))
             left_brace_token right_brace_token e2 T3 eq_refl G2 T4 eq_refl).
  replace (n2 + (n1 + 4) + 1) with (Z.of_nat (Lexer.getTokenCount lx)) by lia.
  rewrite parseBinary_while_end. cbn [bind].
  replace (int_lt_size _ _) with false
    by (symmetry; unfold int_lt_size; rewrite Z.ltb_irrefl, andb_false_r; reflexivity).
  cbn [operator Lexer.operation]. apply Evaluate_Binary_values; assumption.
Qed.

Lemma Parse_binary_parenthesised_witness :
  (is_operator TokenOperation.Division = true /\
   symbol_of TokenOperation.Division = Some "/"%char /\
   Parse LeftFirst RDParser.new "1 + 6" = Return 7 /\
   Parse LeftFirst RDParser.new "4 - 2" = Return 2) /\
  Parse LeftFirst RDParser.new "(1 + 6)/(4 - 2)" = Return 3.
Proof.
  refine ((fun H => conj H
            (Parse_binary_parenthesised LeftFirst RDParser.new TokenOperation.Division "/"
               "1 + 6" "4 - 2" 7 2
               (proj1 H) (proj1 (proj2 H)) (proj1 (proj2 (proj2 H)))
               (proj2 (proj2 (proj2 H))))) _).
  repeat split.
Defined.

(** ** A negated expression in parentheses *)

(** X14: a minus sign in front of a group negates the value of the group:
    if [Parse] returns [v] for an input, its outcome for "-(input)" is the
    [int] negation of [v], which is undefined behaviour for INT_MIN and the
    value [-v] otherwise. *)
Theorem Parse_negated_parenthesised :
  forall order this expr v,
    Parse order this expr = Return v ->
    Parse order this (String "-" (parenthesised expr)) = int_result (- v).
Proof.
  intros order this expr v HP.
  destruct (Parse_return_inv order this expr v HP) as (lx & e & HT & HE & HV).
  destruct (Tokenise_operator (RDParser.lexer this) TokenOperation.Subtraction "-"
              eq_refl eq_refl) as [_ HTo].
  pose proof (Tokenise_parenthesised _ _ _ HT) as HW.
  pose proof (Tokenise_append _ "-" (expr ++ ")") "(" _ _ eq_refl HTo HW) as HT'.
  cbn [Lexer.token_container String.append app] in HT'.
  set (lx' := {| Lexer.token_container :=
                   minus_token :: left_brace_token :: Lexer.token_container lx ++
                   [right_brace_token];
                 Lexer.expression := String "-" (String "(" (expr ++ ")")) |}).
  change (Lexer.Tokenise (Lexer.clearTokens (RDParser.lexer this))
            (String "-" (String "(" (expr ++ ")"))) = Return lx') in HT'.
  assert (Htok : Lexer.token_container lx' =
                 [minus_token; left_brace_token] ++ Lexer.token_container lx ++
                 [right_brace_token]) by reflexivity.
  set (n := Z.of_nat (Lexer.getTokenCount lx)).
  assert (Hcount : Z.of_nat (Lexer.getTokenCount lx') = n + 3).
  { unfold Lexer.getTokenCount, lx', n. cbn [Lexer.token_container List.length].
    rewrite length_app. cbn [List.length]. unfold Lexer.getTokenCount. lia. }
  destruct (descent_shift lx lx' _ [right_brace_token] Htok (closing_is_brace [])
              (4 * String.length expr + 4) 0 ltac:(lia)) as (HS & _).
  destruct (HS e _ HE) as [HE' _]. cbn [List.length] in HE'.
  change (0 + Z.of_nat 2) with (1 + 1) in HE'. change (Z.of_nat 2) with 2 in HE'. fold n in HE'.
  assert (T0 : token_at lx' 0 = Some minus_token)
    by exact (token_at_middle lx' [] _ minus_token eq_refl).
  assert (T1 : token_at lx' 1 = Some left_brace_token)
    by exact (token_at_middle lx' [minus_token] _ left_brace_token eq_refl).
  assert (T2 : token_at lx' (n + 2) = Some right_brace_token)
    by exact (token_at_shift_end lx lx' _ [right_brace_token] Htok (closing_is_brace [])).
  assert (Hlen : String.length (String "-" (parenthesised expr)) =
                 S (S (S (String.length expr)))).
  { unfold parenthesised. cbn [String.length]. rewrite length_append'.
    cbn [String.length]. lia. }
  unfold Parse, ParseFuel. unfold parenthesised at 1. rewrite HT', Hlen. cbn [bind].
  replace (4 * S (S (S (String.length expr))) + 4)%nat
    with (S (S (S (S (S (4 * String.length expr + 4 + 7))))))%nat by lia.
  set (g := (4 * String.length expr + 4 + 7)%nat).
  assert (G : parseExpression lx' g (1 + 1) = Return (e, n + 2)).
  { destruct (descent_mono lx' (4 * String.length expr + 4) g (1 + 1)
                ltac:(unfold g; lia)) as (HM & _).
    rewrite HM; [exact HE'|]. rewrite HE'. discriminate. }
  rewrite parseExpression_S, parseBinary_S. unfold pbind at 1.
  rewrite parseUnary_S. unfold pbind at 1.
  rewrite tokenMatchAndAdvance_spec, T0. cbn [TokenOperation.eqb minus_token Lexer.operation].
  unfold pbind at 1. change (0 + 1) with 1.
  rewrite (parseUnary_parenthesised lx' g 1 (n + 2) left_brace_token right_brace_token e
             T1 eq_refl G T2 eq_refl).
  cbn [ret]. replace (n + 2 + 1) with (Z.of_nat (Lexer.getTokenCount lx')) by lia.
  rewrite parseBinary_while_end. cbn [bind].
  replace (int_lt_size _ _) with false
    by (symmetry; unfold int_lt_size; rewrite Z.ltb_irrefl, andb_false_r; reflexivity).
  cbn [Evaluate]. rewrite HV. reflexivity.
Qed.

Lemma Parse_negated_parenthesised_witness :
  Parse LeftFirst RDParser.new "2 - 7" = Return (-5) /\
  Parse LeftFirst RDParser.new "-(2 - 7)" = Return 5.
Proof.
  refine ((fun H => conj H
            (Parse_negated_parenthesised LeftFirst RDParser.new "2 - 7" (-5) H)) _).
  reflexivity.
Defined.

(** ** A parenthesis too few or too many *)

Lemma regex_iterator_open (s : string) :
  regex_iterator Lexer.REGEX_TOKEN_PATTERN 0 (String "(" s) =
  "(" :: regex_iterator Lexer.REGEX_TOKEN_PATTERN 0 s.
Proof.
  cbn [regex_iterator]. unfold Lexer.REGEX_TOKEN_PATTERN at 1.
  cbn [match_here match_atom run_length].
  change (is_digit "(") with false. change (Lexer.is_symbol "(") with true.
  cbn [substring Nat.sub]. rewrite substring_0_0. reflexivity.
Qed.

Lemma Tokenise_open (this : Lexer.t) (expr : string) (lexer : Lexer.t) :
  Lexer.Tokenise (Lexer.clearTokens this) expr = Return lexer ->
  Lexer.Tokenise (Lexer.clearTokens this) (String "(" expr) =
  Return {| Lexer.token_container := left_brace_token :: Lexer.token_container lexer;
            Lexer.expression := String "(" expr |}.
Proof.
  intros HT. apply Tokenise_return_inv in HT as (Hc & Hn & Hp & _).
  rewrite Tokenise_unfold. cbn [Lexer.clearTokens Lexer.token_container].
  assert (Hi : invalid_characters (String "(" expr) = []).
  { apply invalid_characters_nil. cbn [string_forallb]. rewrite Hc. reflexivity. }
  rewrite Hi, regex_iterator_open.
  change (Lexer.push_tokens [] ("(" :: regex_iterator Lexer.REGEX_TOKEN_PATTERN 0 expr))
    with (Lexer.push_tokens ([] ++ [left_brace_token])
            (regex_iterator Lexer.REGEX_TOKEN_PATTERN 0 expr)).
  rewrite push_tokens_app, Hp. reflexivity.
Qed.

Lemma Tokenise_close (this : Lexer.t) (expr : string) (lexer : Lexer.t) :
  Lexer.Tokenise (Lexer.clearTokens this) expr = Return lexer ->
  Lexer.Tokenise (Lexer.clearTokens this) (expr ++ ")") =
  Return {| Lexer.token_container := Lexer.token_container lexer ++ [right_brace_token];
            Lexer.expression := (expr ++ ")")%string |}.
Proof.
  intros HT.
  destruct (Tokenise_operator this TokenOperation.Subtraction "-" eq_refl eq_refl) as [_ _].
  exact (Tokenise_append this expr "" ")" lexer
           {| Lexer.token_container := [right_brace_token]; Lexer.expression := ")" |}
           eq_refl HT eq_refl).
Qed.

(** X15: one parenthesis too few or too many around a valid expression is
    reported by the exception made for it: if [Parse] returns a value for an
    input, then the input with "(" in front fails with ParenthesesMismatch
    and the input with ")" behind it fails with UnexpectedParentheses. *)
Theorem Parse_unbalanced :
  forall order this expr v,
    Parse order this expr = Return v ->
    Parse order this (String "(" expr) = Throw ParenthesesMismatchException /\
    Parse order this (expr ++ ")") = Throw UnexpectedParenthesesException.
Proof.
  intros order this expr v HP.
  destruct (Parse_return_inv order this expr v HP) as (lx & e & HT & HE & HV).
  set (n := Z.of_nat (Lexer.getTokenCount lx)).
  split.
  - pose proof (Tokenise_open _ _ _ HT) as HT'.
    set (lx' := {| Lexer.token_container := left_brace_token :: Lexer.token_container lx;
                   Lexer.expression := String "(" expr |}) in *.
    assert (Htok : Lexer.token_container lx' =
                   [left_brace_token] ++ Lexer.token_container lx ++ []).
    { cbn [app lx' Lexer.token_container]. rewrite app_nil_r. reflexivity. }
    assert (Hpost : forall token, hd_error (@nil Lexer.Token) = Some token ->
                                  Lexer.operation token = TokenOperation.R_Brace)
      by (intros token H; discriminate H).
    destruct (descent_shift lx lx' _ [] Htok Hpost
                (4 * String.length expr + 4) 0 ltac:(lia)) as (HS & _).
    destruct (HS e _ HE) as [HE' _]. cbn [List.length] in HE'.
    change (0 + Z.of_nat 1) with (0 + 1) in HE'. fold n in HE'.
    assert (T0 : token_at lx' 0 = Some left_brace_token)
      by exact (token_at_middle lx' [] _ left_brace_token eq_refl).
    assert (T1 : token_at lx' (n + Z.of_nat 1) = None)
      by exact (token_at_shift_end lx lx' _ [] Htok Hpost).
    unfold Parse, ParseFuel. rewrite HT'. cbn [bind String.length].
    replace (4 * S (String.length expr) + 4)%nat
      with (S (S (S (S (4 * String.length expr + 4))))) by lia.
    rewrite parseExpression_S, parseBinary_S. unfold pbind at 1.
    rewrite parseUnary_S. unfold pbind at 1.
    rewrite tokenMatchAndAdvance_spec, T0.
    cbn [TokenOperation.eqb left_brace_token Lexer.operation].
    rewrite parsePrimary_S. unfold pbind at 1.
    rewrite tokenMatchAndAdvance_spec, T0.
    cbn [TokenOperation.eqb left_brace_token Lexer.operation].
    unfold pbind at 1.
    rewrite tokenMatchAndAdvance_spec, T0.
    cbn [TokenOperation.eqb left_brace_token Lexer.operation].
    unfold pbind at 1. rewrite HE'. unfold pbind at 1.
    rewrite tokenMatchAndAdvance_spec, T1. reflexivity.
  - pose proof (Tokenise_close _ _ _ HT) as HT'.
    set (lx' := {| Lexer.token_container := Lexer.token_container lx ++ [right_brace_token];
                   Lexer.expression := (expr ++ ")")%string |}) in *.
    assert (Htok : Lexer.token_container lx' =
                   [] ++ Lexer.token_container lx ++ [right_brace_token]) by reflexivity.
    destruct (descent_shift lx lx' [] [right_brace_token] Htok (closing_is_brace [])
                (4 * String.length expr + 4) 0 ltac:(lia)) as (HS & _).
    destruct (HS e _ HE) as [HE' _]. cbn [List.length] in HE'.
    change (0 + Z.of_nat 0) with 0 in HE'. fold n in HE'.
    unfold Parse, ParseFuel. rewrite HT'. cbn [bind].
    destruct (descent_mono lx' (4 * String.length expr + 4)
                (4 * String.length (expr ++ ")") + 4) 0
                ltac:(rewrite length_append'; lia)) as (HM & _).
    rewrite HM by (rewrite HE'; discriminate). rewrite HE'. cbn [bind].
    replace (int_lt_size _ _) with true; [reflexivity|].
    symmetry. apply int_lt_size_spec.
    unfold Lexer.getTokenCount, lx'. cbn [Lexer.token_container]. rewrite length_app.
    cbn [List.length]. unfold n, Lexer.getTokenCount. lia.
Qed.

Lemma Parse_unbalanced_witness :
  Parse LeftFirst RDParser.new "8 / 2" = Return 4 /\
  Parse LeftFirst RDParser.new "(8 / 2" = Throw ParenthesesMismatchException.
Proof.
  refine ((fun H => conj H
            (proj1 (Parse_unbalanced LeftFirst RDParser.new "8 / 2" 4 H))) _).
  reflexivity.
Defined.

(** ** An expression that starts with the wrong token *)


